(** * A shallow embedding of the NATS consensus-group node (raft.go)

    The development follows the Go source function by function.  Unsigned
    64-bit quantities are integers in [Z] with their wrap-around written
    out where the code does arithmetic on them; byte slices carry their
    backing array so that Go's slicing rules (bounds against [len] for an
    index, against [cap] for a two-index slice expression) are modelled
    as they are; a run-time panic is an explicit outcome. *)

From Stdlib Require Import ZArith Lia List.
From Stdlib Require Import Strings.Byte Strings.Ascii Strings.String.
From stdpp Require Import gmap strings list fin_maps.

Local Open Scope Z_scope.

(** ** Outcomes: a Go call either returns or panics *)

Inductive outcome (A : Type) : Type :=
| Done (a : A)
| Panic.
Arguments Done {A} a.
Arguments Panic {A}.

#[global] Instance outcome_ret : MRet outcome := fun _ a => Done a.
#[global] Instance outcome_bind : MBind outcome := fun _ _ f m =>
  match m with
  | Done a => f a
  | Panic => Panic
  end.

Definition returns {A} (m : outcome A) : Prop := exists a, m = Done a.

(** ** Bytes and little-endian integers (encoding/binary) *)

Definition byte_of_Z (z : Z) : byte :=
  match Byte.of_N (Z.to_N (z mod 256)) with
  | Some b => b
  | None => "000"%byte
  end.

Definition Z_of_byte (b : byte) : Z := Z.of_N (Byte.to_N b).

(** [le_bytes w v] is what [PutUint16/32/64] stores for [w = 2, 4, 8]:
    byte(v), byte(v>>8), ... *)
Fixpoint le_bytes (w : nat) (v : Z) : list byte :=
  match w with
  | O => []
  | S k => byte_of_Z v :: le_bytes k (Z.shiftr v 8)
  end.

(** [le_value bs] is what [Uint16/32/64] reads back:
    b0 | b1<<8 | b2<<16 | ... *)
Fixpoint le_value (bs : list byte) : Z :=
  match bs with
  | [] => 0
  | b :: rest => Z.lor (Z_of_byte b) (Z.shiftl (le_value rest) 8)
  end.

(** ** Go byte slices *)

Module Slice.

(** [arr] is the backing array from the slice's first element to its
    capacity, [len] the slice's length. *)
Record t : Type := mk { arr : list byte; len : nat }.

Definition cap (s : t) : nat := length (arr s).

(** A slice without spare capacity. *)
Definition of_list (l : list byte) : t := mk l (length l).

(** The elements of the slice. *)
Definition to_list (s : t) : list byte := take (len s) (arr s).

Definition wf (s : t) : Prop := (len s <= cap s)%nat.

(** [s[i]] *)
Definition index (s : t) (i : Z) : outcome byte :=
  if (0 <=? i) && (i <? Z.of_nat (len s)) then
    match arr s !! Z.to_nat i with
    | Some b => Done b
    | None => Panic
    end
  else Panic.

(** [s[lo:]] *)
Definition from (s : t) (lo : Z) : outcome t :=
  if (0 <=? lo) && (lo <=? Z.of_nat (len s)) then
    Done (mk (drop (Z.to_nat lo) (arr s)) (len s - Z.to_nat lo))
  else Panic.

(** [s[lo:hi]]: the upper bound is checked against the capacity. *)
Definition sub (s : t) (lo hi : Z) : outcome t :=
  if (0 <=? lo) && (lo <=? hi) && (hi <=? Z.of_nat (cap s)) then
    Done (mk (drop (Z.to_nat lo) (arr s)) (Z.to_nat hi - Z.to_nat lo))
  else Panic.

(** [binary.LittleEndian.UintN(s)] for N = 8*w: the early bounds check
    [_ = b[w-1]] panics on a short slice. *)
Definition Uint (w : nat) (s : t) : outcome Z :=
  if (w <=? len s)%nat then Done (le_value (take w (arr s))) else Panic.

(** [binary.LittleEndian.PutUintN(s, v)] *)
Definition PutUint (w : nat) (s : list byte) (off : nat) (v : Z) : outcome (list byte) :=
  if (off + w <=? length s)%nat then
    Done (take off s ++ le_bytes w v ++ drop (off + w) s)
  else Panic.

(** [copy(buf[lo:hi], src)]: copies min(hi - lo, len(src)) elements. *)
Definition copy (buf : list byte) (lo hi : nat) (src : list byte) : outcome (list byte) :=
  if (lo <=? hi)%nat && (hi <=? length buf)%nat then
    let k := Nat.min (hi - lo) (length src) in
    Done (take lo buf ++ take k src ++ drop (lo + k) buf)
  else Panic.

(** [buf[i] = b] *)
Definition set (buf : list byte) (i : nat) (b : byte) : outcome (list byte) :=
  if (i <? length buf)%nat then Done (<[i:=b]> buf) else Panic.

(** [make([]byte, n)] *)
Definition make (n : nat) : list byte := replicate n "000"%byte.

End Slice.

(** ** Wire records *)

Definition idLen : Z := 8.

Definition EntryType : Type := byte.
Definition EntryNormal : EntryType := "000"%byte.
Definition EntrySnapshot : EntryType := "001"%byte.
Definition EntryPeerState : EntryType := "002"%byte.
Definition EntryAddPeer : EntryType := "003"%byte.
Definition EntryRemovePeer : EntryType := "004"%byte.
Definition EntryLeaderTransfer : EntryType := "005"%byte.

(** [Data] is a slice: a decoded entry's data shares the message's backing
    array. *)
Record Entry : Type := mkEntry { Typ : EntryType; Data : Slice.t }.

Record appendEntry : Type := mkAE {
  ae_leader : string;
  ae_term : Z;
  ae_commit : Z;
  ae_pterm : Z;
  ae_pindex : Z;
  ae_entries : list Entry;
  (* internal use only *)
  ae_reply : string;
  ae_buf : option (list byte)
}.

Record appendEntryResponse : Type := mkAR {
  ar_term : Z;
  ar_index : Z;
  ar_peer : string;
  ar_success : bool;
  (* internal *)
  ar_reply : string
}.

Record voteRequest : Type := mkVReq {
  vr_term : Z;
  vr_lastTerm : Z;
  vr_lastIndex : Z;
  vr_candidate : string;
  (* internal only *)
  vr_reply : string
}.

Record voteResponse : Type := mkVResp {
  vresp_term : Z;
  vresp_peer : string;
  vresp_granted : bool
}.

Record peerState : Type := mkPS {
  knownPeers : list string;
  clusterSize : Z
}.

Definition str_bytes (s : string) : list byte := list_byte_of_string s.
Definition bytes_str (l : list byte) : string := string_of_list_byte l.
Definition strlen (s : string) : Z := Z.of_nat (String.length s).

(** ** Append-entry codec *)

Definition appendEntryBaseLen : Z := idLen + 4 * 8 + 2.

(** First loop of [appendEntry.encode]: the room the entries need. *)
Definition entries_len (es : list Entry) : nat :=
  fold_left (fun elen e => (elen + (Slice.len (Data e) + 1 + 4))%nat) es 0%nat.

(** Second loop of [appendEntry.encode]: writes each entry at [wi]. *)
Fixpoint encode_entries (es : list Entry) (buf : list byte) (wi : nat)
  : outcome (list byte * nat) :=
  match es with
  | [] => Done (buf, wi)
  | e :: rest =>
      buf ← Slice.PutUint 4 buf wi ((Z.of_nat (Slice.len (Data e)) + 1) mod 2 ^ 32);
      let wi := (wi + 4)%nat in
      buf ← Slice.set buf wi (Typ e);
      let wi := (wi + 1)%nat in
      buf ← Slice.copy buf wi (length buf) (Slice.to_list (Data e));
      let wi := (wi + Slice.len (Data e))%nat in
      encode_entries rest buf wi
  end.

Definition appendEntry_encode (ae : appendEntry) : outcome (list byte) :=
  let elen := entries_len (ae_entries ae) in
  let buf := Slice.make (Z.to_nat appendEntryBaseLen + elen) in
  buf ← Slice.copy buf 0 (Z.to_nat idLen) (str_bytes (ae_leader ae));
  buf ← Slice.PutUint 8 buf 8 (ae_term ae);
  buf ← Slice.PutUint 8 buf 16 (ae_commit ae);
  buf ← Slice.PutUint 8 buf 24 (ae_pterm ae);
  buf ← Slice.PutUint 8 buf 32 (ae_pindex ae);
  buf ← Slice.PutUint 2 buf 40 (Z.of_nat (length (ae_entries ae)) mod 2 ^ 16);
  '(buf, wi) ← encode_entries (ae_entries ae) buf 42;
  if (wi <=? length buf)%nat then Done (take wi buf) else Panic.

(** The entry loop of [decodeAppendEntry]; [cnt] counts the iterations
    left ([ne - i]). *)
Fixpoint decode_entries (cnt : nat) (msg : Slice.t) (ri : Z) (acc : list Entry)
  : outcome (list Entry) :=
  match cnt with
  | O => Done acc
  | S k =>
      le ← Slice.from msg ri ≫= Slice.Uint 4;
      let ri := ri + 4 in
      etype ← Slice.index msg ri;
      d ← Slice.sub msg (ri + 1) (ri + le);
      decode_entries k msg (ri + le) (acc ++ [mkEntry etype d])
  end.

(** [decodeAppendEntry]: [Done None] is the nil result. *)
Definition decodeAppendEntry (msg : Slice.t) (reply : string)
  : outcome (option appendEntry) :=
  if Z.of_nat (Slice.len msg) <? appendEntryBaseLen then Done None
  else
    l ← Slice.sub msg 0 idLen;
    t ← Slice.from msg 8 ≫= Slice.Uint 8;
    c ← Slice.from msg 16 ≫= Slice.Uint 8;
    pt ← Slice.from msg 24 ≫= Slice.Uint 8;
    pi ← Slice.from msg 32 ≫= Slice.Uint 8;
    ne ← Slice.from msg 40 ≫= Slice.Uint 2;
    es ← decode_entries (Z.to_nat ne) msg 42 [];
    Done (Some {| ae_leader := bytes_str (Slice.to_list l);
                  ae_term := t; ae_commit := c; ae_pterm := pt; ae_pindex := pi;
                  ae_entries := es;
                  ae_reply := reply;
                  ae_buf := Some (Slice.to_list msg) |}).

(** ** Append-entry-response codec *)

Definition appendEntryResponseLen : Z := 24 + 1.

Definition appendEntryResponse_encode (ar : appendEntryResponse) : outcome (list byte) :=
  let buf := Slice.make (Z.to_nat appendEntryResponseLen) in
  buf ← Slice.PutUint 8 buf 0 (ar_term ar);
  buf ← Slice.PutUint 8 buf 8 (ar_index ar);
  buf ← Slice.copy buf 16 (length buf) (str_bytes (ar_peer ar));
  buf ← (if ar_success ar then Slice.set buf 24 "001"%byte
         else Slice.set buf 24 "000"%byte);
  Done (take (Z.to_nat appendEntryResponseLen) buf).

Definition decodeAppendEntryResponse (msg : Slice.t) : outcome (option appendEntryResponse) :=
  if negb (Z.of_nat (Slice.len msg) =? appendEntryResponseLen) then Done None
  else
    t ← Slice.from msg 0 ≫= Slice.Uint 8;
    i ← Slice.from msg 8 ≫= Slice.Uint 8;
    p ← Slice.sub msg 16 (16 + idLen);
    b ← Slice.index msg 24;
    Done (Some {| ar_term := t; ar_index := i;
                  ar_peer := bytes_str (Slice.to_list p);
                  ar_success := Byte.eqb b "001"%byte;
                  ar_reply := EmptyString |}).

(** ** Vote-request codec *)

Definition voteRequestLen : Z := 24 + idLen.

Definition voteRequest_encode (vr : voteRequest) : outcome (list byte) :=
  let buf := Slice.make (Z.to_nat voteRequestLen) in
  buf ← Slice.PutUint 8 buf 0 (vr_term vr);
  buf ← Slice.PutUint 8 buf 8 (vr_lastTerm vr);
  buf ← Slice.PutUint 8 buf 16 (vr_lastIndex vr);
  buf ← Slice.copy buf 24 (24 + Z.to_nat idLen) (str_bytes (vr_candidate vr));
  Done (take (Z.to_nat voteRequestLen) buf).

(** [decodeVoteRequest] first copies the message
    ([append(msg[:0:0], msg...)]), so the copy has the message's length. *)
Definition decodeVoteRequest (msg : Slice.t) (reply : string) : outcome (option voteRequest) :=
  if negb (Z.of_nat (Slice.len msg) =? voteRequestLen) then Done None
  else
    let msg := Slice.of_list (Slice.to_list msg) in
    t ← Slice.from msg 0 ≫= Slice.Uint 8;
    lt ← Slice.from msg 8 ≫= Slice.Uint 8;
    li ← Slice.from msg 16 ≫= Slice.Uint 8;
    c ← Slice.sub msg 24 (24 + idLen);
    Done (Some {| vr_term := t; vr_lastTerm := lt; vr_lastIndex := li;
                  vr_candidate := bytes_str (Slice.to_list c);
                  vr_reply := reply |}).

(** ** Vote-response codec *)

Definition voteResponseLen : Z := 8 + 8 + 1.

Definition voteResponse_encode (vr : voteResponse) : outcome (list byte) :=
  let buf := Slice.make (Z.to_nat voteResponseLen) in
  buf ← Slice.PutUint 8 buf 0 (vresp_term vr);
  buf ← Slice.copy buf 8 (length buf) (str_bytes (vresp_peer vr));
  buf ← (if vresp_granted vr then Slice.set buf 16 "001"%byte
         else Slice.set buf 16 "000"%byte);
  Done (take (Z.to_nat voteResponseLen) buf).

Definition decodeVoteResponse (msg : Slice.t) : outcome (option voteResponse) :=
  if negb (Z.of_nat (Slice.len msg) =? voteResponseLen) then Done None
  else
    t ← Slice.from msg 0 ≫= Slice.Uint 8;
    p ← Slice.sub msg 8 16;
    b ← Slice.index msg 16;
    Done (Some {| vresp_term := t;
                  vresp_peer := bytes_str (Slice.to_list p);
                  vresp_granted := Byte.eqb b "001"%byte |}).

(** ** Errors *)

Inductive error : Type :=
| errProposalFailed
| errProposalsPaused
| errNotLeader
| errAlreadyLeader
| errNotCurrent
| errNilCfg
| errUnknownPeer
| errCorruptPeers
| errStepdownFailed
| errPeersNotCurrent
| errFailedToApply
| errEntryLoadFailed
| errClusterTooSmall      (* errors.New("raft: cluster too small") *)
| errNoFile               (* the error of ioutil.ReadFile *)
| ErrNoSysAccount
| ErrStoreClosed
| ErrStoreEOF
| errStore.               (* any other error of the log *)

#[global] Instance error_eq_dec : EqDecision error.
Proof. solve_decision. Defined.

(** ** Peer-state codec *)

(** The loop of [encodePeerState]. *)
Fixpoint encode_peers (ps : list string) (buf : list byte) (wi : nat) : outcome (list byte) :=
  match ps with
  | [] => Done buf
  | peer :: rest =>
      buf ← Slice.copy buf wi (length buf) (str_bytes peer);
      encode_peers rest buf (wi + Z.to_nat idLen)%nat
  end.

Definition encodePeerState (ps : peerState) : outcome (list byte) :=
  let buf := Slice.make (4 + 4 + 8 * length (knownPeers ps)) in
  buf ← Slice.PutUint 4 buf 0 (clusterSize ps mod 2 ^ 32);
  buf ← Slice.PutUint 4 buf 4 (Z.of_nat (length (knownPeers ps)) mod 2 ^ 32);
  encode_peers (knownPeers ps) buf 8.

(** The loop of [decodePeerState],
    [for i, ri, n := 0, 0, expectedPeers; i < n && ri < len(buf); i++].
    Every iteration moves [ri] forward by [idLen], so [len(buf)]
    iterations are never exceeded; [fuel] bounds them. *)
Fixpoint decode_peers (fuel : nat) (buf : Slice.t) (i ri n : Z) (acc : list string)
  : outcome (list string) :=
  match fuel with
  | O => Done acc
  | S k =>
      if (i <? n) && (ri <? Z.of_nat (Slice.len buf)) then
        p ← Slice.sub buf ri (ri + idLen);
        decode_peers k buf (i + 1) (ri + idLen) n (acc ++ [bytes_str (Slice.to_list p)])
      else Done acc
  end.

Definition decodePeerState (buf : Slice.t) : outcome (error + peerState) :=
  if Z.of_nat (Slice.len buf) <? 8 then Done (inl errCorruptPeers)
  else
    csz ← Slice.from buf 0 ≫= Slice.Uint 4;
    expectedPeers ← Slice.from buf 4 ≫= Slice.Uint 4;
    buf ← Slice.from buf 8;
    peers ← decode_peers (S (Slice.len buf)) buf 0 0 expectedPeers [];
    if negb (Z.of_nat (length peers) =? expectedPeers) then Done (inl errCorruptPeers)
    else Done (inr {| knownPeers := peers; clusterSize := csz |}).

(** ** The log (interface [WAL]) *)

Record StreamState : Type := mkStreamState {
  Msgs : Z;
  Bytes : Z;
  FirstSeq : Z;
  LastSeq : Z
}.

(** The methods of the [WAL] interface the node calls. *)
Class WAL (W : Type) : Type := {
  StoreMsg : W -> list byte -> (error + Z) * W;
  LoadMsg : W -> Z -> error + Slice.t;
  WCompact : W -> Z -> (error + Z) * W;
  WState : W -> StreamState
}.

(** Modelled from the spec: the contract of the log (section 6), an
    in-memory store of sequential records.  [Store] appends at the next
    index, [Load] returns the stored record or fails, [Compact(index)]
    discards the records at [index] and below. *)
Record memWAL : Type := mkMemWAL {
  mw_recs : gmap Z (list byte);
  mw_first : Z;
  mw_last : Z
}.

Definition mw_store (w : memWAL) (msg : list byte) : (error + Z) * memWAL :=
  let seq := mw_last w + 1 in
  (inr seq,
   {| mw_recs := <[seq := msg]> (mw_recs w);
      mw_first := if mw_last w <? mw_first w then seq else mw_first w;
      mw_last := seq |}).

Definition mw_load (w : memWAL) (index : Z) : error + Slice.t :=
  match mw_recs w !! index with
  | Some msg => inr (Slice.of_list msg)
  | None => inl ErrStoreEOF
  end.

Definition mw_compact (w : memWAL) (index : Z) : (error + Z) * memWAL :=
  let kept := filter (fun kv => (index <? fst kv) = true) (mw_recs w) in
  (inr (Z.of_nat (size (mw_recs w)) - Z.of_nat (size kept)),
   {| mw_recs := kept;
      mw_first := Z.max (mw_first w) (index + 1);
      mw_last := mw_last w |}).

Definition mw_state (w : memWAL) : StreamState :=
  {| Msgs := Z.of_nat (size (mw_recs w));
     Bytes := map_fold (fun _ msg acc => acc + Z.of_nat (length msg)) 0 (mw_recs w);
     FirstSeq := mw_first w;
     LastSeq := mw_last w |}.

#[global] Instance memWAL_WAL : WAL memWAL := {
  StoreMsg := mw_store;
  LoadMsg := mw_load;
  WCompact := mw_compact;
  WState := mw_state
}.

Definition memWAL_empty : memWAL := {| mw_recs := ∅; mw_first := 1; mw_last := 0 |}.

(** ** Node state *)

Inductive RaftState : Type :=
| Follower
| Leader
| Candidate
| Observer
| Closed.

#[global] Instance RaftState_eq_dec : EqDecision RaftState.
Proof. solve_decision. Defined.

(** [lps] holds peer state of last time and last index replicated. *)
Record lps : Type := mkLps { ts : Z; li : Z }.

(** A subscription is known by the id the host gave it. *)
Definition subscription : Type := nat.

Record catchupState : Type := mkCatchup {
  cs_sub : option subscription;
  cterm : Z;
  cindex : Z;
  cs_pterm : Z;
  cs_pindex : Z;
  hbs : Z
}.

Record CommittedEntry : Type := mkCommitted {
  Index : Z;
  Entries : list Entry
}.

Record pubMsg : Type := mkPub {
  pm_subject : string;
  pm_reply : string;
  pm_msg : list byte
}.

(** Subjects for votes, updates, replays. *)
Record subjects : Type := mkSubjects {
  psubj : string;
  vsubj : string;
  vreply : string;
  asubj : string;
  areply : string
}.

(** What the node reads from and leaves with its host: the clock
    ([time.Now().UnixNano()]), the draws of [math/rand], the two files
    of the store directory ([peers.idx], [tav.idx]) and the internal
    subscriptions. *)
Record hostState : Type := mkHost {
  clock : Z;
  rnd : list Z;
  peerStateFile : option (list byte);
  termVoteFile : option (list byte);
  subs : gmap nat string;
  next_sid : nat;
  clusterName : string
}.

Definition set_clock (v : Z) (h : hostState) : hostState :=
  {| clock := v; rnd := rnd h; peerStateFile := peerStateFile h; termVoteFile :=
     termVoteFile h; subs := subs h; next_sid := next_sid h; clusterName := clusterName h |}.

Definition set_rnd (v : list Z) (h : hostState) : hostState :=
  {| clock := clock h; rnd := v; peerStateFile := peerStateFile h; termVoteFile :=
     termVoteFile h; subs := subs h; next_sid := next_sid h; clusterName := clusterName h |}.

Definition set_peerStateFile (v : option (list byte)) (h : hostState) : hostState :=
  {| clock := clock h; rnd := rnd h; peerStateFile := v; termVoteFile := termVoteFile h;
     subs := subs h; next_sid := next_sid h; clusterName := clusterName h |}.

Definition set_termVoteFile (v : option (list byte)) (h : hostState) : hostState :=
  {| clock := clock h; rnd := rnd h; peerStateFile := peerStateFile h; termVoteFile := v;
     subs := subs h; next_sid := next_sid h; clusterName := clusterName h |}.

Definition set_subs (v : gmap nat string) (h : hostState) : hostState :=
  {| clock := clock h; rnd := rnd h; peerStateFile := peerStateFile h; termVoteFile :=
     termVoteFile h; subs := v; next_sid := next_sid h; clusterName := clusterName h |}.

Definition set_next_sid (v : nat) (h : hostState) : hostState :=
  {| clock := clock h; rnd := rnd h; peerStateFile := peerStateFile h; termVoteFile :=
     termVoteFile h; subs := subs h; next_sid := v; clusterName := clusterName h |}.

Definition set_clusterName (v : string) (h : hostState) : hostState :=
  {| clock := clock h; rnd := rnd h; peerStateFile := peerStateFile h; termVoteFile :=
     termVoteFile h; subs := subs h; next_sid := next_sid h; clusterName := v |}.

Section Node.

Context {W : Type} {walOps : WAL W}.

(** The constants of [newInbox] are declared outside this file. *)
Variable digits : list byte.
Variable base : Z.
Variable replySuffixLen : nat.

(** The fields of [raft] the modelled functions use.  A channel is the
    queue of the values it holds, oldest first. *)
Record raft : Type := mkRaft {
  id : string;
  group : string;
  state : RaftState;
  csz : Z;
  qn : Z;
  peers : gmap string lps;
  acks : gmap Z (gset string);
  elect : option Z;
  active : Z;
  term : Z;
  pterm : Z;
  pindex : Z;
  sindex : Z;
  commit : Z;
  applied : Z;
  leader : string;
  vote : string;
  subj : subjects;
  catchup : option catchupState;
  progress : gmap string (list Z);
  paused : bool;
  hcommit : Z;
  propc : list Entry;
  applyc : list (option CommittedEntry);
  applyc_cap : Z;
  sendq : list pubMsg;
  reqs : list voteRequest;
  votes : list voteResponse;
  resp : list (option appendEntryResponse);
  leadc : list bool;
  stepdown : list string;
  wal : W;
  host : hostState
}.

Definition set_id (v : string) (n : raft) : raft :=
  {| id := v; group := group n; state := state n; csz := csz n; qn := qn n; peers := peers
     n; acks := acks n; elect := elect n; active := active n; term := term n; pterm := pterm
     n; pindex := pindex n; sindex := sindex n; commit := commit n; applied := applied n;
     leader := leader n; vote := vote n; subj := subj n; catchup := catchup n; progress :=
     progress n; paused := paused n; hcommit := hcommit n; propc := propc n; applyc :=
     applyc n; applyc_cap := applyc_cap n; sendq := sendq n; reqs := reqs n; votes := votes
     n; resp := resp n; leadc := leadc n; stepdown := stepdown n; wal := wal n; host := host
     n |}.

Definition set_group (v : string) (n : raft) : raft :=
  {| id := id n; group := v; state := state n; csz := csz n; qn := qn n; peers := peers n;
     acks := acks n; elect := elect n; active := active n; term := term n; pterm := pterm n;
     pindex := pindex n; sindex := sindex n; commit := commit n; applied := applied n;
     leader := leader n; vote := vote n; subj := subj n; catchup := catchup n; progress :=
     progress n; paused := paused n; hcommit := hcommit n; propc := propc n; applyc :=
     applyc n; applyc_cap := applyc_cap n; sendq := sendq n; reqs := reqs n; votes := votes
     n; resp := resp n; leadc := leadc n; stepdown := stepdown n; wal := wal n; host := host
     n |}.

Definition set_state (v : RaftState) (n : raft) : raft :=
  {| id := id n; group := group n; state := v; csz := csz n; qn := qn n; peers := peers n;
     acks := acks n; elect := elect n; active := active n; term := term n; pterm := pterm n;
     pindex := pindex n; sindex := sindex n; commit := commit n; applied := applied n;
     leader := leader n; vote := vote n; subj := subj n; catchup := catchup n; progress :=
     progress n; paused := paused n; hcommit := hcommit n; propc := propc n; applyc :=
     applyc n; applyc_cap := applyc_cap n; sendq := sendq n; reqs := reqs n; votes := votes
     n; resp := resp n; leadc := leadc n; stepdown := stepdown n; wal := wal n; host := host
     n |}.

Definition set_csz (v : Z) (n : raft) : raft :=
  {| id := id n; group := group n; state := state n; csz := v; qn := qn n; peers := peers n;
     acks := acks n; elect := elect n; active := active n; term := term n; pterm := pterm n;
     pindex := pindex n; sindex := sindex n; commit := commit n; applied := applied n;
     leader := leader n; vote := vote n; subj := subj n; catchup := catchup n; progress :=
     progress n; paused := paused n; hcommit := hcommit n; propc := propc n; applyc :=
     applyc n; applyc_cap := applyc_cap n; sendq := sendq n; reqs := reqs n; votes := votes
     n; resp := resp n; leadc := leadc n; stepdown := stepdown n; wal := wal n; host := host
     n |}.

Definition set_qn (v : Z) (n : raft) : raft :=
  {| id := id n; group := group n; state := state n; csz := csz n; qn := v; peers := peers
     n; acks := acks n; elect := elect n; active := active n; term := term n; pterm := pterm
     n; pindex := pindex n; sindex := sindex n; commit := commit n; applied := applied n;
     leader := leader n; vote := vote n; subj := subj n; catchup := catchup n; progress :=
     progress n; paused := paused n; hcommit := hcommit n; propc := propc n; applyc :=
     applyc n; applyc_cap := applyc_cap n; sendq := sendq n; reqs := reqs n; votes := votes
     n; resp := resp n; leadc := leadc n; stepdown := stepdown n; wal := wal n; host := host
     n |}.

Definition set_peers (v : gmap string lps) (n : raft) : raft :=
  {| id := id n; group := group n; state := state n; csz := csz n; qn := qn n; peers := v;
     acks := acks n; elect := elect n; active := active n; term := term n; pterm := pterm n;
     pindex := pindex n; sindex := sindex n; commit := commit n; applied := applied n;
     leader := leader n; vote := vote n; subj := subj n; catchup := catchup n; progress :=
     progress n; paused := paused n; hcommit := hcommit n; propc := propc n; applyc :=
     applyc n; applyc_cap := applyc_cap n; sendq := sendq n; reqs := reqs n; votes := votes
     n; resp := resp n; leadc := leadc n; stepdown := stepdown n; wal := wal n; host := host
     n |}.

Definition set_acks (v : gmap Z (gset string)) (n : raft) : raft :=
  {| id := id n; group := group n; state := state n; csz := csz n; qn := qn n; peers :=
     peers n; acks := v; elect := elect n; active := active n; term := term n; pterm :=
     pterm n; pindex := pindex n; sindex := sindex n; commit := commit n; applied := applied
     n; leader := leader n; vote := vote n; subj := subj n; catchup := catchup n; progress
     := progress n; paused := paused n; hcommit := hcommit n; propc := propc n; applyc :=
     applyc n; applyc_cap := applyc_cap n; sendq := sendq n; reqs := reqs n; votes := votes
     n; resp := resp n; leadc := leadc n; stepdown := stepdown n; wal := wal n; host := host
     n |}.

Definition set_elect (v : option Z) (n : raft) : raft :=
  {| id := id n; group := group n; state := state n; csz := csz n; qn := qn n; peers :=
     peers n; acks := acks n; elect := v; active := active n; term := term n; pterm := pterm
     n; pindex := pindex n; sindex := sindex n; commit := commit n; applied := applied n;
     leader := leader n; vote := vote n; subj := subj n; catchup := catchup n; progress :=
     progress n; paused := paused n; hcommit := hcommit n; propc := propc n; applyc :=
     applyc n; applyc_cap := applyc_cap n; sendq := sendq n; reqs := reqs n; votes := votes
     n; resp := resp n; leadc := leadc n; stepdown := stepdown n; wal := wal n; host := host
     n |}.

Definition set_active (v : Z) (n : raft) : raft :=
  {| id := id n; group := group n; state := state n; csz := csz n; qn := qn n; peers :=
     peers n; acks := acks n; elect := elect n; active := v; term := term n; pterm := pterm
     n; pindex := pindex n; sindex := sindex n; commit := commit n; applied := applied n;
     leader := leader n; vote := vote n; subj := subj n; catchup := catchup n; progress :=
     progress n; paused := paused n; hcommit := hcommit n; propc := propc n; applyc :=
     applyc n; applyc_cap := applyc_cap n; sendq := sendq n; reqs := reqs n; votes := votes
     n; resp := resp n; leadc := leadc n; stepdown := stepdown n; wal := wal n; host := host
     n |}.

Definition set_term (v : Z) (n : raft) : raft :=
  {| id := id n; group := group n; state := state n; csz := csz n; qn := qn n; peers :=
     peers n; acks := acks n; elect := elect n; active := active n; term := v; pterm :=
     pterm n; pindex := pindex n; sindex := sindex n; commit := commit n; applied := applied
     n; leader := leader n; vote := vote n; subj := subj n; catchup := catchup n; progress
     := progress n; paused := paused n; hcommit := hcommit n; propc := propc n; applyc :=
     applyc n; applyc_cap := applyc_cap n; sendq := sendq n; reqs := reqs n; votes := votes
     n; resp := resp n; leadc := leadc n; stepdown := stepdown n; wal := wal n; host := host
     n |}.

Definition set_pterm (v : Z) (n : raft) : raft :=
  {| id := id n; group := group n; state := state n; csz := csz n; qn := qn n; peers :=
     peers n; acks := acks n; elect := elect n; active := active n; term := term n; pterm :=
     v; pindex := pindex n; sindex := sindex n; commit := commit n; applied := applied n;
     leader := leader n; vote := vote n; subj := subj n; catchup := catchup n; progress :=
     progress n; paused := paused n; hcommit := hcommit n; propc := propc n; applyc :=
     applyc n; applyc_cap := applyc_cap n; sendq := sendq n; reqs := reqs n; votes := votes
     n; resp := resp n; leadc := leadc n; stepdown := stepdown n; wal := wal n; host := host
     n |}.

Definition set_pindex (v : Z) (n : raft) : raft :=
  {| id := id n; group := group n; state := state n; csz := csz n; qn := qn n; peers :=
     peers n; acks := acks n; elect := elect n; active := active n; term := term n; pterm :=
     pterm n; pindex := v; sindex := sindex n; commit := commit n; applied := applied n;
     leader := leader n; vote := vote n; subj := subj n; catchup := catchup n; progress :=
     progress n; paused := paused n; hcommit := hcommit n; propc := propc n; applyc :=
     applyc n; applyc_cap := applyc_cap n; sendq := sendq n; reqs := reqs n; votes := votes
     n; resp := resp n; leadc := leadc n; stepdown := stepdown n; wal := wal n; host := host
     n |}.

Definition set_sindex (v : Z) (n : raft) : raft :=
  {| id := id n; group := group n; state := state n; csz := csz n; qn := qn n; peers :=
     peers n; acks := acks n; elect := elect n; active := active n; term := term n; pterm :=
     pterm n; pindex := pindex n; sindex := v; commit := commit n; applied := applied n;
     leader := leader n; vote := vote n; subj := subj n; catchup := catchup n; progress :=
     progress n; paused := paused n; hcommit := hcommit n; propc := propc n; applyc :=
     applyc n; applyc_cap := applyc_cap n; sendq := sendq n; reqs := reqs n; votes := votes
     n; resp := resp n; leadc := leadc n; stepdown := stepdown n; wal := wal n; host := host
     n |}.

Definition set_commit (v : Z) (n : raft) : raft :=
  {| id := id n; group := group n; state := state n; csz := csz n; qn := qn n; peers :=
     peers n; acks := acks n; elect := elect n; active := active n; term := term n; pterm :=
     pterm n; pindex := pindex n; sindex := sindex n; commit := v; applied := applied n;
     leader := leader n; vote := vote n; subj := subj n; catchup := catchup n; progress :=
     progress n; paused := paused n; hcommit := hcommit n; propc := propc n; applyc :=
     applyc n; applyc_cap := applyc_cap n; sendq := sendq n; reqs := reqs n; votes := votes
     n; resp := resp n; leadc := leadc n; stepdown := stepdown n; wal := wal n; host := host
     n |}.

Definition set_applied (v : Z) (n : raft) : raft :=
  {| id := id n; group := group n; state := state n; csz := csz n; qn := qn n; peers :=
     peers n; acks := acks n; elect := elect n; active := active n; term := term n; pterm :=
     pterm n; pindex := pindex n; sindex := sindex n; commit := commit n; applied := v;
     leader := leader n; vote := vote n; subj := subj n; catchup := catchup n; progress :=
     progress n; paused := paused n; hcommit := hcommit n; propc := propc n; applyc :=
     applyc n; applyc_cap := applyc_cap n; sendq := sendq n; reqs := reqs n; votes := votes
     n; resp := resp n; leadc := leadc n; stepdown := stepdown n; wal := wal n; host := host
     n |}.

Definition set_leader (v : string) (n : raft) : raft :=
  {| id := id n; group := group n; state := state n; csz := csz n; qn := qn n; peers :=
     peers n; acks := acks n; elect := elect n; active := active n; term := term n; pterm :=
     pterm n; pindex := pindex n; sindex := sindex n; commit := commit n; applied := applied
     n; leader := v; vote := vote n; subj := subj n; catchup := catchup n; progress :=
     progress n; paused := paused n; hcommit := hcommit n; propc := propc n; applyc :=
     applyc n; applyc_cap := applyc_cap n; sendq := sendq n; reqs := reqs n; votes := votes
     n; resp := resp n; leadc := leadc n; stepdown := stepdown n; wal := wal n; host := host
     n |}.

Definition set_vote (v : string) (n : raft) : raft :=
  {| id := id n; group := group n; state := state n; csz := csz n; qn := qn n; peers :=
     peers n; acks := acks n; elect := elect n; active := active n; term := term n; pterm :=
     pterm n; pindex := pindex n; sindex := sindex n; commit := commit n; applied := applied
     n; leader := leader n; vote := v; subj := subj n; catchup := catchup n; progress :=
     progress n; paused := paused n; hcommit := hcommit n; propc := propc n; applyc :=
     applyc n; applyc_cap := applyc_cap n; sendq := sendq n; reqs := reqs n; votes := votes
     n; resp := resp n; leadc := leadc n; stepdown := stepdown n; wal := wal n; host := host
     n |}.

Definition set_subj (v : subjects) (n : raft) : raft :=
  {| id := id n; group := group n; state := state n; csz := csz n; qn := qn n; peers :=
     peers n; acks := acks n; elect := elect n; active := active n; term := term n; pterm :=
     pterm n; pindex := pindex n; sindex := sindex n; commit := commit n; applied := applied
     n; leader := leader n; vote := vote n; subj := v; catchup := catchup n; progress :=
     progress n; paused := paused n; hcommit := hcommit n; propc := propc n; applyc :=
     applyc n; applyc_cap := applyc_cap n; sendq := sendq n; reqs := reqs n; votes := votes
     n; resp := resp n; leadc := leadc n; stepdown := stepdown n; wal := wal n; host := host
     n |}.

Definition set_catchup (v : option catchupState) (n : raft) : raft :=
  {| id := id n; group := group n; state := state n; csz := csz n; qn := qn n; peers :=
     peers n; acks := acks n; elect := elect n; active := active n; term := term n; pterm :=
     pterm n; pindex := pindex n; sindex := sindex n; commit := commit n; applied := applied
     n; leader := leader n; vote := vote n; subj := subj n; catchup := v; progress :=
     progress n; paused := paused n; hcommit := hcommit n; propc := propc n; applyc :=
     applyc n; applyc_cap := applyc_cap n; sendq := sendq n; reqs := reqs n; votes := votes
     n; resp := resp n; leadc := leadc n; stepdown := stepdown n; wal := wal n; host := host
     n |}.

Definition set_progress (v : gmap string (list Z)) (n : raft) : raft :=
  {| id := id n; group := group n; state := state n; csz := csz n; qn := qn n; peers :=
     peers n; acks := acks n; elect := elect n; active := active n; term := term n; pterm :=
     pterm n; pindex := pindex n; sindex := sindex n; commit := commit n; applied := applied
     n; leader := leader n; vote := vote n; subj := subj n; catchup := catchup n; progress
     := v; paused := paused n; hcommit := hcommit n; propc := propc n; applyc := applyc n;
     applyc_cap := applyc_cap n; sendq := sendq n; reqs := reqs n; votes := votes n; resp :=
     resp n; leadc := leadc n; stepdown := stepdown n; wal := wal n; host := host n |}.

Definition set_paused (v : bool) (n : raft) : raft :=
  {| id := id n; group := group n; state := state n; csz := csz n; qn := qn n; peers :=
     peers n; acks := acks n; elect := elect n; active := active n; term := term n; pterm :=
     pterm n; pindex := pindex n; sindex := sindex n; commit := commit n; applied := applied
     n; leader := leader n; vote := vote n; subj := subj n; catchup := catchup n; progress
     := progress n; paused := v; hcommit := hcommit n; propc := propc n; applyc := applyc n;
     applyc_cap := applyc_cap n; sendq := sendq n; reqs := reqs n; votes := votes n; resp :=
     resp n; leadc := leadc n; stepdown := stepdown n; wal := wal n; host := host n |}.

Definition set_hcommit (v : Z) (n : raft) : raft :=
  {| id := id n; group := group n; state := state n; csz := csz n; qn := qn n; peers :=
     peers n; acks := acks n; elect := elect n; active := active n; term := term n; pterm :=
     pterm n; pindex := pindex n; sindex := sindex n; commit := commit n; applied := applied
     n; leader := leader n; vote := vote n; subj := subj n; catchup := catchup n; progress
     := progress n; paused := paused n; hcommit := v; propc := propc n; applyc := applyc n;
     applyc_cap := applyc_cap n; sendq := sendq n; reqs := reqs n; votes := votes n; resp :=
     resp n; leadc := leadc n; stepdown := stepdown n; wal := wal n; host := host n |}.

Definition set_propc (v : list Entry) (n : raft) : raft :=
  {| id := id n; group := group n; state := state n; csz := csz n; qn := qn n; peers :=
     peers n; acks := acks n; elect := elect n; active := active n; term := term n; pterm :=
     pterm n; pindex := pindex n; sindex := sindex n; commit := commit n; applied := applied
     n; leader := leader n; vote := vote n; subj := subj n; catchup := catchup n; progress
     := progress n; paused := paused n; hcommit := hcommit n; propc := v; applyc := applyc
     n; applyc_cap := applyc_cap n; sendq := sendq n; reqs := reqs n; votes := votes n; resp
     := resp n; leadc := leadc n; stepdown := stepdown n; wal := wal n; host := host n |}.

Definition set_applyc (v : list (option CommittedEntry)) (n : raft) : raft :=
  {| id := id n; group := group n; state := state n; csz := csz n; qn := qn n; peers :=
     peers n; acks := acks n; elect := elect n; active := active n; term := term n; pterm :=
     pterm n; pindex := pindex n; sindex := sindex n; commit := commit n; applied := applied
     n; leader := leader n; vote := vote n; subj := subj n; catchup := catchup n; progress
     := progress n; paused := paused n; hcommit := hcommit n; propc := propc n; applyc := v;
     applyc_cap := applyc_cap n; sendq := sendq n; reqs := reqs n; votes := votes n; resp :=
     resp n; leadc := leadc n; stepdown := stepdown n; wal := wal n; host := host n |}.

Definition set_applyc_cap (v : Z) (n : raft) : raft :=
  {| id := id n; group := group n; state := state n; csz := csz n; qn := qn n; peers :=
     peers n; acks := acks n; elect := elect n; active := active n; term := term n; pterm :=
     pterm n; pindex := pindex n; sindex := sindex n; commit := commit n; applied := applied
     n; leader := leader n; vote := vote n; subj := subj n; catchup := catchup n; progress
     := progress n; paused := paused n; hcommit := hcommit n; propc := propc n; applyc :=
     applyc n; applyc_cap := v; sendq := sendq n; reqs := reqs n; votes := votes n; resp :=
     resp n; leadc := leadc n; stepdown := stepdown n; wal := wal n; host := host n |}.

Definition set_sendq (v : list pubMsg) (n : raft) : raft :=
  {| id := id n; group := group n; state := state n; csz := csz n; qn := qn n; peers :=
     peers n; acks := acks n; elect := elect n; active := active n; term := term n; pterm :=
     pterm n; pindex := pindex n; sindex := sindex n; commit := commit n; applied := applied
     n; leader := leader n; vote := vote n; subj := subj n; catchup := catchup n; progress
     := progress n; paused := paused n; hcommit := hcommit n; propc := propc n; applyc :=
     applyc n; applyc_cap := applyc_cap n; sendq := v; reqs := reqs n; votes := votes n;
     resp := resp n; leadc := leadc n; stepdown := stepdown n; wal := wal n; host := host n
     |}.

Definition set_reqs (v : list voteRequest) (n : raft) : raft :=
  {| id := id n; group := group n; state := state n; csz := csz n; qn := qn n; peers :=
     peers n; acks := acks n; elect := elect n; active := active n; term := term n; pterm :=
     pterm n; pindex := pindex n; sindex := sindex n; commit := commit n; applied := applied
     n; leader := leader n; vote := vote n; subj := subj n; catchup := catchup n; progress
     := progress n; paused := paused n; hcommit := hcommit n; propc := propc n; applyc :=
     applyc n; applyc_cap := applyc_cap n; sendq := sendq n; reqs := v; votes := votes n;
     resp := resp n; leadc := leadc n; stepdown := stepdown n; wal := wal n; host := host n
     |}.

Definition set_votes (v : list voteResponse) (n : raft) : raft :=
  {| id := id n; group := group n; state := state n; csz := csz n; qn := qn n; peers :=
     peers n; acks := acks n; elect := elect n; active := active n; term := term n; pterm :=
     pterm n; pindex := pindex n; sindex := sindex n; commit := commit n; applied := applied
     n; leader := leader n; vote := vote n; subj := subj n; catchup := catchup n; progress
     := progress n; paused := paused n; hcommit := hcommit n; propc := propc n; applyc :=
     applyc n; applyc_cap := applyc_cap n; sendq := sendq n; reqs := reqs n; votes := v;
     resp := resp n; leadc := leadc n; stepdown := stepdown n; wal := wal n; host := host n
     |}.

Definition set_resp (v : list (option appendEntryResponse)) (n : raft) : raft :=
  {| id := id n; group := group n; state := state n; csz := csz n; qn := qn n; peers :=
     peers n; acks := acks n; elect := elect n; active := active n; term := term n; pterm :=
     pterm n; pindex := pindex n; sindex := sindex n; commit := commit n; applied := applied
     n; leader := leader n; vote := vote n; subj := subj n; catchup := catchup n; progress
     := progress n; paused := paused n; hcommit := hcommit n; propc := propc n; applyc :=
     applyc n; applyc_cap := applyc_cap n; sendq := sendq n; reqs := reqs n; votes := votes
     n; resp := v; leadc := leadc n; stepdown := stepdown n; wal := wal n; host := host n |}.

Definition set_leadc (v : list bool) (n : raft) : raft :=
  {| id := id n; group := group n; state := state n; csz := csz n; qn := qn n; peers :=
     peers n; acks := acks n; elect := elect n; active := active n; term := term n; pterm :=
     pterm n; pindex := pindex n; sindex := sindex n; commit := commit n; applied := applied
     n; leader := leader n; vote := vote n; subj := subj n; catchup := catchup n; progress
     := progress n; paused := paused n; hcommit := hcommit n; propc := propc n; applyc :=
     applyc n; applyc_cap := applyc_cap n; sendq := sendq n; reqs := reqs n; votes := votes
     n; resp := resp n; leadc := v; stepdown := stepdown n; wal := wal n; host := host n |}.

Definition set_stepdown (v : list string) (n : raft) : raft :=
  {| id := id n; group := group n; state := state n; csz := csz n; qn := qn n; peers :=
     peers n; acks := acks n; elect := elect n; active := active n; term := term n; pterm :=
     pterm n; pindex := pindex n; sindex := sindex n; commit := commit n; applied := applied
     n; leader := leader n; vote := vote n; subj := subj n; catchup := catchup n; progress
     := progress n; paused := paused n; hcommit := hcommit n; propc := propc n; applyc :=
     applyc n; applyc_cap := applyc_cap n; sendq := sendq n; reqs := reqs n; votes := votes
     n; resp := resp n; leadc := leadc n; stepdown := v; wal := wal n; host := host n |}.

Definition set_wal (v : W) (n : raft) : raft :=
  {| id := id n; group := group n; state := state n; csz := csz n; qn := qn n; peers :=
     peers n; acks := acks n; elect := elect n; active := active n; term := term n; pterm :=
     pterm n; pindex := pindex n; sindex := sindex n; commit := commit n; applied := applied
     n; leader := leader n; vote := vote n; subj := subj n; catchup := catchup n; progress
     := progress n; paused := paused n; hcommit := hcommit n; propc := propc n; applyc :=
     applyc n; applyc_cap := applyc_cap n; sendq := sendq n; reqs := reqs n; votes := votes
     n; resp := resp n; leadc := leadc n; stepdown := stepdown n; wal := v; host := host n
     |}.

Definition set_host (v : hostState) (n : raft) : raft :=
  {| id := id n; group := group n; state := state n; csz := csz n; qn := qn n; peers :=
     peers n; acks := acks n; elect := elect n; active := active n; term := term n; pterm :=
     pterm n; pindex := pindex n; sindex := sindex n; commit := commit n; applied := applied
     n; leader := leader n; vote := vote n; subj := subj n; catchup := catchup n; progress
     := progress n; paused := paused n; hcommit := hcommit n; propc := propc n; applyc :=
     applyc n; applyc_cap := applyc_cap n; sendq := sendq n; reqs := reqs n; votes := votes
     n; resp := resp n; leadc := leadc n; stepdown := stepdown n; wal := wal n; host := v |}.

Definition wrap64 (z : Z) : Z := z mod 2 ^ 64.

(** [int] is 64 bits wide. *)
Definition wrapInt (z : Z) : Z := (z + 2 ^ 63) mod 2 ^ 64 - 2 ^ 63.

Definition noLeader : string := EmptyString.
Definition noVote : string := EmptyString.

Definition millisecond : Z := 1000000.
Definition minElectionTimeout : Z := 300 * millisecond.
Definition maxElectionTimeout : Z := 3 * minElectionTimeout.
Definition minCampaignTimeout : Z := 50 * millisecond.
Definition maxCampaignTimeout : Z := 4 * minCampaignTimeout.
Definition hbInterval : Z := 200 * millisecond.
Definition lostQuorumInterval : Z := hbInterval * 3.

(** [time.Now().UnixNano()] *)
Definition now (n : raft) : Z := clock (host n).

(** [rand.Int63()] and [rand.Int63n(k)]: the next draw of the host. *)
Definition Int63 (n : raft) : Z * raft :=
  match rnd (host n) with
  | [] => (0, n)
  | r :: rest => (r mod 2 ^ 63, set_host (set_rnd rest (host n)) n)
  end.

Definition Int63n (k : Z) (n : raft) : Z * raft :=
  let '(r, n) := Int63 n in (r mod k, n).

(** A channel of capacity [cap] holding [c] takes no further value. *)
Definition chan_full {A} (c : list A) (cap : Z) : bool := cap <=? Z.of_nat (length c).

(** [ioutil.ReadFile] hands back the content in a buffer that was
    allocated larger than the file (by [bytes.MinRead]). *)
Definition ReadFile (content : list byte) : Slice.t :=
  Slice.mk (content ++ replicate 512 "000"%byte) (length content).

(** *** Timers *)

Definition randCampaignTimeout (n : raft) : Z * raft :=
  let '(delta, n) := Int63n (maxCampaignTimeout - minCampaignTimeout) n in
  (minCampaignTimeout + delta, n).

Definition randElectionTimeout (n : raft) : Z * raft :=
  let '(delta, n) := Int63n (maxElectionTimeout - minElectionTimeout) n in
  (minElectionTimeout + delta, n).

(** [resetElect]: whether the timer is created or stopped, drained and
    reset, it ends up armed with [et]. *)
Definition resetElect (et : Z) (n : raft) : raft := set_elect (Some et) n.

Definition resetElectionTimeout (n : raft) : raft :=
  let '(et, n) := randElectionTimeout n in resetElect et n.

(** *** The two files *)

Definition peerNames (n : raft) : list string := (map_to_list (peers n)).*1.

Definition writePeerState (ps : peerState) (n : raft) : outcome raft :=
  buf ← encodePeerState ps;
  Done (set_host (set_peerStateFile (Some buf) (host n)) n).

Definition readPeerState (n : hostState) : outcome (error + peerState) :=
  match peerStateFile n with
  | None => Done (inl errNoFile)
  | Some buf => decodePeerState (ReadFile buf)
  end.

Definition termVoteLen : Z := idLen + 8.

(** [readTermVote] returns (term, voted, err). *)
Definition readTermVote (n : raft) : outcome (Z * string * option error) :=
  match termVoteFile (host n) with
  | None => Done (0, noVote, Some errNoFile)
  | Some content =>
      let buf := ReadFile content in
      if Z.of_nat (Slice.len buf) <? termVoteLen then Done (0, noVote, None)
      else
        term ← Slice.from buf 0 ≫= Slice.Uint 8;
        voted ← Slice.from buf 8;
        Done (term, bytes_str (Slice.to_list voted), None)
  end.

(** [writeTermVote]: [buf[:8+len(n.vote)]] is taken from a 16-byte array. *)
Definition writeTermVote (n : raft) : outcome raft :=
  let buf := Slice.make (Z.to_nat termVoteLen) in
  buf ← Slice.PutUint 8 buf 0 (term n);
  buf ← Slice.copy buf 8 (length buf) (str_bytes (vote n));
  out ← Slice.sub (Slice.of_list buf) 0 (8 + strlen (vote n));
  Done (set_host (set_termVoteFile (Some (Slice.to_list out)) (host n)) n).

(** *** Subjects, subscriptions and sends *)

(** [sendRPC] and [sendReply] put a message on the server's send queue. *)
Definition sendRPC (subject reply : string) (msg : list byte) (n : raft) : raft :=
  set_sendq (sendq n ++ [mkPub subject reply msg]) n.

Definition sendReply (subject : string) (msg : list byte) (n : raft) : raft :=
  set_sendq (sendq n ++ [mkPub subject EmptyString msg]) n.

(** [subscribe]: the host registers the subject and hands back a fresh
    subscription. *)
Definition subscribe (subject : string) (n : raft) : subscription * raft :=
  let h := host n in
  let sid := next_sid h in
  (sid, set_host (set_next_sid (S sid) (set_subs (<[sid := subject]> (subs h)) h)) n).

Definition sysUnsubscribe (sub : option subscription) (n : raft) : raft :=
  match sub with
  | Some sid => set_host (set_subs (delete sid (subs (host n))) (host n)) n
  | None => n
  end.

(** The loop of [newInbox]: [b[i] = digits[l%base]; l /= base]. *)
Fixpoint inbox_digits (k : nat) (l : Z) : outcome (list byte) :=
  match k with
  | O => Done []
  | S k' =>
      match digits !! Z.to_nat (Z.rem l base) with
      | Some d => rest ← inbox_digits k' (Z.quot l base); Done (d :: rest)
      | None => Panic
      end
  end.

Definition newInbox (n : raft) : outcome (string * raft) :=
  let '(rn, n) := Int63 n in
  b ← inbox_digits replySuffixLen rn;
  Done (("$NRG.R." ++ bytes_str b)%string, n).

Definition createInternalSubs (n : raft) : outcome raft :=
  let cn := clusterName (host n) in
  '(vr, n) ← newInbox n;
  '(ar, n) ← newInbox n;
  let n := set_subj {| psubj := ("$NRG.P." ++ group n)%string;
                       vsubj := ("$NRG.V." ++ cn ++ "." ++ group n)%string;
                       vreply := vr;
                       asubj := ("$NRG.E." ++ cn ++ "." ++ group n)%string;
                       areply := ar |} n in
  (* Votes *)
  let '(_, n) := subscribe (vreply (subj n)) n in
  let '(_, n) := subscribe (vsubj (subj n)) n in
  (* AppendEntry *)
  let '(_, n) := subscribe (areply (subj n)) n in
  let '(_, n) := subscribe (asubj (subj n)) n in
  Done n.

(** *** Role changes *)

(** [updateLeadChange]: a [select] between sending on [leadc] (capacity
    4) and receiving from it; when both can proceed the runtime picks
    one, which is a draw of the host. *)
Definition updateLeadChange (isLeader : bool) (n : raft) : raft :=
  let can_send := negb (chan_full (leadc n) 4) in
  let can_recv := (0 <? length (leadc n))%nat in
  let '(pick_send, n) :=
    if can_send && can_recv then let '(r, n) := Int63 n in (Z.even r, n)
    else (can_send, n) in
  if pick_send then set_leadc (leadc n ++ [isLeader]) n
  else
    (* We had an old value not consumed. *)
    let rest := tail (leadc n) in
    if chan_full rest 4 then set_leadc rest n
    else set_leadc (rest ++ [isLeader]) n.

Definition switchState (st : RaftState) (n : raft) : outcome raft :=
  if decide (state n = Closed) then Done n
  else
    (* Reset the election timer. *)
    let n := resetElectionTimeout n in
    let n :=
      if bool_decide (state n = Leader) && negb (bool_decide (st = Leader)) then
        updateLeadChange false n
      else if bool_decide (st = Leader) && negb (bool_decide (state n = Leader)) then
        updateLeadChange true n
      else n in
    let n := set_state st n in
    let n := set_vote noVote n in
    writeTermVote n.

(** The loop of [lostQuorumLocked] over the peers. *)
Fixpoint lostQuorum_loop (ps : list (string * lps)) (tnow nc q : Z) : bool :=
  match ps with
  | [] => true
  | (_, peer) :: rest =>
      if wrapInt (tnow - ts peer) <? lostQuorumInterval then
        let nc := nc + 1 in
        if q <=? nc then false else lostQuorum_loop rest tnow nc q
      else lostQuorum_loop rest tnow nc q
  end.

Definition lostQuorumLocked (n : raft) : bool :=
  lostQuorum_loop (map_to_list (peers n)) (now n) 1 (qn n).

Definition switchToFollower (ldr : string) (n : raft) : outcome raft :=
  let n := set_leader ldr n in
  switchState Follower n.

Definition switchToCandidate (n : raft) : outcome raft :=
  let n :=
    if decide (state n = Candidate) then
      (if lostQuorumLocked n then
         (* We signal to the upper layers such that can alert on quorum lost. *)
         updateLeadChange false n
       else n)
    else n in
  (* Increment the term. *)
  let n := set_term (wrap64 (term n + 1)) n in
  (* Clear current Leader. *)
  let n := set_leader noLeader n in
  switchState Candidate n.

Definition switchToLeader (n : raft) : outcome raft :=
  let n := set_leader (id n) n in
  switchState Leader n.

(** [attemptStepDown]: a send on [stepdown] (capacity 4) that is dropped
    when the channel is full. *)
Definition attemptStepDown (newLeader : string) (n : raft) : raft :=
  if chan_full (stepdown n) 4 then n
  else set_stepdown (stepdown n ++ [newLeader]) n.

Definition campaign (n : raft) : option error * raft :=
  if decide (state n = Leader) then (Some errAlreadyLeader, n)
  else
    let '(et, n) := randCampaignTimeout n in
    (None, resetElect et n).

(** *** Appending to the log *)

Definition buildAppendEntry (entries : list Entry) (n : raft) : appendEntry :=
  mkAE (id n) (term n) (commit n) (pterm n) (pindex n) entries EmptyString None.

Definition ae_set_buf (buf : option (list byte)) (ae : appendEntry) : appendEntry :=
  mkAE (ae_leader ae) (ae_term ae) (ae_commit ae) (ae_pterm ae) (ae_pindex ae)
       (ae_entries ae) (ae_reply ae) buf.

(** [storeToWAL] returns the error of the log, and panics on a nil
    buffer or when the entry lands at the wrong index. *)
Definition storeToWAL (ae : appendEntry) (n : raft) : outcome (option error * raft) :=
  match ae_buf ae with
  | None => Panic
  | Some buf =>
      let '(r, w) := StoreMsg (wal n) buf in
      let n := set_wal w n in
      match r with
      | inl err => Done (Some err, n)
      | inr seq =>
          (* Sanity checking for now. *)
          if negb (ae_pindex ae =? wrap64 (seq - 1)) then Panic
          else Done (None, set_pindex seq (set_pterm (ae_term ae) n))
      end
  end.

(** The snapshot scan of [sendAppendEntry]. *)
Definition mark_snapshots (entries : list Entry) (n : raft) : raft :=
  fold_left (fun n e => if Byte.eqb (Typ e) EntrySnapshot then set_sindex (pindex n) n else n)
            entries n.

Definition sendAppendEntry (entries : list Entry) (n : raft) : outcome raft :=
  let ae := buildAppendEntry entries n in
  buf ← appendEntry_encode ae;
  let ae := ae_set_buf (Some buf) ae in
  (* If we have entries store this in our wal. *)
  n ← (if (0 <? length entries)%nat then
         '(err, n) ← storeToWAL ae n;
         match err with
         | Some _ => Panic
         | None =>
             (* We count ourselves. *)
             let n := set_acks (<[pindex n := {[ id n ]}]> (acks n)) n in
             (* Check for snapshot *)
             let n := mark_snapshots entries n in
             Done (set_active (now n) n)
         end
       else Done n);
  Done (sendRPC (asubj (subj n)) (areply (subj n)) buf n).

Definition currentPeerState (n : raft) : peerState :=
  {| knownPeers := peerNames n; clusterSize := csz n |}.

Definition sendPeerState (n : raft) : outcome raft :=
  data ← encodePeerState (currentPeerState n);
  sendAppendEntry [mkEntry EntryPeerState (Slice.of_list data)] n.

Definition sendHeartbeat (n : raft) : outcome raft := sendAppendEntry [] n.

(** [trackPeer]: track interactions with this peer. *)
Definition trackPeer (peer : string) (n : raft) : outcome (option error * raft) :=
  let unknown := bool_decide (state n = Leader) && bool_decide (peers n !! peer = None) in
  if unknown && (csz n <=? Z.of_nat (size (peers n))) then Done (Some errUnknownPeer, n)
  else
    let needPeerUpdate := unknown in
    let n :=
      match peers n !! peer with
      | Some ps => set_peers (<[peer := mkLps (now n) (li ps)]> (peers n)) n
      | None => set_peers (<[peer := mkLps (now n) 0]> (peers n)) n
      end in
    n ← (if needPeerUpdate then sendPeerState n else Done n);
    Done (None, n).

(** *** Committing and applying *)

(** [loadEntry] returns (ae, err); the entry is nil when the stored
    record is too short to decode. *)
Definition loadEntry (index : Z) (n : raft) : outcome (error + option appendEntry) :=
  match LoadMsg (wal n) index with
  | inl err => Done (inl err)
  | inr msg => ae ← decodeAppendEntry msg EmptyString; Done (inr ae)
  end.

Definition loadFirstEntry (n : raft) : outcome (error + option appendEntry) :=
  loadEntry (FirstSeq (WState (wal n))) n.

(** [processPeerState]: update our version of peers to that of the leader. *)
Definition processPeerState (ps : peerState) (n : raft) : outcome raft :=
  let n := set_csz (clusterSize ps) n in
  let n := set_peers (fold_left (fun m peer => <[peer := mkLps 0 0]> m) (knownPeers ps) ∅) n in
  writePeerState ps n.

(** The loop of [applyCommit] over the entries of the stored message;
    [committed] collects what goes to the upper layers. *)
Fixpoint apply_entries (es : list Entry) (committed : list Entry) (n : raft)
  : outcome (list Entry * raft) :=
  match es with
  | [] => Done (committed, n)
  | e :: rest =>
      if Byte.eqb (Typ e) EntryNormal then apply_entries rest (committed ++ [e]) n
      else if Byte.eqb (Typ e) EntrySnapshot then apply_entries rest (committed ++ [e]) n
      else if Byte.eqb (Typ e) EntryPeerState then
        r ← decodePeerState (Data e);
        n ← (match r with
             | inr ps => processPeerState ps n
             | inl _ => Done n
             end);
        apply_entries rest committed n
      else if Byte.eqb (Typ e) EntryAddPeer then
        let newPeer := bytes_str (Slice.to_list (Data e)) in
        let n :=
          match peers n !! newPeer with
          | None =>
              (* We are not tracking this one automatically so we need to
                 bump cluster size. *)
              let n := set_csz (wrapInt (csz n + 1)) n in
              let n := set_qn (wrapInt (Z.quot (csz n) 2 + 1)) n in
              set_peers (<[newPeer := mkLps (now n) 0]> (peers n)) n
          | Some _ => n
          end in
        n ← writePeerState {| knownPeers := peerNames n; clusterSize := csz n |} n;
        apply_entries rest committed n
      else apply_entries rest committed n
  end.

(** [applyCommit] will update our commit index and apply the entry to
    the apply chan. *)
Definition applyCommit (index : Z) (n : raft) : outcome (option error * raft) :=
  if index <=? commit n then Done (None, n)
  else
    let original := commit n in
    let n := set_commit index n in
    let n := if bool_decide (state n = Leader) then set_acks (delete index (acks n)) n else n in
    r ← loadEntry index n;
    match r with
    | inl _ => Done (Some errEntryLoadFailed, set_commit original n)
    | inr None => Panic
    | inr (Some ae) =>
        '(committed, n) ← apply_entries (ae_entries ae) [] n;
        (* Pass to the upper layers if we have normal entries. *)
        if (0 <? length committed)%nat then
          if chan_full (applyc n) (applyc_cap n) then
            Done (Some errFailedToApply, set_commit original n)
          else
            Done (None, set_applyc (applyc n ++ [Some (mkCommitted index committed)]) n)
        else
          (* If we processed inline update our applied index. *)
          Done (None, set_applied index n)
    end.

(** [for index := ...; index <= hi; index++ { if err := n.applyCommit(index);
    err != nil { break } }] with [cnt] iterations left. *)
Fixpoint apply_range (cnt : nat) (index : Z) (n : raft) : outcome raft :=
  match cnt with
  | O => Done n
  | S k =>
      '(err, n) ← applyCommit index n;
      match err with
      | Some _ => Done n
      | None => apply_range k (wrap64 (index + 1)) n
      end
  end.

(** The loop from [n.commit + 1] through [hi], for [hi] below 2^64 - 1. *)
Definition apply_upto (hi : Z) (n : raft) : outcome raft :=
  apply_range (Z.to_nat (hi - commit n)) (wrap64 (commit n + 1)) n.

(** [trackResponse]: used to track a success response and apply entries.
    The send on a catch-up channel waits for room when the channel is
    full, so the index reaches the channel in either case. *)
Definition trackResponse (ar : appendEntryResponse) (n : raft) : outcome raft :=
  (* Update peer's last index. *)
  let n :=
    match peers n !! ar_peer ar with
    | Some ps =>
        if li ps <? ar_index ar
        then set_peers (<[ar_peer ar := mkLps (ts ps) (ar_index ar)]> (peers n)) n
        else n
    | None => n
    end in
  (* If we are tracking this peer as a catchup follower, update that here. *)
  let n :=
    match progress n !! ar_peer ar with
    | Some indexUpdateC =>
        set_progress (<[ar_peer ar := indexUpdateC ++ [ar_index ar]]> (progress n)) n
    | None => n
    end in
  (* Ignore items already committed. *)
  if ar_index ar <=? commit n then Done n
  else
    (* See if we have items to apply. *)
    match acks n !! ar_index ar with
    | Some results =>
        let results := results ∪ {[ ar_peer ar ]} in
        let n := set_acks (<[ar_index ar := results]> (acks n)) n in
        if qn n <=? Z.of_nat (size results) then
          (* We have a quorum. *)
          n ← apply_upto (ar_index ar) n;
          let sendHB := (length (propc n) =? 0)%nat in
          if sendHB then sendHeartbeat n else Done n
        else Done n
    | None => Done n
    end.

(** *** Pausing, resuming, compacting *)

Definition PauseApply (n : raft) : raft :=
  let n := set_paused true n in
  set_hcommit (commit n) n.

Definition ResumeApply (n : raft) : outcome raft :=
  (* Run catchup.. *)
  n ← (if commit n <? hcommit n then apply_upto (hcommit n) n else Done n);
  let n := set_paused false n in
  Done (set_hcommit 0 n).

(** [Compact] will compact our WAL; only the first branch calls the log. *)
Definition Compact (index : Z) (n : raft) : option error * raft :=
  (* If we are not the leader compact at will. *)
  if negb (bool_decide (state n = Leader)) then
    let '(r, w) := WCompact (wal n) index in
    (match r with inl err => Some err | inr _ => None end, set_wal w n)
  else
    (* We are the leader so we need to make sure all peers are at least
       up to this index. *)
    if existsb (fun kv => negb (bool_decide (fst kv = id n)) && (li (snd kv) <? index))
               (map_to_list (peers n))
    then (Some errPeersNotCurrent, n)
    else (None, n).

(** [Applied] is to be called when the FSM has applied the committed entries. *)
Definition Applied (index : Z) (n : raft) : raft :=
  if index <=? applied n then n
  else
    let n := set_applied index n in
    if index =? sindex n then set_wal (snd (WCompact (wal n) index)) n else n.

(** *** Votes *)

(** The part of [processVoteRequest] that runs once the request is known
    not to be of an older term: the response and the state. *)
Definition castVote (vr : voteRequest) (vresp : voteResponse) (n : raft)
  : outcome (voteResponse * raft) :=
  (* If this is a higher term go ahead and stepdown. *)
  n ← (if term n <? vr_term vr then
         let n := set_term (vr_term vr) n in
         let n := set_vote noVote n in
         n ← writeTermVote n;
         Done (if bool_decide (state n = Candidate) then attemptStepDown noLeader n else n)
       else Done n);
  (* Only way we get to yes is through here. *)
  if ((pindex n <=? vr_lastIndex vr) && bool_decide (vote n = noVote))
     || bool_decide (vote n = vr_candidate vr) then
    let vresp := mkVResp (vresp_term vresp) (vresp_peer vresp) true in
    let n := set_vote (vr_candidate vr) n in
    n ← writeTermVote n;
    let n := resetElectionTimeout n in
    Done (vresp, n)
  else Done (vresp, n).

Definition processVoteRequest (vr : voteRequest) (n : raft) : outcome (option error * raft) :=
  let vresp := mkVResp (term n) (id n) false in
  '(err, n) ← trackPeer (vr_candidate vr) n;
  match err with
  | Some e =>
      buf ← voteResponse_encode vresp;
      Done (Some e, sendReply (vr_reply vr) buf n)
  | None =>
      (* Ignore if we are newer. *)
      if vr_term vr <? term n then
        buf ← voteResponse_encode vresp;
        Done (None, sendReply (vr_reply vr) buf n)
      else
        '(vresp, n) ← castVote vr vresp n;
        buf ← voteResponse_encode vresp;
        Done (None, sendReply (vr_reply vr) buf n)
  end.

Definition requestVote (n : raft) : outcome raft :=
  if negb (bool_decide (state n = Candidate)) then Panic
  else
    let n := set_vote (id n) n in
    n ← writeTermVote n;
    let vr := mkVReq (term n) (pterm n) (pindex n) (id n) EmptyString in
    buf ← voteRequest_encode vr;
    Done (sendRPC (vsubj (subj n)) (vreply (subj n)) buf n).

Definition quorumNeeded (n : raft) : Z := qn n.

Definition wonElection (votes : Z) (n : raft) : bool := quorumNeeded n <=? votes.

(** *** Processing an append entry *)

(** [cancelCatchup], called with a catch-up in place. *)
Definition cancelCatchup (n : raft) : raft :=
  let n := sysUnsubscribe (catchup n ≫= cs_sub) n in
  set_catchup None n.

(** [catchupStalled] will try to determine if we are stalled. *)
Definition catchupStalled (n : raft) : bool * raft :=
  match catchup n with
  | None => (false, n)
  | Some cs =>
      let cs :=
        if cs_pindex cs =? pindex n
        then mkCatchup (cs_sub cs) (cterm cs) (cindex cs) (cs_pterm cs) (cs_pindex cs)
                       (wrapInt (hbs cs + 1))
        else mkCatchup (cs_sub cs) (cterm cs) (cindex cs) (cs_pterm cs) (pindex n) 0 in
      (3 <=? hbs cs, set_catchup (Some cs) n)
  end.

Definition createCatchup (ae : appendEntry) (n : raft) : outcome (string * raft) :=
  (* Cleanup any old ones. *)
  let n := sysUnsubscribe (catchup n ≫= cs_sub) n in
  (* Snapshot term and index. *)
  let cs := mkCatchup None (ae_pterm ae) (ae_pindex ae) (pterm n) (pindex n) 0 in
  let n := set_catchup (Some cs) n in
  '(inbox, n) ← newInbox n;
  let '(sub, n) := subscribe inbox n in
  let n := set_catchup (Some (mkCatchup (Some sub) (cterm cs) (cindex cs)
                                        (cs_pterm cs) (cs_pindex cs) (hbs cs))) n in
  Done (inbox, n).

(** Track the peer directly: refresh its time or start its record. *)
Definition touchPeer (peer : string) (n : raft) : raft :=
  match peers n !! peer with
  | Some ps => set_peers (<[peer := mkLps (now n) (li ps)]> (peers n)) n
  | None => set_peers (<[peer := mkLps (now n) 0]> (peers n)) n
  end.

(** The scan of [processAppendEntry] for entries with an effect at store
    time. *)
Fixpoint related_entries (es : list Entry) (isNew : bool) (ae : appendEntry) (n : raft) : raft :=
  match es with
  | [] => n
  | e :: rest =>
      let n :=
        if Byte.eqb (Typ e) EntryLeaderTransfer then
          (if isNew && bool_decide (bytes_str (Slice.to_list (Data e)) = id n)
           then snd (campaign n) else n)
        else if Byte.eqb (Typ e) EntryAddPeer then
          (let newPeer := bytes_str (Slice.to_list (Data e)) in
           if strlen newPeer =? idLen then touchPeer newPeer n else n)
        else if Byte.eqb (Typ e) EntrySnapshot then
          (if sindex n <? wrap64 (ae_pindex ae + 1)
           then set_sindex (wrap64 (ae_pindex ae + 1)) n else n)
        else n in
      related_entries rest isNew ae n
  end.

(** The tail of [processAppendEntry]: store, scan, apply and answer. *)
Definition acceptAppendEntry (ae : appendEntry) (sub : option subscription)
    (isNew : bool) (n : raft) : outcome raft :=
  (* Save to our WAL if we have entries. *)
  '(closed, n) ← (if (0 <? length (ae_entries ae))%nat then
         '(closed, n) ← (match sub with
              | Some _ =>
                  (* Only store if an original which will have sub != nil *)
                  '(err, n) ← storeToWAL ae n;
                  Done (bool_decide (err = Some ErrStoreClosed), n)
              | None =>
                  (* This is a replay on startup so just take the appendEntry version. *)
                  Done (false, set_pindex (wrap64 (ae_pindex ae + 1)) (set_pterm (ae_term ae) n))
              end : outcome (bool * raft));
         if (closed : bool) then Done (true, n)
         else Done (false, related_entries (ae_entries ae) isNew ae n)
       else Done (false, n) : outcome (bool * raft));
  if (closed : bool) then Done n
  else
    (* Apply anything we need here. *)
    n ← (if commit n <? ae_commit ae then
           if paused n then Done (set_hcommit (ae_commit ae) n)
           else apply_upto (ae_commit ae) n
         else Done n);
    let ar := mkAR (pterm n) (pindex n) (id n) true EmptyString in
    (* Success. Send our response. *)
    buf ← appendEntryResponse_encode ar;
    Done (sendRPC (ae_reply ae) EmptyString buf n).

Definition processAppendEntry (ae : appendEntry) (sub : option subscription) (n : raft)
  : outcome raft :=
  (* Just return if closed. *)
  if bool_decide (state n = Closed) then Done n
  else
    (* If we received an append entry as a candidate we should convert to a follower. *)
    n ← (if bool_decide (state n = Candidate) then
           let n := set_term (ae_term ae) n in
           let n := set_vote noVote n in
           n ← writeTermVote n;
           Done (attemptStepDown (ae_leader ae) n)
         else Done n);
    (* Catching up state. *)
    let catchingUp := bool_decide (catchup n ≠ None) in
    (* Is this a new entry or a replay on startup? *)
    let isNew := bool_decide (sub ≠ None)
                 && (negb catchingUp || negb (bool_decide (sub = (catchup n ≫= cs_sub)))) in
    let n :=
      if isNew then
        let n := resetElectionTimeout n in
        (* Track leader directly *)
        if negb (bool_decide (ae_leader ae = noLeader)) then touchPeer (ae_leader ae) n else n
      else n in
    (* Ignore old terms. *)
    if isNew && (ae_term ae <? term n) then Done n
    else
      (* Check state if we are catching up. *)
      let caught :=
        match catchup n with
        | Some cs => (cterm cs <=? pterm n) && (cindex cs <=? pindex n)
        | None => false
        end in
      if catchingUp && isNew && negb caught then
        (* Check to see if we are stalled. If so recreate our catchup
           state and resend response. *)
        let '(stalled, n) := catchupStalled n in
        if stalled then
          '(inbox, n) ← createCatchup ae n;
          let ar := mkAR (pterm n) (pindex n) (id n) false EmptyString in
          buf ← appendEntryResponse_encode ar;
          Done (sendRPC (ae_reply ae) inbox buf n)
        else
          (* Ignore new while catching up or replaying. *)
          Done n
      else
        let '(catchingUp, n) :=
          if catchingUp && isNew then (false, cancelCatchup n) else (catchingUp, n) in
        (* If this term is greater than ours. *)
        n ← (if term n <? ae_term ae then
               let n := set_term (ae_term ae) n in
               let n := set_vote noVote n in
               n ← writeTermVote n;
               Done (if negb (bool_decide (state n = Follower))
                     then attemptStepDown (ae_leader ae) n else n)
             else Done n);
        n ← (if negb (bool_decide (leader n = ae_leader ae)) && bool_decide (state n = Follower) then
               let n := set_leader (ae_leader ae) n in
               let n := set_vote noVote n in
               n ← writeTermVote n;
               Done (if isNew then updateLeadChange false (resetElectionTimeout n) else n)
             else Done n);
        if negb (ae_pterm ae =? pterm n) || negb (ae_pindex ae =? pindex n) then
          (* Check if we are catching up and this is a snapshot, if so
             reset our wal's index. *)
          if catchingUp
             && match ae_entries ae with
                | e :: _ => Byte.eqb (Typ e) EntrySnapshot
                | [] => false
                end
          then
            let n := set_wal (snd (WCompact (wal n) (wrap64 (ae_pindex ae + 1)))) n in
            let n := set_pindex (ae_pindex ae) n in
            let n := set_commit (ae_pindex ae) n in
            acceptAppendEntry ae sub isNew n
          else
            (* Reset our term. *)
            let n := set_term (pterm n) n in
            (* Setup our state for catching up. *)
            '(inbox, n) ← createCatchup ae n;
            let ar := mkAR (pterm n) (pindex n) (id n) false EmptyString in
            buf ← appendEntryResponse_encode ar;
            Done (sendRPC (ae_reply ae) inbox buf n)
        else acceptAppendEntry ae sub isNew n.

(** *** Handlers of the wire *)

(** [handleAppendEntry] handles an append entry from the wire. *)
Definition handleAppendEntry (sub : option subscription) (reply : string)
    (msg : Slice.t) (n : raft) : outcome raft :=
  ae ← decodeAppendEntry msg reply;
  match ae with
  | None => Done n
  | Some ae => processAppendEntry ae sub n
  end.

(** [handleAppendEntryResponse] just places the decoded response on the
    appropriate channel ([resp], capacity 256); it writes the reply
    into the response before looking at it. *)
Definition handleAppendEntryResponse (reply : string) (msg : Slice.t) (n : raft)
  : outcome raft :=
  aer ← decodeAppendEntryResponse msg;
  aer ← (if negb (bool_decide (reply = EmptyString)) then
           match aer with
           | None => Panic
           | Some a => Done (Some (mkAR (ar_term a) (ar_index a) (ar_peer a) (ar_success a) reply))
           end
         else Done aer);
  if chan_full (resp n) 256 then Done n
  else Done (set_resp (resp n ++ [aer]) n).

Definition handleVoteResponse (msg : Slice.t) (n : raft) : outcome raft :=
  vr ← decodeVoteResponse msg;
  match vr with
  | None => Done n
  | Some vr =>
      if chan_full (votes n) 8 then Done n
      else Done (set_votes (votes n ++ [vr]) n)
  end.

Definition handleVoteRequest (reply : string) (msg : Slice.t) (n : raft) : outcome raft :=
  vr ← decodeVoteRequest msg reply;
  match vr with
  | None => Done n
  | Some vr =>
      if chan_full (reqs n) 4 then Done n
      else Done (set_reqs (reqs n ++ [vr]) n)
  end.

(** *** The candidate loop *)

(** One receive of the loop's [select], with the value received.  The
    channels are fed by the handlers, which run on other goroutines. *)
Inductive candEvent : Type :=
| EvQuit
| EvElect
| EvVote (vresp : voteResponse)
| EvReq (vreq : voteRequest)
| EvStepdown (newLeader : string).

(** The [for] loop of [runAsCandidate].  The result carries [None] once
    the function has returned, and the tally while it still waits. *)
Fixpoint candidate_loop (evs : list candEvent) (tally : Z) (n : raft)
  : outcome (option Z * raft) :=
  match evs with
  | [] => Done (Some tally, n)
  | EvQuit :: _ => Done (None, n)
  | EvElect :: _ => n ← switchToCandidate n; Done (None, n)
  | EvVote vresp :: rest =>
      '(_, n) ← trackPeer (vresp_peer vresp) n;
      if vresp_granted vresp && (vresp_term vresp <=? term n) then
        let tally := wrapInt (tally + 1) in
        if wonElection tally n then
          (* Become LEADER if we have won. *)
          n ← switchToLeader n; Done (None, n)
        else candidate_loop rest tally n
      else candidate_loop rest tally n
  | EvReq vreq :: rest =>
      '(_, n) ← processVoteRequest vreq n;
      candidate_loop rest tally n
  | EvStepdown newLeader :: _ => n ← switchToFollower newLeader n; Done (None, n)
  end.

Definition runAsCandidate (evs : list candEvent) (n : raft) : outcome (option Z * raft) :=
  (* Drain old responses. *)
  let n := set_votes [] n in
  (* Send out our request for votes. *)
  n ← requestVote n;
  (* We vote for ourselves. *)
  candidate_loop evs 1 n.

(** *** Starting a node *)

Record RaftConfig : Type := mkConfig { Name : string; Log : W }.

(** The replay loop of [startRaftNode]. *)
Fixpoint replay (cnt : nat) (index : Z) (n : raft) : outcome raft :=
  match cnt with
  | O => Done n
  | S k =>
      r ← loadEntry index n;
      match r with
      | inl _ => Panic
      | inr None => if bool_decide (state n = Closed) then replay k (wrap64 (index + 1)) n else Panic
      | inr (Some ae) =>
          n ← processAppendEntry ae None n;
          replay k (wrap64 (index + 1)) n
      end
  end.

(** [startRaftNode]: [hasSys] tells whether the server has its system
    account and send queue, [hash] is the server's hash; the store
    directory is the host's pair of files. *)
Definition startRaftNode (hasSys : bool) (hash : string) (cfg : option RaftConfig)
    (h : hostState) : outcome (error + raft) :=
  match cfg with
  | None => Done (inl errNilCfg)
  | Some cfg =>
      if negb hasSys then Done (inl ErrNoSysAccount)
      else
        r ← readPeerState h;
        match r with
        | inl err => Done (inl err)
        | inr ps =>
            if clusterSize ps <? 2 then Done (inl errClusterTooSmall)
            else
              nid ← Slice.sub (Slice.of_list (str_bytes hash)) 0 idLen;
              let n :=
                {| id := bytes_str (Slice.to_list nid); group := Name cfg;
                   state := Follower;
                   csz := clusterSize ps; qn := wrapInt (Z.quot (clusterSize ps) 2 + 1);
                   peers := ∅; acks := ∅; elect := None; active := 0;
                   term := 0; pterm := 0; pindex := 0; sindex := 0; commit := 0; applied := 0;
                   leader := EmptyString; vote := EmptyString;
                   subj := mkSubjects EmptyString EmptyString EmptyString EmptyString EmptyString;
                   catchup := None; progress := ∅; paused := false; hcommit := 0;
                   propc := []; applyc := []; applyc_cap := 512; sendq := [];
                   reqs := []; votes := []; resp := []; leadc := []; stepdown := [];
                   wal := Log cfg; host := h |} in
              '(tm, vt, err) ← readTermVote n;
              let n :=
                if negb (bool_decide (err = None)) && (0 <? tm)
                then set_vote vt (set_term tm n) else n in
              let st := WState (wal n) in
              n ← (if 0 <? Msgs st then
                     first ← loadFirstEntry n;
                     n ← (match first with
                          | inr (Some first) =>
                              let n := set_pindex (ae_pindex first) (set_pterm (ae_pterm first) n) in
                              Done (if 0 <? ae_commit first then set_commit (ae_commit first) n else n)
                          | inr None => Panic
                          | inl _ => Done n
                          end);
                     (* Replay the log. *)
                     let needed := wrap64 (Msgs st + 1) in
                     let n := if applyc_cap n <? needed then set_applyc_cap needed n else n in
                     replay (Z.to_nat (LastSeq st + 1 - FirstSeq st)) (FirstSeq st) n
                   else Done n);
              (* Send nil entry to signal the upper layers we are done doing
                 replay/restore. *)
              let n := set_applyc (applyc n ++ [None]) n in
              (* Setup our internal subscriptions. *)
              n ← createInternalSubs n;
              (* Make sure to track ourselves. *)
              '(_, n) ← trackPeer (id n) n;
              (* Track known peers *)
              let n := fold_left (fun n peer =>
                                    if negb (bool_decide (peer = id n))
                                    then set_peers (<[peer := mkLps 0 0]> (peers n)) n else n)
                                 (knownPeers ps) n in
              let n := resetElectionTimeout n in
              Done (inr n)
        end
  end.

End Node.

(** * The API of a node, the server's registry, the follower and leader loops *)

(** [RaftState.String]. *)
Definition RaftState_String (st : RaftState) : string :=
  match st with
  | Follower => "FOLLOWER"
  | Candidate => "CANDIDATE"
  | Leader => "LEADER"
  | Observer => "OBSERVER"
  | Closed => "CLOSED"
  end.

(** ** The server's table of nodes

    [s.raftNodes] is a map from group names to nodes that is nil until
    the first registration; [N] stands for the references it holds. *)
Section Registry.

Variable N : Type.

Definition registerRaftNode (group : string) (n : N) (raftNodes : option (gmap string N))
  : option (gmap string N) :=
  let m := match raftNodes with
           | None => ∅
           | Some m => m
           end in
  Some (<[group := n]> m).

Definition unregisterRaftNode (group : string) (raftNodes : option (gmap string N))
  : option (gmap string N) :=
  match raftNodes with
  | Some m => Some (delete group m)
  | None => None
  end.

Definition lookupRaftNode (group : string) (raftNodes : option (gmap string N)) : option N :=
  match raftNodes with
  | Some m => m !! group
  | None => None
  end.

End Registry.

(** ** Bootstrap *)

(** The errors of the API that are built on the spot:
    [fmt.Errorf("raft: illegal peer: %q", p)] and [errors.New("no impl")]. *)
Inductive apiError : Type :=
| Err (e : error)
| errIllegalPeer (p : string)
| errNoImpl.




Section Api.

Context {W : Type} {walOps : WAL W}.
Implicit Types (n : @raft W).

(** ** Proposals *)

(** What the wait of a paused [Propose] ends on: the pause channel is
    closed, the node quits, or 422ms pass. *)
Inductive pauseWait : Type :=
| WaitResumed
| WaitQuit
| WaitTimeout.

(** [Propose]: [pausec] is [None] when [n.pausec] is nil, and else what
    the [select] on it receives. *)
Definition Propose (pausec : option pauseWait) (data : Slice.t) (n : @raft W)
  : option error * @raft W :=
  if negb (bool_decide (state n = Leader)) then (Some errNotLeader, n)
  else
    match pausec with
    | Some WaitQuit => (Some errProposalFailed, n)
    | Some WaitTimeout => (Some errProposalsPaused, n)
    | Some WaitResumed | None =>
        if chan_full (propc n) 256 then (Some errProposalFailed, n)
        else (None, set_propc (propc n ++ [mkEntry EntryNormal data]) n)
    end.




(** [ProposeAddPeer] is called to add a peer to the group. *)
Definition ProposeAddPeer (peer : string) (n : @raft W) : option error * @raft W :=
  if negb (bool_decide (state n = Leader)) then (Some errNotLeader, n)
  else if chan_full (propc n) 256 then (Some errProposalFailed, n)
  else (None, set_propc (propc n ++ [mkEntry EntryAddPeer (Slice.of_list (str_bytes peer))]) n).

(** [ProposeRemovePeer] is called to remove a peer from the group. *)
Definition ProposeRemovePeer (peer : string) (n : @raft W) : option apiError * @raft W :=
  (Some errNoImpl, n).

(** ** Status *)

(** [isCurrent]; the lock is held. *)
Definition isCurrent (n : @raft W) : bool * @raft W :=
  (* First check if we match commit and applied. *)
  if negb (commit n =? applied n) then (false, n)
  (* Make sure we are the leader or we know we have heard from the leader recently. *)
  else if bool_decide (state n = Leader) then (true, n)
  else
    (* Check here on catchup status. *)
    let n :=
      match catchup n with
      | Some cs =>
          if (cterm cs <=? pterm n) && (cindex cs <=? pindex n) then cancelCatchup n else n
      | None => n
      end in
    (* Check to see that we have heard from the current leader lately. *)
    if negb (bool_decide (leader n = noLeader)) && negb (bool_decide (leader n = id n))
       && bool_decide (catchup n = None) then
      let okInterval := hbInterval * 2 in
      let ts_ := now n in
      match peers n !! leader n with
      | Some ps =>
          if (0 <? ts ps) && (wrapInt (ts_ - ts ps) <=? okInterval) then (true, n)
          else (false, n)
      | None => (false, n)
      end
    else (false, n).


(** [Snapshot] is used to snapshot the fsm; only a leader may call it. *)
Definition Snapshot (snap : Slice.t) (n : @raft W) : option error * @raft W :=
  if negb (bool_decide (state n = Leader)) then (Some errNotLeader, n)
  else
    let '(current, n) := isCurrent n in
    if negb current then (Some errNotCurrent, n)
    else if chan_full (propc n) 256 then (Some errProposalFailed, n)
    else (None, set_propc (propc n ++ [mkEntry EntrySnapshot snap]) n).

Definition GroupLeader (n : @raft W) : string := leader n.

Definition State (n : @raft W) : RaftState := state n.

(** [Size] returns number of entries and total bytes for our WAL. *)
Definition Size (n : @raft W) : Z * Z :=
  let st := WState (wal n) in (Msgs st, Bytes st).

Definition ID (n : @raft W) : string := id n.

Definition Group (n : @raft W) : string := group n.

Definition currentTerm (n : @raft W) : Z := term n.

(** [Campaign] will have our node start a leadership vote. *)
Definition Campaign (n : @raft W) : option error * @raft W := campaign n.

Record Peer : Type := mkPeer {
  peer_ID : string;
  peer_Current : bool;
  peer_Last : Z;
  peer_Index : Z
}.

(** [Peers]: one record for each entry of [n.peers], in the order in
    which the map is visited. *)
Definition Peers (n : @raft W) : list Peer :=
  map (fun kv => mkPeer (fst kv)
                        (bool_decide (fst kv = leader n) || (applied n <=? li (snd kv)))
                        (ts (snd kv)) 0)
      (map_to_list (peers n)).

(** ** Quorum *)

(** The loop of [Quorum]. *)
Fixpoint Quorum_loop (ps : list (string * lps)) (tnow nc q : Z) : bool :=
  match ps with
  | [] => false
  | (_, peer) :: rest =>
      if wrapInt (tnow - ts peer) <? lostQuorumInterval then
        let nc := nc + 1 in
        if q <=? nc then true else Quorum_loop rest tnow nc q
      else Quorum_loop rest tnow nc q
  end.

(** [Quorum] reports the quorum status. *)
Definition Quorum (n : @raft W) : bool :=
  Quorum_loop (map_to_list (peers n)) (now n) 1 (qn n).

Definition lostQuorum (n : @raft W) : bool := lostQuorumLocked n.

(** [time.Time.Sub] saturates at the ends of [Duration]. *)
Definition saturate (z : Z) : Z := Z.max (- 2 ^ 63) (Z.min (2 ^ 63 - 1) z).

(** [notActive]: check for being not active in terms of sending entries. *)
Definition notActive (n : @raft W) : bool := hbInterval <? saturate (now n - active n).

(** ** Stepping down *)



(** ** Shutdown *)

(** What [shutdown] calls outside the node. *)
Inductive shutdownCall : Type :=
| CloseQuit
| CloseConnection
| Unregister (group : string)
| WalStop
| WalDelete.

Definition shutdown (shouldDelete : bool) (n : @raft W) : list shutdownCall * @raft W :=
  if bool_decide (state n = Closed) then ([], n)
  else
    let n := set_state Closed n in
    (* Delete our peer state and vote state. *)
    let n :=
      if shouldDelete
      then set_host (set_termVoteFile None (set_peerStateFile None (host n))) n
      else n in
    ([CloseQuit; CloseConnection; Unregister (group n);
      if shouldDelete then WalDelete else WalStop], n).

Definition Stop (n : @raft W) : list shutdownCall * @raft W := shutdown false n.

Definition Delete (n : @raft W) : list shutdownCall * @raft W := shutdown true n.

(** ** The follower loop *)

(** One receive of the loop's [select], with the value received. *)
Inductive followerEvent : Type :=
| FQuit
| FElect
| FReq (vreq : voteRequest)
| FStepdown (newLeader : string).

(** The [for] loop of [runAsFollower]; the flag tells whether the
    function has returned. *)
Fixpoint runAsFollower (evs : list followerEvent) (n : @raft W) : outcome (bool * @raft W) :=
  match evs with
  | [] => Done (false, n)
  | FQuit :: _ => Done (true, n)
  | FElect :: _ => n ← switchToCandidate n; Done (true, n)
  | FReq vreq :: rest =>
      '(_, n) ← processVoteRequest vreq n;
      runAsFollower rest n
  | FStepdown newLeader :: _ => n ← switchToFollower newLeader n; Done (true, n)
  end.

(** ** Catching up a follower *)

(** [catchupFollower], up to the start of the goroutine: the result
    names the peer and the subject [runCatchup] is started with. *)
Definition catchupFollower (ar : appendEntryResponse) (n : @raft W)
  : outcome (option (string * string) * @raft W) :=
  match progress n !! ar_peer ar with
  | Some _ => Done (None, n)
  | None =>
      r ← loadEntry (wrap64 (ar_index ar + 1)) n;
      r ← (match r with
           | inl _ => loadFirstEntry n
           | inr _ => Done r
           end);
      match r with
      | inl _ | inr None => Done (None, n)
      | inr (Some ae) =>
          (* Create a chan for delivering updates from responses. *)
          let n := set_progress (<[ar_peer ar := [ae_pindex ae]]> (progress n)) n in
          Done (Some (ar_peer ar, ar_reply ar), n)
      end
  end.

(** ** The leader loop *)

Definition maxBatch : Z := 256 * 1024.

(** The [gather] loop: further proposals are taken from the queue [q]
    while [sz] is below [maxBatch]. *)
Fixpoint gather (q : list Entry) (sz : Z) (entries : list Entry) : list Entry * list Entry :=
  match q with
  | [] => (entries, [])
  | e :: rest =>
      if sz <? maxBatch
      then gather rest (wrapInt (sz + (Z.of_nat (Slice.len (Data e)) + 1))) (entries ++ [e])
      else (entries, q)
  end.

Inductive leaderEvent : Type :=
| LQuit
| LProp
| LTick
| LVote (vresp : voteResponse)
| LReq (vreq : voteRequest)
| LStepdown (newLeader : string)
| LResp (ar : option appendEntryResponse).

(** The [for] loop of [runAsLeader].  [LProp] is the receive from
    [n.propc], which takes the oldest proposal of the queue; the other
    channels are fed by the handlers.  The result tells whether the
    function has returned and names the catch-ups that were started. *)
Fixpoint leader_loop (evs : list leaderEvent) (started : list (string * string)) (n : @raft W)
  : outcome (bool * list (string * string) * @raft W) :=
  match evs with
  | [] => Done (false, started, n)
  | LQuit :: _ => Done (true, started, n)
  | LProp :: rest =>
      match propc n with
      | [] => leader_loop rest started n
      | b :: q =>
          let '(entries, q) :=
            if Byte.eqb (Typ b) EntryNormal then gather q 0 [b] else ([b], q) in
          let n := set_propc q n in
          n ← sendAppendEntry entries n;
          leader_loop rest started n
      end
  | LTick :: rest =>
      n ← (if notActive n then sendHeartbeat n else Done n);
      if lostQuorum n then
        n ← switchToFollower noLeader n; Done (true, started, n)
      else leader_loop rest started n
  | LVote vresp :: rest =>
      if currentTerm n <? vresp_term vresp then
        n ← switchToFollower noLeader n; Done (true, started, n)
      else
        '(_, n) ← trackPeer (vresp_peer vresp) n;
        leader_loop rest started n
  | LReq vreq :: rest =>
      '(_, n) ← processVoteRequest vreq n;
      leader_loop rest started n
  | LStepdown newLeader :: _ =>
      n ← switchToFollower newLeader n; Done (true, started, n)
  | LResp None :: _ => Panic
  | LResp (Some ar) :: rest =>
      '(_, n) ← trackPeer (ar_peer ar) n;
      if ar_success ar then
        n ← trackResponse ar n;
        leader_loop rest started n
      else if negb (bool_decide (ar_reply ar = EmptyString)) then
        '(go, n) ← catchupFollower ar n;
        leader_loop rest (started ++ match go with Some g => [g] | None => [] end) n
      else leader_loop rest started n
  end.

(** [runAsLeader]: the subscription for forwarded proposals is dropped
    when the function returns. *)
Definition runAsLeader (evs : list leaderEvent) (n : @raft W)
  : outcome (bool * list (string * string) * @raft W) :=
  (* For forwarded proposals. *)
  let '(fsub, n) := subscribe (psubj (subj n)) n in
  n ← sendPeerState n;
  '(returned, started, n) ← leader_loop evs [] n;
  (* Cleanup our subscription when we leave. *)
  Done (returned, started, if (returned : bool) then sysUnsubscribe (Some fsub) n else n).

End Api.
(** * Specification-side definitions *)

Definition entry_bytes (e : Entry) : list byte :=
  le_bytes 4 ((Z.of_nat (Slice.len (Data e)) + 1) mod 2 ^ 32)
  ++ [Typ e] ++ Slice.to_list (Data e).

Definition entries_bytes (es : list Entry) : list byte := concat (map entry_bytes es).

Definition u64 (z : Z) : Prop := 0 <= z < 2 ^ 64.
Definition u32 (z : Z) : Prop := 0 <= z < 2 ^ 32.
Definition wf_id (s : string) : Prop := String.length s = 8%nat.
Definition wf_entry (e : Entry) : Prop :=
  Slice.wf (Data e) /\ Z.of_nat (Slice.len (Data e)) + 1 < 2 ^ 32.
Definition entry_view (e : Entry) : EntryType * list byte := (Typ e, Slice.to_list (Data e)).

Definition ae_wire (ae : appendEntry) : list byte :=
  str_bytes (ae_leader ae) ++ le_bytes 8 (ae_term ae) ++ le_bytes 8 (ae_commit ae)
  ++ le_bytes 8 (ae_pterm ae) ++ le_bytes 8 (ae_pindex ae)
  ++ le_bytes 2 (Z.of_nat (length (ae_entries ae)) mod 2 ^ 16)
  ++ entries_bytes (ae_entries ae).

Record wf_appendEntry (ae : appendEntry) : Prop := {
  wf_ae_leader : wf_id (ae_leader ae);
  wf_ae_term : u64 (ae_term ae);
  wf_ae_commit : u64 (ae_commit ae);
  wf_ae_pterm : u64 (ae_pterm ae);
  wf_ae_pindex : u64 (ae_pindex ae);
  wf_ae_count : Z.of_nat (length (ae_entries ae)) < 2 ^ 16;
  wf_ae_entries : Forall wf_entry (ae_entries ae)
}.

Definition flag_byte (b : bool) : byte := if b then "001"%byte else "000"%byte.

Definition ar_wire (ar : appendEntryResponse) : list byte :=
  le_bytes 8 (ar_term ar) ++ le_bytes 8 (ar_index ar) ++ str_bytes (ar_peer ar)
  ++ [flag_byte (ar_success ar)].

Definition vreq_wire (vr : voteRequest) : list byte :=
  le_bytes 8 (vr_term vr) ++ le_bytes 8 (vr_lastTerm vr) ++ le_bytes 8 (vr_lastIndex vr)
  ++ str_bytes (vr_candidate vr).

Definition vresp_wire (vr : voteResponse) : list byte :=
  le_bytes 8 (vresp_term vr) ++ str_bytes (vresp_peer vr) ++ [flag_byte (vresp_granted vr)].

Definition ps_wire (ps : peerState) : list byte :=
  le_bytes 4 (clusterSize ps mod 2 ^ 32)
  ++ le_bytes 4 (Z.of_nat (length (knownPeers ps)) mod 2 ^ 32)
  ++ concat (map str_bytes (knownPeers ps)).

Definition peers_bytes (ps : list string) : list byte := concat (map str_bytes ps).

Definition wf_appendEntryResponse (ar : appendEntryResponse) : Prop :=
  wf_id (ar_peer ar) /\ u64 (ar_term ar) /\ u64 (ar_index ar).

Definition wf_voteRequest (vr : voteRequest) : Prop :=
  wf_id (vr_candidate vr) /\ u64 (vr_term vr) /\ u64 (vr_lastTerm vr) /\ u64 (vr_lastIndex vr).

Definition wf_voteResponse (vr : voteResponse) : Prop :=
  wf_id (vresp_peer vr) /\ u64 (vresp_term vr).

Definition wf_peerState (ps : peerState) : Prop :=
  Forall wf_id (knownPeers ps) /\ u32 (clusterSize ps)
  /\ Z.of_nat (length (knownPeers ps)) < 2 ^ 32.

(** The fields of an append entry that travel on the wire. *)
Definition ae_same_fields (a b : appendEntry) : Prop :=
  ae_leader a = ae_leader b /\ ae_term a = ae_term b /\ ae_commit a = ae_commit b
  /\ ae_pterm a = ae_pterm b /\ ae_pindex a = ae_pindex b
  /\ map entry_view (ae_entries a) = map entry_view (ae_entries b).

Definition ar_same_fields (a b : appendEntryResponse) : Prop :=
  ar_term a = ar_term b /\ ar_index a = ar_index b /\ ar_peer a = ar_peer b
  /\ ar_success a = ar_success b.

Definition vreq_same_fields (a b : voteRequest) : Prop :=
  vr_term a = vr_term b /\ vr_lastTerm a = vr_lastTerm b /\ vr_lastIndex a = vr_lastIndex b
  /\ vr_candidate a = vr_candidate b.

(** [decodes_back enc dec same]: the encoder returns its bytes, and the
    decoder applied to any slice holding exactly these bytes returns a
    value that [same] accepts. *)
Definition decodes_back {A R : Type} (enc : outcome (list byte))
    (dec : Slice.t -> outcome R) (found : R -> option A) (same : A -> Prop) : Prop :=
  exists buf,
    enc = Done buf
    /\ forall msg, Slice.wf msg -> Slice.to_list msg = buf ->
         exists r a, dec msg = Done r /\ found r = Some a /\ same a.

Definition inr_some {E A : Type} (r : E + A) : option A :=
  match r with inr a => Some a | inl _ => None end.

(** Sample values. *)
Definition sample_entries : list Entry :=
  [mkEntry EntryNormal (Slice.of_list (str_bytes "x"));
   mkEntry EntryAddPeer (Slice.of_list (str_bytes "nodeDDDD"))].

Definition sample_ae : appendEntry :=
  mkAE "nodeAAAA" 3 7 2 9 sample_entries EmptyString None.

Definition sample_ar : appendEntryResponse := mkAR 3 10 "nodeBBBB" true EmptyString.

Definition sample_vreq : voteRequest := mkVReq 4 3 10 "nodeCCCC" EmptyString.

Definition sample_vresp : voteResponse := mkVResp 4 "nodeBBBB" true.

Definition sample_ps : peerState := mkPS ["nodeAAAA"; "nodeBBBB"; "nodeCCCC"] 3.

(** A 42-byte append entry whose count field announces one entry, with
    no byte of that entry following. *)
Definition truncated_ae_msg : list byte :=
  str_bytes "nodeAAAA" ++ le_bytes 8 1 ++ le_bytes 8 0 ++ le_bytes 8 0 ++ le_bytes 8 0
  ++ le_bytes 2 1.

(** Entries that [applyCommit] hands to the upper layers. *)
Definition deliverable (e : Entry) : bool :=
  Byte.eqb (Typ e) EntryNormal || Byte.eqb (Typ e) EntrySnapshot.

(** [unchanged_by_apply n n']: [n'] differs from [n] at most in the
    cluster size, the quorum, the peers and the host's files, which is
    all the entry loop of [applyCommit] touches. *)
Definition unchanged_by_apply {W : Type} (n n' : @raft W) : Prop :=
  id n' = id n /\ state n' = state n /\ acks n' = acks n /\ term n' = term n
  /\ pterm n' = pterm n /\ pindex n' = pindex n /\ sindex n' = sindex n
  /\ commit n' = commit n /\ applied n' = applied n /\ leader n' = leader n
  /\ vote n' = vote n /\ paused n' = paused n /\ hcommit n' = hcommit n
  /\ propc n' = propc n /\ applyc n' = applyc n /\ applyc_cap n' = applyc_cap n
  /\ sendq n' = sendq n /\ wal n' = wal n.

(** A membership entry whose payload [decodePeerState] reads without
    leaving its buffer. *)
Definition peerstate_readable (e : Entry) : Prop :=
  Typ e = EntryPeerState -> returns (decodePeerState (Data e)).



(** Sample nodes over the in-memory log. *)
Definition sample_host : hostState :=
  {| clock := 1000; rnd := []; peerStateFile := None; termVoteFile := None;
     subs := ∅; next_sid := 0; clusterName := "C" |}.

Definition sample_peers : gmap string lps :=
  <["nodeAAAA" := mkLps 900 0]> (<["nodeBBBB" := mkLps 900 0]> (<["nodeCCCC" := mkLps 900 0]> ∅)).

Definition sample_node (w : memWAL) : @raft memWAL :=
  {| id := "nodeAAAA"; group := "G"; state := Follower; csz := 3; qn := 2;
     peers := sample_peers; acks := ∅; elect := None; active := 0;
     term := 1; pterm := 0; pindex := 0; sindex := 0; commit := 0; applied := 0;
     leader := EmptyString; vote := EmptyString;
     subj := mkSubjects "$NRG.P.G" "$NRG.V.C.G" "$NRG.R.vote" "$NRG.E.C.G" "$NRG.R.append";
     catchup := None; progress := ∅; paused := false; hcommit := 0;
     propc := []; applyc := []; applyc_cap := 512; sendq := [];
     reqs := []; votes := []; resp := []; leadc := []; stepdown := [];
     wal := w; host := sample_host |}.

(** The bytes of an append entry, empty if the encoder faults. *)
Definition encoded (ae : appendEntry) : list byte :=
  match appendEntry_encode ae with
  | Done buf => buf
  | Panic => []
  end.

(** A log holding the given append entries at indices 1, 2, ... *)
Definition log_of (aes : list appendEntry) : memWAL :=
  fold_left (fun w ae => snd (mw_store w (encoded ae))) aes memWAL_empty.

Definition normal_entry (s : string) : Entry := mkEntry EntryNormal (Slice.of_list (str_bytes s)).

(** A membership entry as the leader builds it in [sendPeerState]. *)
Definition peerstate_entry (ps : peerState) : Entry :=
  mkEntry EntryPeerState
          (Slice.of_list (match encodePeerState ps with Done b => b | Panic => [] end)).

Definition five_peers : peerState :=
  mkPS ["nodeAAAA"; "nodeBBBB"; "nodeCCCC"; "nodeDDDD"; "nodeEEEE"] 5.

Definition ae_five_peers : appendEntry :=
  mkAE "nodeBBBB" 1 0 0 0 [peerstate_entry five_peers] EmptyString None.

(** A log that counts the calls of its [Compact]. *)
Record countingWAL : Type := mkCounting { compactions : nat }.

#[global] Instance countingWAL_WAL : WAL countingWAL := {
  StoreMsg := fun w _ => (inl errStore, w);
  LoadMsg := fun _ _ => inl ErrStoreEOF;
  WCompact := fun w _ => (inr 0, mkCounting (S (compactions w)));
  WState := fun _ => mkStreamState 0 0 0 0
}.

(** A leader whose two peers have replicated through index 10. *)
Definition sample_leader {W : Type} (w : W) : @raft W :=
  {| id := "nodeAAAA"; group := "G"; state := Leader; csz := 3; qn := 2;
     peers := <["nodeAAAA" := mkLps 900 0]>
                (<["nodeBBBB" := mkLps 900 10]> (<["nodeCCCC" := mkLps 900 12]> ∅));
     acks := ∅; elect := None; active := 0;
     term := 3; pterm := 3; pindex := 12; sindex := 0; commit := 10; applied := 10;
     leader := "nodeAAAA"; vote := EmptyString;
     subj := mkSubjects "$NRG.P.G" "$NRG.V.C.G" "$NRG.R.vote" "$NRG.E.C.G" "$NRG.R.append";
     catchup := None; progress := ∅; paused := false; hcommit := 0;
     propc := []; applyc := []; applyc_cap := 512; sendq := [];
     reqs := []; votes := []; resp := []; leadc := []; stepdown := [];
     wal := w; host := sample_host |}.

(** A follower at term 3 whose log ends at index 10 and who has voted
    for nodeCCCC in this term, and a request of nodeCCCC for the same
    term whose log ends at index 5. *)
Definition voted_node : @raft memWAL :=
  set_vote "nodeCCCC" (set_pindex 10 (set_pterm 2 (set_term 3 (sample_node memWAL_empty)))).

Definition stale_request : voteRequest := mkVReq 3 2 5 "nodeCCCC" "$NRG.R.reply".

(** What [processVoteRequest] decides once the term is settled: [v] is
    the node's vote at that point. *)
Definition grants (lastIndex pindex_ : Z) (v candidate : string) : bool :=
  ((pindex_ <=? lastIndex) && bool_decide (v = noVote)) || bool_decide (v = candidate).

(** The rule of the specification: the log check and the vote check
    both hold. *)
Definition grants_by_spec (lastIndex pindex_ : Z) (v candidate : string) : bool :=
  (pindex_ <=? lastIndex) && (bool_decide (v = noVote) || bool_decide (v = candidate)).

(** The alphabet of inbox suffixes, and a store directory holding a
    peer-state file for a cluster of three and a term/vote file with
    term 5 and a vote for nodeBBBB. *)
Definition inbox_alphabet : list byte :=
  str_bytes "0123456789ABCDEFGHIJKLMNOPQRSTUVWXYZabcdefghijklmnopqrstuvwxyz".

Definition stored_host : hostState :=
  {| clock := 1000; rnd := [];
     peerStateFile := Some (ps_wire sample_ps);
     termVoteFile := Some (le_bytes 8 5 ++ str_bytes "nodeBBBB");
     subs := ∅; next_sid := 0; clusterName := "C" |}.

Definition small_cluster_host : hostState :=
  set_peerStateFile (Some (ps_wire (mkPS ["nodeAAAA"] 1))) stored_host.

(** A candidate at term 5 in a cluster of three, and a granted vote
    response that carries term 4. *)
Definition candidate_node : @raft memWAL :=
  set_state Candidate (set_term 5 (sample_node memWAL_empty)).

Definition older_grant : voteResponse := mkVResp 4 "nodeBBBB" true.

(** The tally of a candidate at term [tm] over the responses [vs]: its
    own vote and the granted responses whose term equals [tm], as the
    specification counts them ... *)
Definition tally_equal_term (tm : Z) (vs : list voteResponse) : Z :=
  1 + Z.of_nat (length (filter (fun v => vresp_granted v && (vresp_term v =? tm)) vs)).

(** ... and with the granted responses whose term is at most [tm]. *)
Definition granted_upto (tm : Z) (vs : list voteResponse) : Z :=
  Z.of_nat (length (filter (fun v => vresp_granted v && (vresp_term v <=? tm)) vs)).

Definition tally_upto_term (tm : Z) (vs : list voteResponse) : Z := 1 + granted_upto tm vs.

(** What the commit loops leave alone. *)
Definition kept_by_commit {W : Type} (n n' : @raft W) : Prop :=
  id n' = id n /\ state n' = state n /\ term n' = term n
  /\ pterm n' = pterm n /\ pindex n' = pindex n /\ sindex n' = sindex n
  /\ leader n' = leader n /\ vote n' = vote n /\ paused n' = paused n
  /\ hcommit n' = hcommit n /\ propc n' = propc n /\ applyc_cap n' = applyc_cap n
  /\ sendq n' = sendq n /\ wal n' = wal n.

(** What the batch [ae], committed at [index], puts on the apply
    channel: one record with its Normal and Snapshot entries, if it has
    any. *)
Definition apply_record (index : Z) (ae : appendEntry) : list (option CommittedEntry) :=
  let c := filter (fun e => deliverable e = true) (ae_entries ae) in
  if (0 <? length c)%nat then [Some (mkCommitted index c)] else [].

Fixpoint records_from (index : Z) (aes : list appendEntry) : list (option CommittedEntry) :=
  match aes with
  | [] => []
  | ae :: rest => apply_record index ae ++ records_from (index + 1) rest
  end.

(** The log [w] holds at [index] a record that decodes to [ae], whose
    membership entries can be read. *)
Definition stored_batch {W : Type} `{WAL W} (w : W) (index : Z) (ae : appendEntry) : Prop :=
  exists msg, LoadMsg w index = inr msg
              /\ decodeAppendEntry msg EmptyString = Done (Some ae)
              /\ Forall peerstate_readable (ae_entries ae).

Fixpoint stored_from {W : Type} `{WAL W} (w : W) (index : Z) (aes : list appendEntry) : Prop :=
  match aes with
  | [] => True
  | ae :: rest => stored_batch w index ae /\ stored_from w (index + 1) rest
  end.

(** The peers of the list that were heard of within
    [lostQuorumInterval] of [tnow], and those of a node. *)
Definition recent_in (tnow : Z) (ps : list (string * lps)) : Z :=
  Z.of_nat (length (filter (fun kv : string * lps =>
                              Is_true (wrapInt (tnow - ts (snd kv)) <? lostQuorumInterval)) ps)).

Definition recent_peers {W : Type} (n : @raft W) : Z :=
  recent_in (now n) (map_to_list (peers n)).

(** [k] calls of [catchupStalled] in a row: the answers, oldest first,
    and the node left. *)
Fixpoint catchupStalled_calls {W : Type} (k : nat) (n : @raft W) : list bool * @raft W :=
  match k with
  | O => ([], n)
  | S k' =>
      let '(stalled, n) := catchupStalled n in
      let '(rest, n) := catchupStalled_calls k' n in
      (stalled :: rest, n)
  end.

(** A follower that has just set up a catch-up at its own index. *)
Definition catching_up_node : @raft memWAL :=
  set_catchup (Some (mkCatchup (Some 7%nat) 4 20 1 0 0)) (sample_node memWAL_empty).

(** The vote a node holds once a request of term [tm] has been looked
    at: a higher term clears it. *)
Definition vote_for_term {W : Type} (n : @raft W) (tm : Z) : string :=
  if term n <? tm then noVote else vote n.

(** The answer of [processVoteRequest] to [vr]: refused for an older
    term, and else decided by [grants]. *)
Definition vote_answer {W : Type} (n : @raft W) (vr : voteRequest) : bool :=
  (term n <=? vr_term vr)
  && grants (vr_lastIndex vr) (pindex n) (vote_for_term n (vr_term vr)) (vr_candidate vr).

(** Two requests of the same term 4 by different candidates. *)
Definition request_of_B : voteRequest := mkVReq 4 0 0 "nodeBBBB" "$NRG.R.b".
Definition request_of_C : voteRequest := mkVReq 4 0 0 "nodeCCCC" "$NRG.R.c".

(** The size the gather loop of the leader counts for a list of
    proposals: the length of each payload plus one. *)
Definition batch_size (es : list Entry) : Z :=
  fold_right (fun e acc => Z.of_nat (Slice.len (Data e)) + 1 + acc) 0 es.

(** A leader on an empty log with two proposals queued. *)
Definition fresh_leader : @raft memWAL :=
  set_propc [normal_entry "a"; normal_entry "b"]
            (set_leader "nodeAAAA" (set_state Leader (sample_node memWAL_empty))).

(** A proposal [e] on the node [n] with the result [r]: it is accepted
    exactly under [cond] and then queued last; refused, it leaves the
    node as it is; a node that is not the leader answers
    [errNotLeader]. *)
Definition proposal_outcome {W : Type} (r : option error * @raft W) (e : Entry)
    (n : @raft W) (cond : Prop) : Prop :=
  (fst r = None <-> cond)
  /\ (fst r = None -> snd r = set_propc (propc n ++ [e]) n)
  /\ (fst r <> None -> snd r = n)
  /\ (state n <> Leader -> fst r = Some errNotLeader)
  /\ ((length (propc n) <= 256)%nat -> (length (propc (snd r)) <= 256)%nat).



(** A follower at rest that heard of its leader nodeBBBB 100ns ago. *)
Definition current_follower : @raft memWAL :=
  set_leader "nodeBBBB" (sample_node memWAL_empty).

(** A leader whose log holds one append entry, and the response of a
    follower that has nothing. *)
Definition leader_with_log : @raft memWAL :=
  set_pindex 1 (set_wal (log_of [sample_ae]) fresh_leader).

Definition behind_response : appendEntryResponse :=
  mkAR 0 0 "nodeBBBB" false "$NRG.R.catchup".

(** A paused follower at commit 0 that was told of commit 2, over a log
    of two batches of one Normal entry each; and the same node with an
    apply channel of capacity 1 that is full. *)
Definition two_batches : list appendEntry :=
  [mkAE "nodeBBBB" 1 0 0 0 [normal_entry "x"] EmptyString None;
   mkAE "nodeBBBB" 1 0 1 1 [normal_entry "y"] EmptyString None].

Definition paused_follower : @raft memWAL :=
  set_hcommit 2 (set_paused true (set_pindex 2 (set_pterm 1 (sample_node (log_of two_batches))))).


(** A leader at term 3 whose log holds the two batches, of term 1, with
    its own ack recorded for index 2; and the response of nodeBBBB for
    index 2. *)
Definition leader_old_entries : @raft memWAL :=
  set_acks (<[2 := {[ "nodeAAAA"%string ]}]> ∅)
           (set_term 3 (set_pindex 2 (set_pterm 1
              (set_leader "nodeAAAA" (set_state Leader (sample_node (log_of two_batches))))))).

Definition ack_of_B : appendEntryResponse := mkAR 1 2 "nodeBBBB" true EmptyString.

(** The append entry that the record of [w] at [index] decodes to. *)
Definition loaded_entry (w : memWAL) (index : Z) : appendEntry :=
  match mw_load w index with
  | inr msg =>
      match decodeAppendEntry msg EmptyString with
      | Done (Some ae) => ae
      | _ => mkAE EmptyString 0 0 0 0 [] EmptyString None
      end
  | inl _ => mkAE EmptyString 0 0 0 0 [] EmptyString None
  end.

Definition two_loaded : list appendEntry :=
  [loaded_entry (log_of two_batches) 1; loaded_entry (log_of two_batches) 2].


Definition stale_entry : appendEntry :=
  mkAE "nodeBBBB" 0 0 0 0 [] "$NRG.R.lead" None.
(** ** Little-endian integers *)

Lemma Z_of_byte_range (b : byte) : 0 <= Z_of_byte b < 256.
Proof.
  unfold Z_of_byte. pose proof (Byte.to_N_bounded b) as H.
  lia.
Qed.

Lemma Z_of_byte_of_Z (z : Z) : Z_of_byte (byte_of_Z z) = z mod 256.
Proof.
  unfold Z_of_byte, byte_of_Z.
  assert (Hr : 0 <= z mod 256 < 256) by (apply Z.mod_pos_bound; lia).
  destruct (Byte.of_N (Z.to_N (z mod 256))) as [b|] eqn:E.
  - apply Byte.to_of_N in E. rewrite E. lia.
  - apply Byte.of_N_None_iff in E. lia.
Qed.

Lemma byte_of_Z_of_byte (b : byte) : byte_of_Z (Z_of_byte b) = b.
Proof.
  unfold byte_of_Z. rewrite Z.mod_small by apply Z_of_byte_range.
  unfold Z_of_byte. rewrite N2Z.id, Byte.of_to_N. reflexivity.
Qed.

Lemma length_le_bytes (w : nat) (v : Z) : length (le_bytes w v) = w.
Proof. revert v; induction w; intros; simpl; [|rewrite IHw]; reflexivity. Qed.

Lemma lor_shiftl_8 (a b : Z) : 0 <= a < 256 -> 0 <= b -> Z.lor a (Z.shiftl b 8) = a + 256 * b.
Proof.
  intros Ha Hb.
  rewrite Z.shiftl_mul_pow2 by lia.
  change (2 ^ 8) with 256.
  rewrite <- Z.lxor_lor.
  - rewrite <- Z.add_nocarry_lxor; [lia|].
    apply Z.bits_inj'. intros k Hk. rewrite Z.land_spec, Z.bits_0.
    destruct (Z.lt_ge_cases k 8).
    + replace (b * 256) with (b * 2 ^ 8) by reflexivity.
      rewrite (Z.mul_pow2_bits_low b 8 k) by lia. apply andb_false_r.
    + rewrite (Z.bits_above_log2 a k); [reflexivity|lia|].
      destruct (Z.eq_dec a 0) as [->|]; [simpl; lia|].
      apply Z.log2_lt_pow2; [lia|].
      apply Z.lt_le_trans with (2 ^ 8); [simpl; lia|].
      apply Z.pow_le_mono_r; lia.
  - apply Z.bits_inj'. intros k Hk. rewrite Z.land_spec, Z.bits_0.
    destruct (Z.lt_ge_cases k 8).
    + replace (b * 256) with (b * 2 ^ 8) by reflexivity.
      rewrite (Z.mul_pow2_bits_low b 8 k) by lia. apply andb_false_r.
    + rewrite (Z.bits_above_log2 a k); [reflexivity|lia|].
      destruct (Z.eq_dec a 0) as [->|]; [simpl; lia|].
      apply Z.log2_lt_pow2; [lia|].
      apply Z.lt_le_trans with (2 ^ 8); [simpl; lia|].
      apply Z.pow_le_mono_r; lia.
Qed.

Lemma le_value_nonneg (bs : list byte) : 0 <= le_value bs.
Proof.
  induction bs as [|b bs IH]; simpl; [lia|].
  rewrite lor_shiftl_8 by (auto using Z_of_byte_range).
  pose proof (Z_of_byte_range b). lia.
Qed.

Lemma le_value_le_bytes (w : nat) (v : Z) :
  le_value (le_bytes w v) = v mod 2 ^ (8 * Z.of_nat w).
Proof.
  revert v. induction w as [|w IH]; intros v.
  - simpl. rewrite Z.mod_1_r. reflexivity.
  - cbn [le_bytes le_value]. rewrite IH, Z_of_byte_of_Z.
    rewrite lor_shiftl_8.
    + rewrite Z.shiftr_div_pow2 by lia. change (2 ^ 8) with 256.
      replace (8 * Z.of_nat (S w)) with (8 + 8 * Z.of_nat w) by lia.
      rewrite Z.pow_add_r by lia. change (2 ^ 8) with 256.
      rewrite Z.rem_mul_r by lia. reflexivity.
    + apply Z.mod_pos_bound; lia.
    + apply Z.mod_pos_bound. apply Z.pow_pos_nonneg; lia.
Qed.

Lemma le_value_le_bytes_small (w : nat) (v : Z) :
  0 <= v < 2 ^ (8 * Z.of_nat w) -> le_value (le_bytes w v) = v.
Proof. intros H. rewrite le_value_le_bytes. apply Z.mod_small, H. Qed.
(** ** Writing into a buffer whose tail is still blank *)

Section BufferWrites.

Implicit Types (pre src : list byte) (z b : byte) (k w off : nat).

Lemma PutUint_blank pre z k w off v :
  off = length pre -> (w <= k)%nat ->
  Slice.PutUint w (pre ++ replicate k z) off v
  = Done ((pre ++ le_bytes w v) ++ replicate (k - w) z).
Proof.
  intros -> Hw. unfold Slice.PutUint.
  rewrite length_app, length_replicate.
  destruct (Nat.leb_spec (length pre + w) (length pre + k)); [|lia].
  f_equal. rewrite take_app_length, drop_app_add', drop_replicate, <- app_assoc by reflexivity.
  reflexivity.
Qed.

Lemma copy_blank pre z k lo hi src :
  lo = length pre -> (lo + length src <= hi)%nat -> (hi <= length pre + k)%nat ->
  Slice.copy (pre ++ replicate k z) lo hi src
  = Done ((pre ++ src) ++ replicate (k - length src) z).
Proof.
  intros -> Hs Hhi. unfold Slice.copy.
  rewrite length_app, length_replicate.
  destruct (Nat.leb_spec (length pre) hi); [|lia].
  destruct (Nat.leb_spec hi (length pre + k)); [|lia].
  cbn [andb]. f_equal.
  rewrite Nat.min_r by lia.
  rewrite take_app_length, firstn_all, drop_app_add', drop_replicate, <- app_assoc by reflexivity.
  reflexivity.
Qed.

Lemma set_blank pre z k i b :
  i = length pre -> (1 <= k)%nat ->
  Slice.set (pre ++ replicate k z) i b = Done ((pre ++ [b]) ++ replicate (k - 1) z).
Proof.
  intros -> Hk. unfold Slice.set.
  rewrite length_app, length_replicate.
  destruct (Nat.ltb_spec (length pre) (length pre + k)); [|lia].
  f_equal. destruct k as [|k]; [lia|].
  rewrite insert_app_r_alt, Nat.sub_diag by lia.
  cbn. rewrite Nat.sub_0_r, <- app_assoc. reflexivity.
Qed.

End BufferWrites.

(** ** The bytes an append entry is encoded to *)

Lemma entries_len_from (es : list Entry) (a : nat) :
  fold_left (fun elen e => (elen + (Slice.len (Data e) + 1 + 4))%nat) es a
  = (a + entries_len es)%nat.
Proof.
  unfold entries_len. revert a. induction es as [|e es IH]; intros a; simpl; [lia|].
  rewrite IH, (IH (Slice.len (Data e) + 1 + 4)%nat). lia.
Qed.

Lemma entries_len_cons (e : Entry) (es : list Entry) :
  entries_len (e :: es) = (Slice.len (Data e) + 1 + 4 + entries_len es)%nat.
Proof. unfold entries_len at 1. simpl. apply entries_len_from. Qed.

Lemma length_to_list (s : Slice.t) : Slice.wf s -> length (Slice.to_list s) = Slice.len s.
Proof. unfold Slice.wf, Slice.cap, Slice.to_list. intros H. rewrite length_take. lia. Qed.

Lemma length_entry_bytes (e : Entry) :
  Slice.wf (Data e) -> length (entry_bytes e) = (Slice.len (Data e) + 1 + 4)%nat.
Proof.
  intros H. unfold entry_bytes. rewrite !length_app, length_le_bytes, length_to_list by done.
  simpl. lia.
Qed.

Lemma length_entries_bytes (es : list Entry) :
  Forall (fun e => Slice.wf (Data e)) es -> length (entries_bytes es) = entries_len es.
Proof.
  induction 1 as [|e es He Hes IH]; [reflexivity|].
  unfold entries_bytes in *. cbn [map concat].
  rewrite length_app, IH, entries_len_cons, length_entry_bytes by done. lia.
Qed.

Lemma encode_entries_blank (es : list Entry) (pre : list byte) (k wi : nat) :
  Forall (fun e => Slice.wf (Data e)) es ->
  wi = length pre -> (entries_len es <= k)%nat ->
  encode_entries es (pre ++ replicate k "000"%byte) wi
  = Done ((pre ++ entries_bytes es) ++ replicate (k - entries_len es) "000"%byte,
          (wi + entries_len es)%nat).
Proof.
  intros Hwf. revert pre k wi.
  induction Hwf as [|e es He Hes IH]; intros pre k wi -> Hk.
  - cbn. rewrite app_nil_r, Nat.sub_0_r, Nat.add_0_r. reflexivity.
  - rewrite entries_len_cons in *.
    cbn [encode_entries].
    rewrite (PutUint_blank pre _ k 4) by (reflexivity || lia).
    cbn [mbind outcome_bind].
    rewrite (set_blank _ _ (k - 4)) by (rewrite ?length_app, ?length_le_bytes; lia).
    cbn [mbind outcome_bind].
    rewrite (copy_blank _ _ (k - 4 - 1)).
    2:{ rewrite ?length_app, ?length_le_bytes. simpl. lia. }
    2:{ rewrite ?length_app, ?length_le_bytes, ?length_replicate, ?length_to_list by done.
        simpl. lia. }
    2:{ rewrite ?length_app, ?length_le_bytes, ?length_replicate. simpl. lia. }
    cbn [mbind outcome_bind].
    rewrite IH.
    + f_equal. f_equal.
      * unfold entries_bytes. cbn [map concat]. unfold entry_bytes.
        rewrite length_to_list by done.
        rewrite <- !app_assoc.
        replace (k - 4 - 1 - Slice.len (Data e) - entries_len es)%nat
          with (k - (Slice.len (Data e) + 1 + 4 + entries_len es))%nat by lia.
        reflexivity.
      * lia.
    + rewrite !length_app, length_le_bytes, length_to_list by done. simpl. lia.
    + rewrite length_to_list by done. lia.
Qed.
Lemma length_str_bytes (s : string) : length (str_bytes s) = String.length s.
Proof.
  unfold str_bytes, list_byte_of_string.
  rewrite length_map. induction s; simpl; congruence.
Qed.

Lemma bytes_str_bytes (s : string) : bytes_str (str_bytes s) = s.
Proof. apply string_of_list_byte_of_string. Qed.

(** ** Reading from a slice whose backing array is known *)

Section SliceReads.

Implicit Types (s : Slice.t) (pre mid post : list byte).

Lemma Uint_at s off w pre mid post :
  Slice.arr s = pre ++ mid ++ post -> Z.of_nat (length pre) = off -> length mid = w ->
  (length pre + w <= Slice.len s)%nat ->
  Slice.from s off ≫= Slice.Uint w = Done (le_value mid).
Proof.
  intros Harr <- <- Hlen. unfold Slice.from.
  destruct (Z.leb_spec 0 (Z.of_nat (length pre))); [|lia].
  destruct (Z.leb_spec (Z.of_nat (length pre)) (Z.of_nat (Slice.len s))); [|lia].
  cbn [andb mbind outcome_bind]. unfold Slice.Uint. cbn [Slice.len Slice.arr].
  rewrite Nat2Z.id.
  destruct (Nat.leb_spec (length mid) (Slice.len s - length pre)); [|lia].
  rewrite Harr, drop_app_length, take_app_length. reflexivity.
Qed.

Lemma sub_at s lo hi pre mid post :
  Slice.arr s = pre ++ mid ++ post -> Z.of_nat (length pre) = lo ->
  Z.of_nat (length pre + length mid) = hi ->
  exists d, Slice.sub s lo hi = Done d /\ Slice.to_list d = mid /\ Slice.len d = length mid.
Proof.
  intros Harr <- <-. unfold Slice.sub, Slice.cap.
  rewrite Harr, !length_app.
  destruct (Z.leb_spec 0 (Z.of_nat (length pre))); [|lia].
  destruct (Z.leb_spec (Z.of_nat (length pre)) (Z.of_nat (length pre + length mid))); [|lia].
  destruct (Z.leb_spec (Z.of_nat (length pre + length mid))
                       (Z.of_nat (length pre + (length mid + length post)))); [|lia].
  cbn [andb]. eexists. split; [reflexivity|].
  unfold Slice.to_list. cbn [Slice.len Slice.arr].
  rewrite !Nat2Z.id, drop_app_length.
  replace (length pre + length mid - length pre)%nat with (length mid) by lia.
  rewrite take_app_length. done.
Qed.

Lemma index_at s i pre b post :
  Slice.arr s = pre ++ b :: post -> Z.of_nat (length pre) = i ->
  (length pre < Slice.len s)%nat ->
  Slice.index s i = Done b.
Proof.
  intros Harr <- Hlen. unfold Slice.index.
  destruct (Z.leb_spec 0 (Z.of_nat (length pre))); [|lia].
  destruct (Z.ltb_spec (Z.of_nat (length pre)) (Z.of_nat (Slice.len s))); [|lia].
  cbn [andb]. rewrite Nat2Z.id, Harr, list_lookup_middle by reflexivity. reflexivity.
Qed.

Lemma arr_to_list s : Slice.arr s = Slice.to_list s ++ drop (Slice.len s) (Slice.arr s).
Proof. unfold Slice.to_list. symmetry. apply take_drop. Qed.

End SliceReads.

Lemma decode_entries_wire (es : list Entry) :
  Forall wf_entry es ->
  forall (msg : Slice.t) (pre post : list byte) (ri : Z) (acc : list Entry),
    Slice.arr msg = pre ++ entries_bytes es ++ post ->
    ri = Z.of_nat (length pre) ->
    (length pre + length (entries_bytes es) <= Slice.len msg)%nat ->
    exists es',
      decode_entries (length es) msg ri acc = Done (acc ++ es')
      /\ map entry_view es' = map entry_view es.
Proof.
  induction 1 as [|e es [Hwf Hsz] Hes IH]; intros msg pre post ri acc Harr -> Hlen.
  - exists []. rewrite app_nil_r. done.
  - unfold entries_bytes in Harr, Hlen. cbn [map concat] in Harr, Hlen.
    fold (entries_bytes es) in Harr, Hlen.
    unfold entry_bytes in Harr, Hlen.
    rewrite !length_app, length_le_bytes, length_to_list in Hlen by done.
    cbn [length] in Hlen.
    set (szb := le_bytes 4 ((Z.of_nat (Slice.len (Data e)) + 1) `mod` 2 ^ 32)) in *.
    assert (Hszb : length szb = 4%nat) by apply length_le_bytes.
    cbn [decode_entries length].
    rewrite (Uint_at msg _ 4 pre szb (([Typ e] ++ Slice.to_list (Data e)) ++ entries_bytes es ++ post))
      by (rewrite ?Harr, <- ?app_assoc; done || lia).
    cbn [mbind outcome_bind].
    assert (Hval : le_value szb = Z.of_nat (Slice.len (Data e)) + 1).
    { unfold szb. rewrite le_value_le_bytes_small; rewrite Z.mod_small by lia; [done|].
      change (2 ^ (8 * Z.of_nat 4)) with (2 ^ 32). lia. }
    rewrite !Hval.
    rewrite (index_at msg _ (pre ++ szb) (Typ e) (Slice.to_list (Data e) ++ entries_bytes es ++ post))
      by (rewrite ?Harr, ?length_app, <- ?app_assoc; done || lia).
    cbn [mbind outcome_bind].
    destruct (sub_at msg (Z.of_nat (length pre) + 4 + 1)
                (Z.of_nat (length pre) + 4 + (Z.of_nat (Slice.len (Data e)) + 1))
                (pre ++ szb ++ [Typ e]) (Slice.to_list (Data e)) (entries_bytes es ++ post))
      as (d & Hd & Hdl & Hdn).
    { rewrite Harr, <- !app_assoc. reflexivity. }
    { rewrite !length_app, Hszb. simpl. lia. }
    { rewrite !length_app, Hszb, length_to_list by done. simpl. lia. }
    rewrite Hd. cbn [mbind outcome_bind].
    destruct (IH msg (pre ++ szb ++ [Typ e] ++ Slice.to_list (Data e)) post
                (Z.of_nat (length pre) + 4 + (Z.of_nat (Slice.len (Data e)) + 1))
                (acc ++ [mkEntry (Typ e) d])) as (es' & Hdec & Hview).
    { rewrite Harr, <- !app_assoc. reflexivity. }
    { rewrite !length_app, Hszb, length_to_list by done. simpl. lia. }
    { rewrite !length_app, Hszb, length_to_list by done. simpl. lia. }
    exists (mkEntry (Typ e) d :: es'). split.
    + rewrite Hdec, <- app_assoc. reflexivity.
    + cbn [map]. rewrite Hview. unfold entry_view at 1 3. cbn [Typ Data].
      rewrite Hdl. reflexivity.
Qed.
Ltac len_side :=
  rewrite ?length_app, ?length_le_bytes, ?length_str_bytes, ?length_replicate;
  cbn [length]; lia.

Lemma wf_entries_data (es : list Entry) :
  Forall wf_entry es -> Forall (fun e => Slice.wf (Data e)) es.
Proof. intros H. eapply Forall_impl; [exact H|]. intros e [He _]. exact He. Qed.

Lemma appendEntry_encode_wire (ae : appendEntry) :
  wf_id (ae_leader ae) -> Forall (fun e => Slice.wf (Data e)) (ae_entries ae) ->
  appendEntry_encode ae = Done (ae_wire ae).
Proof.
  intros Hid Hes. unfold wf_id in Hid.
  unfold appendEntry_encode, Slice.make.
  change (Z.to_nat appendEntryBaseLen) with 42%nat.
  change (Z.to_nat idLen) with 8%nat.
  set (elen := entries_len (ae_entries ae)).
  change (replicate (42 + elen) "000"%byte) with ([] ++ replicate (42 + elen) "000"%byte).
  rewrite copy_blank by (rewrite ?length_str_bytes; cbn [length]; lia).
  cbn [mbind outcome_bind]. rewrite length_str_bytes, Hid.
  rewrite PutUint_blank by len_side. cbn [mbind outcome_bind].
  rewrite PutUint_blank by len_side. cbn [mbind outcome_bind].
  rewrite PutUint_blank by len_side. cbn [mbind outcome_bind].
  rewrite PutUint_blank by len_side. cbn [mbind outcome_bind].
  rewrite PutUint_blank by len_side. cbn [mbind outcome_bind].
  rewrite encode_entries_blank by (done || len_side).
  cbn [mbind outcome_bind]. fold elen.
  replace (42 + elen - 8 - 8 - 8 - 8 - 8 - 2 - elen)%nat with 0%nat by lia.
  cbn [replicate]. rewrite app_nil_r.
  assert (Hlen : length ((((((([] ++ str_bytes (ae_leader ae)) ++ le_bytes 8 (ae_term ae))
                 ++ le_bytes 8 (ae_commit ae)) ++ le_bytes 8 (ae_pterm ae))
                 ++ le_bytes 8 (ae_pindex ae))
                 ++ le_bytes 2 (Z.of_nat (length (ae_entries ae)) `mod` 2 ^ 16))
                 ++ entries_bytes (ae_entries ae)) = (42 + elen)%nat).
  { rewrite !length_app, !length_le_bytes, length_str_bytes, length_entries_bytes, Hid by done.
    cbn [length]. fold elen. lia. }
  rewrite Hlen, Nat.leb_refl, <- Hlen, firstn_all.
  unfold ae_wire. cbn [app]. rewrite <- !app_assoc. reflexivity.
Qed.

Lemma decodeAppendEntry_wire (ae : appendEntry) (msg : Slice.t) (reply : string) :
  wf_appendEntry ae -> Slice.wf msg -> Slice.to_list msg = ae_wire ae ->
  exists es',
    decodeAppendEntry msg reply
    = Done (Some (mkAE (ae_leader ae) (ae_term ae) (ae_commit ae) (ae_pterm ae)
                       (ae_pindex ae) es' reply (Some (ae_wire ae))))
    /\ map entry_view es' = map entry_view (ae_entries ae).
Proof.
  intros [Hid Ht Hc Hpt Hpi Hn Hes] Hwf Hmsg.
  unfold wf_id, u64 in *.
  pose proof (arr_to_list msg) as Harr. rewrite Hmsg in Harr.
  assert (Hlen : Slice.len msg = length (ae_wire ae)).
  { rewrite <- Hmsg. symmetry. apply length_to_list, Hwf. }
  unfold ae_wire in Harr, Hlen.
  rewrite !length_app, !length_le_bytes, length_str_bytes, Hid in Hlen.
  set (post := drop (Slice.len msg) (Slice.arr msg)) in *.
  set (L := str_bytes (ae_leader ae)) in *.
  assert (HL : length L = 8%nat) by (unfold L; rewrite length_str_bytes; done).
  set (T := le_bytes 8 (ae_term ae)) in *.
  set (C := le_bytes 8 (ae_commit ae)) in *.
  set (PT := le_bytes 8 (ae_pterm ae)) in *.
  set (PI := le_bytes 8 (ae_pindex ae)) in *.
  set (NE := le_bytes 2 (Z.of_nat (length (ae_entries ae)) `mod` 2 ^ 16)) in *.
  set (ES := entries_bytes (ae_entries ae)) in *.
  unfold decodeAppendEntry.
  destruct (Z.ltb_spec (Z.of_nat (Slice.len msg)) appendEntryBaseLen) as [Hshort|_].
  { unfold appendEntryBaseLen, idLen in Hshort. lia. }
  destruct (sub_at msg 0 idLen [] L (T ++ C ++ PT ++ PI ++ NE ++ ES ++ post))
    as (l & Hl & Hll & _).
  { rewrite Harr, <- !app_assoc. reflexivity. }
  { reflexivity. }
  { rewrite HL. reflexivity. }
  rewrite Hl. cbn [mbind outcome_bind].
  rewrite (Uint_at msg 8 8 L T (C ++ PT ++ PI ++ NE ++ ES ++ post))
    by (rewrite ?Harr, <- ?app_assoc; try reflexivity; unfold T; len_side).
  cbn [mbind outcome_bind].
  rewrite (Uint_at msg 16 8 (L ++ T) C (PT ++ PI ++ NE ++ ES ++ post))
    by (rewrite ?Harr, <- ?app_assoc; try reflexivity; unfold T, C; len_side).
  cbn [mbind outcome_bind].
  rewrite (Uint_at msg 24 8 (L ++ T ++ C) PT (PI ++ NE ++ ES ++ post))
    by (rewrite ?Harr, <- ?app_assoc; try reflexivity; unfold T, C, PT; len_side).
  cbn [mbind outcome_bind].
  rewrite (Uint_at msg 32 8 (L ++ T ++ C ++ PT) PI (NE ++ ES ++ post))
    by (rewrite ?Harr, <- ?app_assoc; try reflexivity; unfold T, C, PT, PI; len_side).
  cbn [mbind outcome_bind].
  rewrite (Uint_at msg 40 2 (L ++ T ++ C ++ PT ++ PI) NE (ES ++ post))
    by (rewrite ?Harr, <- ?app_assoc; try reflexivity; unfold T, C, PT, PI, NE; len_side).
  cbn [mbind outcome_bind].
  unfold NE at 1. rewrite le_value_le_bytes_small, Z.mod_small, Nat2Z.id by
    (rewrite ?Z.mod_small; change (2 ^ (8 * Z.of_nat 2)) with (2 ^ 16); lia).
  destruct (decode_entries_wire (ae_entries ae) Hes msg (L ++ T ++ C ++ PT ++ PI ++ NE) post 42 [])
    as (es' & Hdec & Hview).
  { rewrite Harr, <- !app_assoc. reflexivity. }
  { unfold T, C, PT, PI, NE. len_side. }
  { unfold T, C, PT, PI, NE. fold ES. len_side. }
  rewrite Hdec. cbn [mbind outcome_bind app].
  exists es'. split; [|exact Hview].
  rewrite Hll, Hmsg. unfold L, T, C, PT, PI.
  rewrite bytes_str_bytes, !le_value_le_bytes_small by (change (2 ^ (8 * Z.of_nat 8)) with (2 ^ 64); lia).
  reflexivity.
Qed.
Lemma flag_byte_eqb (b : bool) : Byte.eqb (flag_byte b) "001"%byte = b.
Proof. destruct b; reflexivity. Qed.

Lemma set_flag (buf : list byte) (i : nat) (b : bool) :
  (if b then Slice.set buf i "001"%byte else Slice.set buf i "000"%byte)
  = Slice.set buf i (flag_byte b).
Proof. destruct b; reflexivity. Qed.

Lemma appendEntryResponse_encode_wire (ar : appendEntryResponse) :
  wf_id (ar_peer ar) -> appendEntryResponse_encode ar = Done (ar_wire ar).
Proof.
  intros Hid. unfold wf_id in Hid.
  unfold appendEntryResponse_encode, Slice.make.
  change (Z.to_nat appendEntryResponseLen) with 25%nat.
  change (replicate 25 "000"%byte) with ([] ++ replicate 25 "000"%byte).
  rewrite PutUint_blank by len_side. cbn [mbind outcome_bind].
  rewrite PutUint_blank by len_side. cbn [mbind outcome_bind].
  rewrite copy_blank by len_side. cbn [mbind outcome_bind].
  rewrite set_flag, set_blank by len_side. cbn [mbind outcome_bind].
  rewrite length_str_bytes, Hid. cbn [replicate Nat.sub]. rewrite app_nil_r.
  rewrite firstn_all2 by len_side.
  unfold ar_wire. cbn [app]. rewrite <- !app_assoc. reflexivity.
Qed.

Lemma decodeAppendEntryResponse_wire (ar : appendEntryResponse) (msg : Slice.t) :
  wf_id (ar_peer ar) -> u64 (ar_term ar) -> u64 (ar_index ar) ->
  Slice.wf msg -> Slice.to_list msg = ar_wire ar ->
  decodeAppendEntryResponse msg
  = Done (Some (mkAR (ar_term ar) (ar_index ar) (ar_peer ar) (ar_success ar) EmptyString)).
Proof.
  unfold wf_id, u64. intros Hid Ht Hi Hwf Hmsg.
  pose proof (arr_to_list msg) as Harr. rewrite Hmsg in Harr.
  assert (Hlen : Slice.len msg = 25%nat).
  { rewrite <- (length_to_list msg Hwf), Hmsg. unfold ar_wire. len_side. }
  unfold ar_wire in Harr.
  set (post := drop (Slice.len msg) (Slice.arr msg)) in *.
  unfold decodeAppendEntryResponse. rewrite Hlen.
  change (negb (Z.of_nat 25 =? appendEntryResponseLen)) with false. cbv iota.
  rewrite (Uint_at msg 0 8 [] (le_bytes 8 (ar_term ar))
             (le_bytes 8 (ar_index ar) ++ str_bytes (ar_peer ar) ++ [flag_byte (ar_success ar)] ++ post))
    by (rewrite ?Harr, <- ?app_assoc; try reflexivity; len_side).
  cbn [mbind outcome_bind].
  rewrite (Uint_at msg 8 8 (le_bytes 8 (ar_term ar)) (le_bytes 8 (ar_index ar))
             (str_bytes (ar_peer ar) ++ [flag_byte (ar_success ar)] ++ post))
    by (rewrite ?Harr, <- ?app_assoc; try reflexivity; len_side).
  cbn [mbind outcome_bind].
  destruct (sub_at msg 16 (16 + idLen) (le_bytes 8 (ar_term ar) ++ le_bytes 8 (ar_index ar))
              (str_bytes (ar_peer ar)) ([flag_byte (ar_success ar)] ++ post))
    as (p & Hp & Hpl & _).
  { rewrite Harr, <- !app_assoc. reflexivity. }
  { len_side. }
  { unfold idLen. len_side. }
  rewrite Hp. cbn [mbind outcome_bind].
  rewrite (index_at msg 24 (le_bytes 8 (ar_term ar) ++ le_bytes 8 (ar_index ar) ++ str_bytes (ar_peer ar))
             (flag_byte (ar_success ar)) post)
    by (rewrite ?Harr, <- ?app_assoc; try reflexivity; len_side).
  cbn [mbind outcome_bind].
  rewrite Hpl, bytes_str_bytes, flag_byte_eqb,
    !le_value_le_bytes_small by (change (2 ^ (8 * Z.of_nat 8)) with (2 ^ 64); lia).
  reflexivity.
Qed.

Lemma voteRequest_encode_wire (vr : voteRequest) :
  wf_id (vr_candidate vr) -> voteRequest_encode vr = Done (vreq_wire vr).
Proof.
  intros Hid. unfold wf_id in Hid.
  unfold voteRequest_encode, Slice.make.
  change (Z.to_nat voteRequestLen) with 32%nat. change (Z.to_nat idLen) with 8%nat.
  change (replicate 32 "000"%byte) with ([] ++ replicate 32 "000"%byte).
  rewrite PutUint_blank by len_side. cbn [mbind outcome_bind].
  rewrite PutUint_blank by len_side. cbn [mbind outcome_bind].
  rewrite PutUint_blank by len_side. cbn [mbind outcome_bind].
  rewrite copy_blank by len_side. cbn [mbind outcome_bind].
  rewrite length_str_bytes, Hid. cbn [replicate Nat.sub]. rewrite app_nil_r.
  rewrite firstn_all2 by len_side.
  unfold vreq_wire. cbn [app]. rewrite <- !app_assoc. reflexivity.
Qed.

Lemma decodeVoteRequest_wire (vr : voteRequest) (msg : Slice.t) (reply : string) :
  wf_id (vr_candidate vr) -> u64 (vr_term vr) -> u64 (vr_lastTerm vr) -> u64 (vr_lastIndex vr) ->
  Slice.wf msg -> Slice.to_list msg = vreq_wire vr ->
  decodeVoteRequest msg reply
  = Done (Some (mkVReq (vr_term vr) (vr_lastTerm vr) (vr_lastIndex vr) (vr_candidate vr) reply)).
Proof.
  unfold wf_id, u64. intros Hid Ht Hlt Hli Hwf Hmsg.
  assert (Hlen : Slice.len msg = 32%nat).
  { rewrite <- (length_to_list msg Hwf), Hmsg. unfold vreq_wire. len_side. }
  unfold decodeVoteRequest. rewrite Hlen.
  change (negb (Z.of_nat 32 =? voteRequestLen)) with false. cbv iota zeta.
  rewrite Hmsg.
  set (m := Slice.of_list (vreq_wire vr)).
  assert (Harr : Slice.arr m = vreq_wire vr) by reflexivity.
  assert (Hm : Slice.len m = 32%nat) by (unfold m, Slice.of_list, vreq_wire; cbn [Slice.len]; len_side).
  unfold vreq_wire in Harr.
  rewrite (Uint_at m 0 8 [] (le_bytes 8 (vr_term vr))
             (le_bytes 8 (vr_lastTerm vr) ++ le_bytes 8 (vr_lastIndex vr) ++ str_bytes (vr_candidate vr)))
    by (rewrite ?Harr, <- ?app_assoc; try reflexivity; len_side).
  cbn [mbind outcome_bind].
  rewrite (Uint_at m 8 8 (le_bytes 8 (vr_term vr)) (le_bytes 8 (vr_lastTerm vr))
             (le_bytes 8 (vr_lastIndex vr) ++ str_bytes (vr_candidate vr)))
    by (rewrite ?Harr, <- ?app_assoc; try reflexivity; len_side).
  cbn [mbind outcome_bind].
  rewrite (Uint_at m 16 8 (le_bytes 8 (vr_term vr) ++ le_bytes 8 (vr_lastTerm vr))
             (le_bytes 8 (vr_lastIndex vr)) (str_bytes (vr_candidate vr) ++ []))
    by (rewrite ?Harr, ?app_nil_r, <- ?app_assoc; try reflexivity; len_side).
  cbn [mbind outcome_bind].
  destruct (sub_at m 24 (24 + idLen)
              (le_bytes 8 (vr_term vr) ++ le_bytes 8 (vr_lastTerm vr) ++ le_bytes 8 (vr_lastIndex vr))
              (str_bytes (vr_candidate vr)) [])
    as (p & Hp & Hpl & _).
  { rewrite Harr, app_nil_r, <- !app_assoc. reflexivity. }
  { len_side. }
  { unfold idLen. len_side. }
  rewrite Hp. cbn [mbind outcome_bind].
  rewrite Hpl, bytes_str_bytes,
    !le_value_le_bytes_small by (change (2 ^ (8 * Z.of_nat 8)) with (2 ^ 64); lia).
  reflexivity.
Qed.

Lemma voteResponse_encode_wire (vr : voteResponse) :
  wf_id (vresp_peer vr) -> voteResponse_encode vr = Done (vresp_wire vr).
Proof.
  intros Hid. unfold wf_id in Hid.
  unfold voteResponse_encode, Slice.make.
  change (Z.to_nat voteResponseLen) with 17%nat.
  change (replicate 17 "000"%byte) with ([] ++ replicate 17 "000"%byte).
  rewrite PutUint_blank by len_side. cbn [mbind outcome_bind].
  rewrite copy_blank by len_side. cbn [mbind outcome_bind].
  rewrite set_flag, set_blank by len_side. cbn [mbind outcome_bind].
  rewrite length_str_bytes, Hid. cbn [replicate Nat.sub]. rewrite app_nil_r.
  rewrite firstn_all2 by len_side.
  unfold vresp_wire. cbn [app]. rewrite <- !app_assoc. reflexivity.
Qed.

Lemma decodeVoteResponse_wire (vr : voteResponse) (msg : Slice.t) :
  wf_id (vresp_peer vr) -> u64 (vresp_term vr) ->
  Slice.wf msg -> Slice.to_list msg = vresp_wire vr ->
  decodeVoteResponse msg
  = Done (Some (mkVResp (vresp_term vr) (vresp_peer vr) (vresp_granted vr))).
Proof.
  unfold wf_id, u64. intros Hid Ht Hwf Hmsg.
  pose proof (arr_to_list msg) as Harr. rewrite Hmsg in Harr.
  assert (Hlen : Slice.len msg = 17%nat).
  { rewrite <- (length_to_list msg Hwf), Hmsg. unfold vresp_wire. len_side. }
  unfold vresp_wire in Harr.
  set (post := drop (Slice.len msg) (Slice.arr msg)) in *.
  unfold decodeVoteResponse. rewrite Hlen.
  change (negb (Z.of_nat 17 =? voteResponseLen)) with false. cbv iota.
  rewrite (Uint_at msg 0 8 [] (le_bytes 8 (vresp_term vr))
             (str_bytes (vresp_peer vr) ++ [flag_byte (vresp_granted vr)] ++ post))
    by (rewrite ?Harr, <- ?app_assoc; try reflexivity; len_side).
  cbn [mbind outcome_bind].
  destruct (sub_at msg 8 16 (le_bytes 8 (vresp_term vr))
              (str_bytes (vresp_peer vr)) ([flag_byte (vresp_granted vr)] ++ post))
    as (p & Hp & Hpl & _).
  { rewrite Harr, <- !app_assoc. reflexivity. }
  { len_side. }
  { len_side. }
  rewrite Hp. cbn [mbind outcome_bind].
  rewrite (index_at msg 16 (le_bytes 8 (vresp_term vr) ++ str_bytes (vresp_peer vr))
             (flag_byte (vresp_granted vr)) post)
    by (rewrite ?Harr, <- ?app_assoc; try reflexivity; len_side).
  cbn [mbind outcome_bind].
  rewrite Hpl, bytes_str_bytes, flag_byte_eqb,
    !le_value_le_bytes_small by (change (2 ^ (8 * Z.of_nat 8)) with (2 ^ 64); lia).
  reflexivity.
Qed.
Lemma length_peers_bytes (ps : list string) :
  Forall wf_id ps -> length (peers_bytes ps) = (8 * length ps)%nat.
Proof.
  induction 1 as [|p ps Hp Hps IH]; [reflexivity|].
  unfold peers_bytes in *. cbn [map concat length].
  rewrite length_app, IH, length_str_bytes, Hp. lia.
Qed.

Lemma encode_peers_blank (ps : list string) (pre : list byte) (k wi : nat) :
  Forall wf_id ps -> wi = length pre -> (8 * length ps <= k)%nat ->
  encode_peers ps (pre ++ replicate k "000"%byte) wi
  = Done ((pre ++ peers_bytes ps) ++ replicate (k - 8 * length ps) "000"%byte).
Proof.
  intros Hwf. revert pre k wi.
  induction Hwf as [|p ps Hp Hps IH]; intros pre k wi -> Hk.
  - cbn. rewrite app_nil_r, Nat.sub_0_r. reflexivity.
  - cbn [encode_peers length] in *. unfold wf_id in Hp.
    rewrite copy_blank by len_side.
    cbn [mbind outcome_bind].
    rewrite IH by (change (Z.to_nat idLen) with 8%nat; len_side).
    unfold peers_bytes. cbn [map concat]. rewrite length_str_bytes, Hp, <- !app_assoc.
    replace (k - 8 - 8 * length ps)%nat with (k - 8 * S (length ps))%nat by lia.
    reflexivity.
Qed.

Lemma encodePeerState_wire (ps : peerState) :
  Forall wf_id (knownPeers ps) -> encodePeerState ps = Done (ps_wire ps).
Proof.
  intros Hwf. unfold encodePeerState, Slice.make.
  change (replicate ?n "000"%byte) with ([] ++ replicate n "000"%byte).
  rewrite PutUint_blank by len_side. cbn [mbind outcome_bind].
  rewrite PutUint_blank by len_side. cbn [mbind outcome_bind].
  rewrite encode_peers_blank by (done || len_side).
  replace (4 + 4 + 8 * length (knownPeers ps) - 4 - 4 - 8 * length (knownPeers ps))%nat
    with 0%nat by lia.
  cbn [replicate]. rewrite app_nil_r. unfold ps_wire, peers_bytes. cbn [app].
  rewrite <- !app_assoc. reflexivity.
Qed.

(** The fuel of [decode_peers] is never the reason to stop: with more
    than [len(buf) - ri] of it, any larger amount gives the same. *)
Lemma decode_peers_fuel (fuel fuel' : nat) (buf : Slice.t) (i ri n : Z) (acc : list string) :
  Z.of_nat (Slice.len buf) - ri < Z.of_nat fuel -> (fuel <= fuel')%nat ->
  decode_peers fuel buf i ri n acc = decode_peers fuel' buf i ri n acc.
Proof.
  revert fuel' i ri acc. induction fuel as [|k IH]; intros fuel' i ri acc Hm Hle.
  - destruct fuel' as [|k']; [reflexivity|].
    cbn [decode_peers].
    destruct (Z.ltb_spec ri (Z.of_nat (Slice.len buf))); [lia|].
    rewrite andb_false_r. reflexivity.
  - destruct fuel' as [|k']; [lia|]. cbn [decode_peers].
    destruct ((i <? n) && (ri <? Z.of_nat (Slice.len buf))) eqn:E; [|reflexivity].
    apply andb_true_iff in E as [_ E]. apply Z.ltb_lt in E.
    destruct (Slice.sub buf ri (ri + idLen)) as [p|]; [|reflexivity].
    cbn [mbind outcome_bind]. apply IH; unfold idLen; lia.
Qed.

Lemma decode_peers_wire (ps : list string) :
  Forall wf_id ps ->
  forall (fuel : nat) (buf : Slice.t) (pre post : list byte) (i ri n : Z) (acc : list string),
    Slice.arr buf = pre ++ peers_bytes ps ++ post ->
    ri = Z.of_nat (length pre) -> n = i + Z.of_nat (length ps) ->
    (length pre + 8 * length ps <= Slice.len buf)%nat ->
    (length ps < fuel)%nat ->
    decode_peers fuel buf i ri n acc = Done (acc ++ ps).
Proof.
  induction 1 as [|p ps Hp Hps IH]; intros fuel buf pre post i ri n acc Harr -> -> Hlen Hfuel.
  - destruct fuel as [|k]; [cbn in Hfuel; lia|].
    cbn [decode_peers length]. rewrite Z.add_0_r, Z.ltb_irrefl, app_nil_r. reflexivity.
  - destruct fuel as [|k]; [lia|]. cbn [decode_peers length] in *.
    unfold wf_id in Hp.
    destruct (Z.ltb_spec i (i + Z.of_nat (S (length ps)))); [|lia].
    destruct (Z.ltb_spec (Z.of_nat (length pre)) (Z.of_nat (Slice.len buf))); [|lia].
    cbn [andb].
    unfold peers_bytes in Harr. cbn [map concat] in Harr. fold (peers_bytes ps) in Harr.
    destruct (sub_at buf (Z.of_nat (length pre)) (Z.of_nat (length pre) + idLen)
                pre (str_bytes p) (peers_bytes ps ++ post)) as (d & Hd & Hdl & _).
    { rewrite Harr, <- !app_assoc. reflexivity. }
    { reflexivity. }
    { unfold idLen. len_side. }
    rewrite Hd. cbn [mbind outcome_bind].
    rewrite (IH k buf (pre ++ str_bytes p) post); rewrite ?Hdl, ?bytes_str_bytes.
    + rewrite <- app_assoc. reflexivity.
    + rewrite Harr, <- !app_assoc. reflexivity.
    + unfold idLen. len_side.
    + lia.
    + len_side.
    + lia.
Qed.

Lemma decodePeerState_wire (ps : peerState) (buf : Slice.t) :
  Forall wf_id (knownPeers ps) -> u32 (clusterSize ps) ->
  Z.of_nat (length (knownPeers ps)) < 2 ^ 32 ->
  Slice.wf buf -> Slice.to_list buf = ps_wire ps ->
  decodePeerState buf = Done (inr ps).
Proof.
  unfold u32. intros Hwf Hc Hn Hbuf Hmsg.
  pose proof (arr_to_list buf) as Harr. rewrite Hmsg in Harr.
  assert (Hlen : Slice.len buf = (8 + 8 * length (knownPeers ps))%nat).
  { rewrite <- (length_to_list buf Hbuf), Hmsg. unfold ps_wire.
    fold (peers_bytes (knownPeers ps)).
    rewrite !length_app, !length_le_bytes, length_peers_bytes by done. lia. }
  unfold ps_wire in Harr. fold (peers_bytes (knownPeers ps)) in Harr.
  set (post := drop (Slice.len buf) (Slice.arr buf)) in *.
  set (C := le_bytes 4 (clusterSize ps `mod` 2 ^ 32)) in *.
  set (N := le_bytes 4 (Z.of_nat (length (knownPeers ps)) `mod` 2 ^ 32)) in *.
  unfold decodePeerState.
  destruct (Z.ltb_spec (Z.of_nat (Slice.len buf)) 8); [lia|].
  rewrite (Uint_at buf 0 4 [] C (N ++ peers_bytes (knownPeers ps) ++ post))
    by (rewrite ?Harr, <- ?app_assoc; try reflexivity; unfold C; len_side).
  cbn [mbind outcome_bind].
  rewrite (Uint_at buf 4 4 C N (peers_bytes (knownPeers ps) ++ post))
    by (rewrite ?Harr, <- ?app_assoc; try reflexivity; unfold C, N; len_side).
  cbn [mbind outcome_bind].
  unfold Slice.from.
  destruct (Z.leb_spec 8 (Z.of_nat (Slice.len buf))); [|lia].
  change (0 <=? 8) with true. cbn [andb mbind outcome_bind].
  change (Z.to_nat 8) with 8%nat.
  assert (HN : le_value N = Z.of_nat (length (knownPeers ps))).
  { unfold N. rewrite le_value_le_bytes_small; rewrite Z.mod_small by lia; [done|].
    change (2 ^ (8 * Z.of_nat 4)) with (2 ^ 32). lia. }
  assert (HC : le_value C = clusterSize ps).
  { unfold C. rewrite le_value_le_bytes_small; rewrite Z.mod_small by lia; [done|].
    change (2 ^ (8 * Z.of_nat 4)) with (2 ^ 32). lia. }
  rewrite HN, HC.
  rewrite (decode_peers_wire (knownPeers ps) Hwf _ _ [] post).
  - cbn [mbind outcome_bind app].
    rewrite Z.eqb_refl. cbn [negb]. destruct ps; reflexivity.
  - cbn [Slice.arr app]. rewrite Harr, <- !app_assoc, (app_assoc C N).
    apply drop_app_length'. unfold C, N. len_side.
  - reflexivity.
  - lia.
  - cbn [Slice.len length]. lia.
  - cbn [Slice.len]. lia.
Qed.

(** ** C8: decode after encode *)

(** C8.  For each of the five wire formats, decoding what the encoder
    wrote gives back the value: for a well-formed append entry, append
    entry response, vote request, vote response and peer state (ids of
    exactly 8 bytes, integers within their declared widths, at most
    2^16 - 1 entries, each with length + 1 below 2^32), the encoder
    returns, and the decoder run on any slice holding the encoded bytes
    returns a value with the same wire fields. *)
Theorem codec_roundtrip (ae : appendEntry) (ar : appendEntryResponse) (vq : voteRequest)
    (vp : voteResponse) (ps : peerState) (reply : string) :
  wf_appendEntry ae -> wf_appendEntryResponse ar -> wf_voteRequest vq ->
  wf_voteResponse vp -> wf_peerState ps ->
  decodes_back (appendEntry_encode ae) (fun msg => decodeAppendEntry msg reply)
               (fun r => r) (fun ae' => ae_same_fields ae' ae)
  /\ decodes_back (appendEntryResponse_encode ar) decodeAppendEntryResponse
                  (fun r => r) (fun ar' => ar_same_fields ar' ar)
  /\ decodes_back (voteRequest_encode vq) (fun msg => decodeVoteRequest msg reply)
                  (fun r => r) (fun vq' => vreq_same_fields vq' vq)
  /\ decodes_back (voteResponse_encode vp) decodeVoteResponse
                  (fun r => r) (fun vp' => vp' = vp)
  /\ decodes_back (encodePeerState ps) decodePeerState inr_some (fun ps' => ps' = ps).
Proof.
  intros Hae (Hari & Hart & Harx) (Hqi & Hqt & Hqlt & Hqli) (Hpi & Hpt) (Hsi & Hsc & Hsn).
  repeat split.
  - exists (ae_wire ae). split.
    + apply appendEntry_encode_wire; [apply Hae | apply wf_entries_data, Hae].
    + intros msg Hwf Hmsg.
      destruct (decodeAppendEntry_wire ae msg reply Hae Hwf Hmsg) as (es' & Hdec & Hview).
      eexists _, _. split; [exact Hdec|]. split; [reflexivity|].
      unfold ae_same_fields. cbn. auto 10.
  - exists (ar_wire ar). split; [apply appendEntryResponse_encode_wire, Hari|].
    intros msg Hwf Hmsg.
    rewrite (decodeAppendEntryResponse_wire ar msg) by assumption.
    eexists _, _. split; [reflexivity|]. split; [reflexivity|].
    unfold ar_same_fields. cbn. auto.
  - exists (vreq_wire vq). split; [apply voteRequest_encode_wire, Hqi|].
    intros msg Hwf Hmsg.
    rewrite (decodeVoteRequest_wire vq msg reply) by assumption.
    eexists _, _. split; [reflexivity|]. split; [reflexivity|].
    unfold vreq_same_fields. cbn. auto.
  - exists (vresp_wire vp). split; [apply voteResponse_encode_wire, Hpi|].
    intros msg Hwf Hmsg.
    rewrite (decodeVoteResponse_wire vp msg) by assumption.
    eexists _, _. split; [reflexivity|]. split; [reflexivity|].
    destruct vp; reflexivity.
  - exists (ps_wire ps). split; [apply encodePeerState_wire, Hsi|].
    intros msg Hwf Hmsg.
    rewrite (decodePeerState_wire ps msg) by assumption.
    eexists _, _. split; [reflexivity|]. split; reflexivity.
Qed.

Lemma sample_entries_wf : Forall wf_entry sample_entries.
Proof.
  repeat constructor; cbn; lia.
Qed.

Lemma codec_roundtrip_witness :
  wf_appendEntry sample_ae /\ wf_appendEntryResponse sample_ar /\ wf_voteRequest sample_vreq
  /\ wf_voteResponse sample_vresp /\ wf_peerState sample_ps
  /\ decodes_back (appendEntry_encode sample_ae) (fun msg => decodeAppendEntry msg "reply")
                  (fun r => r) (fun ae' => ae_same_fields ae' sample_ae).
Proof.
  assert (H1 : wf_appendEntry sample_ae).
  { constructor; unfold u64, wf_id; cbn; try lia; try reflexivity. apply sample_entries_wf. }
  assert (H2 : wf_appendEntryResponse sample_ar).
  { unfold wf_appendEntryResponse, u64, wf_id; cbn. repeat split; lia. }
  assert (H3 : wf_voteRequest sample_vreq).
  { unfold wf_voteRequest, u64, wf_id; cbn. repeat split; lia. }
  assert (H4 : wf_voteResponse sample_vresp).
  { unfold wf_voteResponse, u64, wf_id; cbn. repeat split; lia. }
  assert (H5 : wf_peerState sample_ps).
  { unfold wf_peerState, u32, wf_id; cbn. repeat split; try lia. repeat constructor. }
  repeat (split; [assumption|]).
  exact (proj1 (codec_roundtrip sample_ae sample_ar sample_vreq sample_vresp sample_ps
                  "reply" H1 H2 H3 H4 H5)).
Defined.

(** ** C9: what the decoders do with malformed input *)

Lemma decode_entries_past_end (cnt : nat) (msg : Slice.t) (ri : Z) (acc : list Entry) :
  Z.of_nat (Slice.len msg) - 4 < ri ->
  decode_entries (S cnt) msg ri acc = Panic.
Proof.
  intros Hri. cbn [decode_entries]. unfold Slice.from.
  destruct ((0 <=? ri) && (ri <=? Z.of_nat (Slice.len msg))) eqn:E; [|reflexivity].
  apply andb_true_iff in E as [E1 E2]. apply Z.leb_le in E1, E2.
  cbn [mbind outcome_bind]. unfold Slice.Uint. cbn [Slice.len].
  destruct (Nat.leb_spec 4 (Slice.len msg - Z.to_nat ri)); [lia|reflexivity].
Qed.

Lemma truncated_ae_msg_length : length truncated_ae_msg = 42%nat.
Proof. reflexivity. Qed.

Lemma decodeAppendEntry_truncated (spare : list byte) (reply : string) :
  decodeAppendEntry (Slice.mk (truncated_ae_msg ++ spare) 42) reply = Panic.
Proof.
  set (msg := Slice.mk (truncated_ae_msg ++ spare) 42).
  assert (Harr : Slice.arr msg = truncated_ae_msg ++ spare) by reflexivity.
  unfold truncated_ae_msg in Harr.
  unfold decodeAppendEntry. cbn [Slice.len msg].
  change (Z.of_nat 42 <? appendEntryBaseLen) with false. cbv iota.
  destruct (sub_at msg 0 idLen [] (str_bytes "nodeAAAA")
              (le_bytes 8 1 ++ le_bytes 8 0 ++ le_bytes 8 0 ++ le_bytes 8 0 ++ le_bytes 2 1 ++ spare))
    as (l & Hl & _).
  { rewrite Harr, <- !app_assoc. reflexivity. }
  { reflexivity. }
  { reflexivity. }
  rewrite Hl. cbn [mbind outcome_bind].
  rewrite (Uint_at msg 8 8 (str_bytes "nodeAAAA") (le_bytes 8 1)
             (le_bytes 8 0 ++ le_bytes 8 0 ++ le_bytes 8 0 ++ le_bytes 2 1 ++ spare))
    by (rewrite ?Harr, <- ?app_assoc; try reflexivity; cbn; lia).
  cbn [mbind outcome_bind].
  rewrite (Uint_at msg 16 8 (str_bytes "nodeAAAA" ++ le_bytes 8 1) (le_bytes 8 0)
             (le_bytes 8 0 ++ le_bytes 8 0 ++ le_bytes 2 1 ++ spare))
    by (rewrite ?Harr, <- ?app_assoc; try reflexivity; cbn; lia).
  cbn [mbind outcome_bind].
  rewrite (Uint_at msg 24 8 (str_bytes "nodeAAAA" ++ le_bytes 8 1 ++ le_bytes 8 0) (le_bytes 8 0)
             (le_bytes 8 0 ++ le_bytes 2 1 ++ spare))
    by (rewrite ?Harr, <- ?app_assoc; try reflexivity; cbn; lia).
  cbn [mbind outcome_bind].
  rewrite (Uint_at msg 32 8 (str_bytes "nodeAAAA" ++ le_bytes 8 1 ++ le_bytes 8 0 ++ le_bytes 8 0)
             (le_bytes 8 0) (le_bytes 2 1 ++ spare))
    by (rewrite ?Harr, <- ?app_assoc; try reflexivity; cbn; lia).
  cbn [mbind outcome_bind].
  rewrite (Uint_at msg 40 2
             (str_bytes "nodeAAAA" ++ le_bytes 8 1 ++ le_bytes 8 0 ++ le_bytes 8 0 ++ le_bytes 8 0)
             (le_bytes 2 1) spare)
    by (rewrite ?Harr, <- ?app_assoc; try reflexivity; cbn; lia).
  cbn [mbind outcome_bind].
  change (Z.to_nat (le_value (le_bytes 2 1))) with 1%nat.
  rewrite decode_entries_past_end by (cbn; lia).
  reflexivity.
Qed.

Ltac in_bounds :=
  repeat (cbn [andb mbind outcome_bind Slice.len Slice.arr];
          match goal with
          | |- context [Z.leb ?a ?b] => destruct (Z.leb_spec a b); [|lia]
          | |- context [Z.ltb ?a ?b] => destruct (Z.ltb_spec a b); [|lia]
          | |- context [Nat.leb ?a ?b] => destruct (Nat.leb_spec a b); [|lia]
          end);
  cbn [andb mbind outcome_bind Slice.len Slice.arr].

(** The three decoders of fixed-size messages never fault. *)
Lemma decodeAppendEntryResponse_total (msg : Slice.t) :
  Slice.wf msg -> returns (decodeAppendEntryResponse msg).
Proof.
  unfold Slice.wf, Slice.cap, returns. intros Hwf. unfold decodeAppendEntryResponse.
  destruct (Z.eqb_spec (Z.of_nat (Slice.len msg)) appendEntryResponseLen) as [E|E];
    cbn [negb]; [|eauto].
  unfold appendEntryResponseLen in E.
  unfold Slice.from, Slice.Uint, Slice.sub, Slice.index, Slice.cap, idLen. cbn [Slice.len Slice.arr].
  in_bounds.
  destruct (lookup_lt_is_Some_2 (Slice.arr msg) (Z.to_nat 24)) as [b Hb]; [lia|].
  rewrite Hb. eauto.
Qed.

Lemma decodeVoteResponse_total (msg : Slice.t) :
  Slice.wf msg -> returns (decodeVoteResponse msg).
Proof.
  unfold Slice.wf, Slice.cap, returns. intros Hwf. unfold decodeVoteResponse.
  destruct (Z.eqb_spec (Z.of_nat (Slice.len msg)) voteResponseLen) as [E|E];
    cbn [negb]; [|eauto].
  unfold voteResponseLen in E.
  unfold Slice.from, Slice.Uint, Slice.sub, Slice.index, Slice.cap. cbn [Slice.len Slice.arr].
  in_bounds.
  destruct (lookup_lt_is_Some_2 (Slice.arr msg) (Z.to_nat 16)) as [b Hb]; [lia|].
  rewrite Hb. eauto.
Qed.

Lemma decodeVoteRequest_total (msg : Slice.t) (reply : string) :
  Slice.wf msg -> returns (decodeVoteRequest msg reply).
Proof.
  unfold Slice.wf, Slice.cap, returns. intros Hwf. unfold decodeVoteRequest.
  destruct (Z.eqb_spec (Z.of_nat (Slice.len msg)) voteRequestLen) as [E|E];
    cbn [negb]; [|eauto].
  unfold voteRequestLen, idLen in E. cbv zeta.
  assert (Hl : length (Slice.to_list msg) = 32%nat).
  { unfold Slice.to_list. rewrite length_take. lia. }
  unfold Slice.from, Slice.Uint, Slice.sub, Slice.cap, Slice.of_list, idLen.
  cbn [Slice.len Slice.arr]. rewrite Hl.
  cbn. eauto.
Qed.

(** The handlers of vote messages leave the node as it is on a nil
    decode. *)
Lemma handleVoteResponse_nil {W : Type} (msg : Slice.t) (n : @raft W) :
  decodeVoteResponse msg = Done None -> handleVoteResponse msg n = Done n.
Proof. intros H. unfold handleVoteResponse. rewrite H. reflexivity. Qed.

Lemma handleVoteRequest_nil {W : Type} (reply : string) (msg : Slice.t) (n : @raft W) :
  decodeVoteRequest msg reply = Done None -> handleVoteRequest reply msg n = Done n.
Proof. intros H. unfold handleVoteRequest. rewrite H. reflexivity. Qed.

Lemma handleAppendEntry_nil {W : Type} `{WAL W} (digits : list byte) (base : Z)
    (replySuffixLen : nat) (sub : option subscription) (reply : string) (msg : Slice.t)
    (n : @raft W) :
  decodeAppendEntry msg reply = Done None ->
  handleAppendEntry digits base replySuffixLen sub reply msg n = Done n.
Proof. intros E. unfold handleAppendEntry. rewrite E. reflexivity. Qed.

(** C9.  The code at three malformed inputs.  An append entry of 42
    bytes whose count field says 1 makes [decodeAppendEntry] fault,
    whatever lies behind the message in its buffer, and so does the
    handler; a short message on the append-entry reply subject, arriving
    with a reply subject, makes [handleAppendEntryResponse] fault; the
    same message without a reply subject is not dropped but put on the
    response channel as nil. *)
Theorem decode_faults_on_malformed {W : Type} `{WAL W} (digits : list byte) (base : Z)
    (replySuffixLen : nat) (spare : list byte) (sub : option subscription) (reply : string)
    (n : @raft W) :
  decodeAppendEntry (Slice.mk (truncated_ae_msg ++ spare) 42) reply = Panic
  /\ handleAppendEntry digits base replySuffixLen sub reply
       (Slice.mk (truncated_ae_msg ++ spare) 42) n = Panic
  /\ handleAppendEntryResponse "inbox" (Slice.of_list []) n = Panic
  /\ handleAppendEntryResponse EmptyString (Slice.of_list []) (set_resp [] n)
     = Done (set_resp [None] (set_resp [] n)).
Proof.
  split; [apply decodeAppendEntry_truncated|].
  split; [unfold handleAppendEntry; rewrite decodeAppendEntry_truncated; reflexivity|].
  split; reflexivity.
Qed.

(** ** The entry loop of [applyCommit] *)

Lemma PutUint_returns (w : nat) (buf : list byte) (off : nat) (v : Z) :
  (off + w <= length buf)%nat ->
  exists buf', Slice.PutUint w buf off v = Done buf' /\ length buf' = length buf.
Proof.
  intros H. unfold Slice.PutUint.
  destruct (Nat.leb_spec (off + w) (length buf)); [|lia].
  eexists. split; [reflexivity|].
  rewrite !length_app, length_take, length_drop, length_le_bytes. lia.
Qed.

Lemma copy_returns (buf : list byte) (lo hi : nat) (src : list byte) :
  (lo <= hi)%nat -> (hi <= length buf)%nat ->
  exists buf', Slice.copy buf lo hi src = Done buf' /\ length buf' = length buf.
Proof.
  intros H1 H2. unfold Slice.copy.
  destruct (Nat.leb_spec lo hi); [|lia].
  destruct (Nat.leb_spec hi (length buf)); [|lia].
  cbn [andb]. eexists. split; [reflexivity|].
  rewrite !length_app, !length_take, length_drop. lia.
Qed.

Lemma encode_peers_returns (ps : list string) (buf : list byte) (wi : nat) :
  (wi + 8 * length ps <= length buf)%nat -> returns (encode_peers ps buf wi).
Proof.
  revert buf wi. induction ps as [|p ps IH]; intros buf wi H.
  - eexists. reflexivity.
  - cbn [encode_peers length] in *.
    destruct (copy_returns buf wi (length buf) (str_bytes p)) as (buf' & -> & Hlen); [lia..|].
    cbn [mbind outcome_bind]. apply IH. change (Z.to_nat idLen) with 8%nat. lia.
Qed.

Lemma encodePeerState_returns (ps : peerState) : returns (encodePeerState ps).
Proof.
  unfold encodePeerState.
  destruct (PutUint_returns 4 (Slice.make (4 + 4 + 8 * length (knownPeers ps))) 0
              (clusterSize ps mod 2 ^ 32)) as (b1 & -> & H1).
  { unfold Slice.make. rewrite length_replicate. lia. }
  cbn [mbind outcome_bind].
  destruct (PutUint_returns 4 b1 4 (Z.of_nat (length (knownPeers ps)) mod 2 ^ 32))
    as (b2 & -> & H2).
  { rewrite H1. unfold Slice.make. rewrite length_replicate. lia. }
  cbn [mbind outcome_bind]. apply encode_peers_returns.
  rewrite H2, H1. unfold Slice.make. rewrite length_replicate. lia.
Qed.

Section ApplyEntries.

Context {W : Type} {walOps : WAL W}.
Implicit Types (n : @raft W) (es acc : list Entry).

Lemma unchanged_by_apply_refl n : unchanged_by_apply n n.
Proof. unfold unchanged_by_apply. tauto. Qed.

Lemma unchanged_by_apply_trans n1 n2 n3 :
  unchanged_by_apply n1 n2 -> unchanged_by_apply n2 n3 -> unchanged_by_apply n1 n3.
Proof. unfold unchanged_by_apply. intuition congruence. Qed.

Lemma writePeerState_spec (ps : peerState) n :
  exists buf, writePeerState ps n
              = Done (set_host (set_peerStateFile (Some buf) (host n)) n).
Proof.
  unfold writePeerState. destruct (encodePeerState_returns ps) as [buf ->].
  exists buf. reflexivity.
Qed.

Lemma processPeerState_spec (ps : peerState) n :
  exists n', processPeerState ps n = Done n'
             /\ csz n' = clusterSize ps /\ qn n' = qn n /\ unchanged_by_apply n n'.
Proof.
  unfold processPeerState.
  match goal with |- context [writePeerState ps ?m] =>
    destruct (writePeerState_spec ps m) as [buf ->] end.
  eexists. split; [reflexivity|]. cbn. unfold unchanged_by_apply. cbn. tauto.
Qed.

Lemma apply_entries_spec es :
  Forall peerstate_readable es ->
  forall acc n,
    exists n', apply_entries es acc n = Done (acc ++ filter (fun e => deliverable e = true) es, n')
               /\ unchanged_by_apply n n'.
Proof.
  induction 1 as [|e es He Hes IH]; intros acc n.
  - exists n. cbn. rewrite app_nil_r. split; [reflexivity|apply unchanged_by_apply_refl].
  - cbn [apply_entries].
    destruct (Byte.eqb (Typ e) EntryNormal) eqn:E1.
    { rewrite filter_cons_True by (unfold deliverable; rewrite E1; reflexivity).
      destruct (IH (acc ++ [e]) n) as (n' & -> & Hn').
      exists n'. rewrite <- app_assoc. done. }
    destruct (Byte.eqb (Typ e) EntrySnapshot) eqn:E2.
    { rewrite filter_cons_True by (unfold deliverable; rewrite E1, E2; reflexivity).
      destruct (IH (acc ++ [e]) n) as (n' & -> & Hn').
      exists n'. rewrite <- app_assoc. done. }
    rewrite filter_cons_False by (unfold deliverable; rewrite E1, E2; discriminate).
    destruct (Byte.eqb (Typ e) EntryPeerState) eqn:E3.
    { apply Byte.byte_dec_bl in E3. destruct (He E3) as [r ->].
      cbn [mbind outcome_bind].
      destruct r as [err|ps].
      - cbn [mbind outcome_bind]. apply IH.
      - destruct (processPeerState_spec ps n) as (n1 & -> & _ & _ & H1).
        cbn [mbind outcome_bind].
        destruct (IH acc n1) as (n' & -> & Hn').
        exists n'. split; [reflexivity|]. eapply unchanged_by_apply_trans; eassumption. }
    destruct (Byte.eqb (Typ e) EntryAddPeer) eqn:E4; [|apply IH].
    match goal with |- context [writePeerState ?ps ?m] =>
      destruct (writePeerState_spec ps m) as [buf ->];
      assert (H1 : unchanged_by_apply n (set_host (set_peerStateFile (Some buf) (host m)) m))
    end.
    { destruct (peers n !! bytes_str (Slice.to_list (Data e)));
        unfold unchanged_by_apply; cbn; tauto. }
    cbn [mbind outcome_bind].
    match goal with |- context [apply_entries es acc ?m] =>
      destruct (IH acc m) as (n' & -> & Hn') end.
    exists n'. split; [reflexivity|]. eapply unchanged_by_apply_trans; eassumption.
Qed.

End ApplyEntries.

(** ** C4: [applyCommit] and the commit index *)

Section ApplyCommit.

Context {W : Type} {walOps : WAL W}.
Implicit Types (n : @raft W) (index : Z).





End ApplyCommit.



(** ** C3: cluster size and quorum *)

Section Quorum.

Context {W : Type} {walOps : WAL W}.
Implicit Types (n : @raft W).

(** A PeerState entry replaces the cluster size and leaves the quorum
    as it was. *)
Lemma processPeerState_quorum (ps : peerState) n :
  exists n', processPeerState ps n = Done n' /\ csz n' = clusterSize ps /\ qn n' = qn n.
Proof.
  destruct (processPeerState_spec ps n) as (n' & E & Hc & Hq & _). eauto.
Qed.

(** An AddPeer entry for an unknown peer moves both. *)
Lemma addPeer_quorum (d : Slice.t) (acc : list Entry) n :
  peers n !! bytes_str (Slice.to_list d) = None ->
  exists n', apply_entries [mkEntry EntryAddPeer d] acc n = Done (acc, n')
             /\ csz n' = wrapInt (csz n + 1)
             /\ qn n' = wrapInt (Z.quot (csz n') 2 + 1).
Proof.
  intros Hnew. cbn [apply_entries Typ Data]. change (Byte.eqb EntryAddPeer EntryNormal) with false.
  change (Byte.eqb EntryAddPeer EntrySnapshot) with false.
  change (Byte.eqb EntryAddPeer EntryPeerState) with false.
  change (Byte.eqb EntryAddPeer EntryAddPeer) with true. cbv iota.
  rewrite Hnew.
  match goal with |- context [writePeerState ?ps ?m] =>
    destruct (writePeerState_spec ps m) as [buf ->] end.
  cbn [mbind outcome_bind]. eexists. split; [reflexivity|]. cbn. split; reflexivity.
Qed.

Lemma wrapInt_small (z : Z) : - 2 ^ 63 <= z < 2 ^ 63 -> wrapInt z = z.
Proof. intros H. unfold wrapInt. rewrite Z.mod_small; lia. Qed.

Lemma addPeer_quorum_floor (d : Slice.t) (acc : list Entry) n :
  peers n !! bytes_str (Slice.to_list d) = None -> 0 <= csz n < 2 ^ 62 ->
  exists n', apply_entries [mkEntry EntryAddPeer d] acc n = Done (acc, n')
             /\ csz n' = csz n + 1 /\ qn n' = csz n' / 2 + 1.
Proof.
  intros Hnew Hc. destruct (addPeer_quorum d acc n Hnew) as (n' & E & Hcsz & Hqn).
  exists n'. split; [exact E|].
  rewrite wrapInt_small in Hcsz by lia.
  rewrite Hqn, Hcsz. split; [reflexivity|].
  rewrite Z.quot_div_nonneg by lia.
  apply wrapInt_small.
  assert (0 <= (csz n + 1) / 2 <= csz n + 1).
  { split; [apply Z.div_pos; lia|]. apply Z.div_le_upper_bound; lia. }
  lia.
Qed.

End Quorum.

(** C3.  The code at a PeerState entry.  A follower with cluster size
    3 and quorum 2 commits index 1, where the log holds a PeerState
    entry naming five peers with cluster size 5: the apply succeeds,
    the cluster size becomes 5 and the quorum stays 2, which is not
    5/2 + 1. *)
Theorem peerstate_apply_keeps_old_quorum :
  exists n', applyCommit 1 (sample_node (log_of [ae_five_peers])) = Done (None, n')
             /\ csz n' = 5 /\ qn n' = 2 /\ qn n' <> csz n' / 2 + 1.
Proof.
  eexists. split; [vm_compute; reflexivity|].
  repeat split; try reflexivity. vm_compute. discriminate.
Qed.

(** ** C10: [Compact] on a leader *)

Lemma Compact_leader_result {W : Type} `{WAL W} (n : @raft W) (index : Z) :
  state n = Leader ->
  Compact index n
  = if existsb (fun kv => negb (bool_decide (fst kv = id n)) && (li (snd kv) <? index))
               (map_to_list (peers n))
    then (Some errPeersNotCurrent, n) else (None, n).
Proof.
  intros Hl. unfold Compact. rewrite Hl, bool_decide_eq_true_2 by reflexivity. reflexivity.
Qed.

(** C10.  On a leader, [Compact(i)] hands back the node as it was,
    whatever the log's own [Compact] would do: the log is not called.
    It returns nil exactly when every peer other than the node itself
    has a last-replicated index of at least [i]. *)
Theorem Compact_on_leader {W : Type} `{WAL W} (n : @raft W) (index : Z) :
  state n = Leader ->
  snd (Compact index n) = n
  /\ (fst (Compact index n) = None
      <-> forall peer ps, peers n !! peer = Some ps -> peer <> id n -> index <= li ps).
Proof.
  intros Hl. rewrite Compact_leader_result by exact Hl.
  destruct (existsb _ _) eqn:E; cbn [fst snd]; (split; [reflexivity|]).
  - split; [discriminate|]. intros Hall. exfalso.
    apply existsb_exists in E as ([peer ps] & Hin & Hc).
    apply list_elem_of_In, elem_of_map_to_list in Hin.
    cbn [fst snd] in Hc. apply andb_true_iff in Hc as [Hne Hlt].
    apply negb_true_iff, bool_decide_eq_false in Hne. apply Z.ltb_lt in Hlt.
    specialize (Hall peer ps Hin Hne). lia.
  - split; [|reflexivity]. intros _ peer ps Hin Hne.
    destruct (Z.le_gt_cases index (li ps)) as [|Hlt]; [assumption|]. exfalso.
    assert (Hex : existsb (fun kv => negb (bool_decide (fst kv = id n)) && (li (snd kv) <? index))
                    (map_to_list (peers n)) = true).
    { apply existsb_exists. exists (peer, ps). split.
      - apply list_elem_of_In, elem_of_map_to_list, Hin.
      - cbn [fst snd]. apply andb_true_iff. split.
        + apply negb_true_iff, bool_decide_eq_false, Hne.
        + apply Z.ltb_lt. lia. }
    congruence.
Qed.

Lemma Compact_on_leader_witness :
  state (sample_leader (mkCounting 0)) = Leader
  /\ snd (Compact 10 (sample_leader (mkCounting 0))) = sample_leader (mkCounting 0)
  /\ (fst (Compact 10 (sample_leader (mkCounting 0))) = None
      <-> forall peer ps, peers (sample_leader (mkCounting 0)) !! peer = Some ps ->
                          peer <> id (sample_leader (mkCounting 0)) -> 10 <= li ps).
Proof.
  split; [reflexivity|].
  exact (Compact_on_leader (sample_leader (mkCounting 0)) 10 eq_refl).
Defined.

(** The counting log sees no call from a leader, and one from a follower. *)
Lemma Compact_counts :
  compactions (wal (snd (Compact 10 (sample_leader (mkCounting 0))))) = 0%nat
  /\ fst (Compact 10 (sample_leader (mkCounting 0))) = None
  /\ compactions (wal (snd (Compact 10 (set_state Follower (sample_leader (mkCounting 0))))))
     = 1%nat.
Proof. vm_compute. auto. Qed.

(** ** C2: granting a vote *)

Section Votes.

Context {W : Type} {walOps : WAL W}.
Implicit Types (n : @raft W).

Lemma writeTermVote_spec n :
  (String.length (vote n) <= 8)%nat ->
  writeTermVote n
  = Done (set_host (set_termVoteFile (Some (le_bytes 8 (term n) ++ str_bytes (vote n))) (host n)) n).
Proof.
  intros Hv. unfold writeTermVote, Slice.make.
  change (Z.to_nat termVoteLen) with 16%nat.
  change (replicate 16 "000"%byte) with ([] ++ replicate 16 "000"%byte).
  rewrite PutUint_blank by len_side. cbn [mbind outcome_bind app].
  change (le_bytes 8 (term n) ++ replicate (16 - 8) "000"%byte)
    with (le_bytes 8 (term n) ++ replicate 8 "000"%byte).
  rewrite copy_blank by len_side. cbn [mbind outcome_bind].
  set (buf := (le_bytes 8 (term n) ++ str_bytes (vote n))
              ++ replicate (8 - length (str_bytes (vote n))) "000"%byte).
  destruct (sub_at (Slice.of_list buf) 0 (8 + strlen (vote n)) []
              (le_bytes 8 (term n) ++ str_bytes (vote n))
              (replicate (8 - length (str_bytes (vote n))) "000"%byte))
    as (out & Hout & Hl & _).
  { reflexivity. }
  { reflexivity. }
  { unfold strlen. len_side. }
  rewrite Hout. cbn [mbind outcome_bind]. rewrite Hl. reflexivity.
Qed.

Lemma resetElectionTimeout_spec n :
  exists et h, resetElectionTimeout n = set_elect (Some et) (set_host h n)
               /\ minElectionTimeout <= et < maxElectionTimeout
               /\ termVoteFile h = termVoteFile (host n)
               /\ peerStateFile h = peerStateFile (host n).
Proof.
  unfold resetElectionTimeout, randElectionTimeout, Int63n, Int63, resetElect.
  destruct (rnd (host n)) as [|r rest] eqn:E.
  - exists minElectionTimeout, (host n). split; [destruct n; reflexivity|].
    split; [|split; reflexivity].
    unfold maxElectionTimeout, minElectionTimeout, millisecond. lia.
  - eexists _, _. split; [reflexivity|]. split; [|split; reflexivity].
    assert (0 <= (r mod 2 ^ 63) mod (maxElectionTimeout - minElectionTimeout)
            < maxElectionTimeout - minElectionTimeout).
    { apply Z.mod_pos_bound. unfold maxElectionTimeout, minElectionTimeout, millisecond. lia. }
    lia.
Qed.

(** What [castVote] answers and leaves behind: the vote is granted by
    the rule [grants], applied to the vote left after a higher term has
    been adopted; on a grant the vote is recorded, term and vote are
    written to the file, and the election timer is armed afresh. *)
Lemma castVote_spec (vr : voteRequest) (t : Z) (p : string) n :
  (String.length (vr_candidate vr) <= 8)%nat -> (String.length (vote n) <= 8)%nat ->
  let v := if term n <? vr_term vr then noVote else vote n in
  let g := grants (vr_lastIndex vr) (pindex n) v (vr_candidate vr) in
  exists n', castVote vr (mkVResp t p false) n = Done (mkVResp t p g, n')
             /\ term n' = Z.max (term n) (vr_term vr)
             /\ pindex n' = pindex n
             /\ (g = true ->
                 vote n' = vr_candidate vr
                 /\ termVoteFile (host n')
                    = Some (le_bytes 8 (term n') ++ str_bytes (vr_candidate vr))
                 /\ exists et, elect n' = Some et
                               /\ minElectionTimeout <= et < maxElectionTimeout)
             /\ (g = false -> vote n' = v /\ elect n' = elect n).
Proof.
  intros Hc Hv v g. unfold castVote.
  assert (Hsecond : forall n1 : raft,
    vote n1 = v -> pindex n1 = pindex n -> term n1 = Z.max (term n) (vr_term vr) ->
    elect n1 = elect n ->
    exists n',
      (if ((pindex n1 <=? vr_lastIndex vr) && bool_decide (vote n1 = noVote))
          || bool_decide (vote n1 = vr_candidate vr)
       then
         writeTermVote (set_vote (vr_candidate vr) n1) ≫= fun n2 =>
           Done (mkVResp t p true, resetElectionTimeout n2)
       else Done (mkVResp t p false, n1)) = Done (mkVResp t p g, n')
      /\ term n' = Z.max (term n) (vr_term vr)
      /\ pindex n' = pindex n
      /\ (g = true ->
          vote n' = vr_candidate vr
          /\ termVoteFile (host n')
             = Some (le_bytes 8 (term n') ++ str_bytes (vr_candidate vr))
          /\ exists et, elect n' = Some et
                        /\ minElectionTimeout <= et < maxElectionTimeout)
      /\ (g = false -> vote n' = v /\ elect n' = elect n)).
  { intros n1 Hv1 Hp1 Ht1 He1.
    fold (grants (vr_lastIndex vr) (pindex n1) (vote n1) (vr_candidate vr)).
    rewrite Hv1, Hp1. fold g.
    destruct g eqn:Eg.
    - rewrite writeTermVote_spec by (cbn; lia). cbn [mbind outcome_bind].
      match goal with |- context [resetElectionTimeout ?m] =>
        destruct (resetElectionTimeout_spec m) as (et & h & -> & Het & Hf & _) end.
      eexists. split; [reflexivity|]. cbn -[le_bytes] in *. rewrite Hf.
      repeat split; try assumption; try discriminate; eauto.
    - exists n1. repeat split; try assumption; try discriminate. }
  unfold v in *. clear v.
  destruct (Z.ltb_spec (term n) (vr_term vr)).
  - cbv zeta. rewrite writeTermVote_spec by (cbn; lia). cbn [mbind outcome_bind].
    apply Hsecond; unfold attemptStepDown;
      repeat match goal with |- context [if ?b then _ else _] => destruct b end;
      cbn; lia || reflexivity.
  - cbn [mbind outcome_bind]. apply Hsecond; lia || reflexivity.
Qed.

(** The rule of the code and the rule of the specification disagree
    exactly when the vote already is the candidate's and the
    candidate's log is behind. *)
Lemma grants_vs_spec (lastIndex pindex_ : Z) (v candidate : string) :
  grants lastIndex pindex_ v candidate <> grants_by_spec lastIndex pindex_ v candidate
  <-> lastIndex < pindex_ /\ v = candidate.
Proof.
  unfold grants, grants_by_spec.
  destruct (Z.leb_spec pindex_ lastIndex);
    destruct (bool_decide_reflect (v = noVote));
    destruct (bool_decide_reflect (v = candidate)); cbn; split;
    try (intros [? ?]); try congruence; try lia; try (intros ?; split; (lia || congruence)).
Qed.

End Votes.

(** C2.  The code at a request from a candidate the node has already
    voted for.  The node is at term 3 with its log at index 10 and its
    vote on nodeCCCC; the request of nodeCCCC for term 3 carries
    lastIndex 5.  [processVoteRequest] answers with granted = true,
    keeps the vote, and arms the election timer. *)
Theorem vote_granted_below_pindex :
  vr_lastIndex stale_request < pindex voted_node
  /\ exists n' buf,
       processVoteRequest stale_request voted_node = Done (None, n')
       /\ last (sendq n') = Some (mkPub "$NRG.R.reply" EmptyString buf)
       /\ decodeVoteResponse (Slice.of_list buf) = Done (Some (mkVResp 3 "nodeAAAA" true))
       /\ vote n' = "nodeCCCC"
       /\ elect voted_node = None /\ elect n' = Some minElectionTimeout.
Proof.
  split; [cbn; lia|].
  eexists _, _. split; [vm_compute; reflexivity|].
  repeat split; vm_compute; reflexivity.
Qed.

(** ** C5: starting a node from its store directory *)

Section Start.

Context {W : Type} {walOps : WAL W}.
Variable digits : list byte.
Variable base : Z.
Variable replySuffixLen : nat.
Implicit Types (n : @raft W).

(** [readTermVote] reports a term above zero only with a nil error. *)
Lemma readTermVote_error_term n tm vt e :
  readTermVote n = Done (tm, vt, Some e) -> tm = 0 /\ vt = noVote.
Proof.
  unfold readTermVote. destruct (termVoteFile (host n)).
  - destruct (_ <? _); [discriminate|].
    destruct (Slice.from _ 0 ≫= Slice.Uint 8); [|discriminate].
    cbn. destruct (Slice.from _ 8); discriminate.
  - intros [= <- <- _]. split; reflexivity.
Qed.

(** The test of [startRaftNode] on what [readTermVote] returns never
    holds. *)
Lemma term_vote_guard n tm vt (err : option error) :
  readTermVote n = Done (tm, vt, err) ->
  negb (bool_decide (err = None)) && (0 <? tm) = false.
Proof.
  intros Hr. destruct err as [e|]; [|reflexivity].
  apply readTermVote_error_term in Hr as [-> _]. reflexivity.
Qed.

Lemma Int63_spec n : exists h, Int63 n = (fst (Int63 n), set_host h n).
Proof.
  unfold Int63. destruct (rnd (host n)).
  - exists (host n). destruct n; reflexivity.
  - eexists. reflexivity.
Qed.

Lemma subscribe_spec (subject : string) n :
  exists h, subscribe subject n = (next_sid (host n), set_host h n).
Proof. eexists. reflexivity. Qed.

Lemma set_host_set_host (h1 h2 : hostState) n : set_host h2 (set_host h1 n) = set_host h2 n.
Proof. reflexivity. Qed.

Lemma set_host_set_subj (h : hostState) (s : subjects) n :
  set_host h (set_subj s n) = set_subj s (set_host h n).
Proof. reflexivity. Qed.

(** [createInternalSubs] changes the subjects and the host only. *)
Lemma createInternalSubs_spec n n' :
  createInternalSubs digits base replySuffixLen n = Done n' ->
  exists s h, n' = set_subj s (set_host h n).
Proof.
  unfold createInternalSubs, newInbox.
  destruct (Int63_spec n) as (h1 & ->).
  match goal with |- context [inbox_digits ?d ?b ?k ?l] =>
    destruct (inbox_digits d b k l); [|discriminate] end.
  cbn [mbind outcome_bind].
  destruct (Int63_spec (set_host h1 n)) as (h2 & ->).
  match goal with |- context [inbox_digits ?d ?b ?k ?l] =>
    destruct (inbox_digits d b k l); [|discriminate] end.
  cbn [mbind outcome_bind].
  rewrite set_host_set_host.
  repeat match goal with |- context [subscribe ?x ?m] =>
    let h := fresh "h" in
    destruct (subscribe_spec x m) as (h & ->);
    rewrite ?set_host_set_host, ?set_host_set_subj end.
  intros [= <-]. eexists _, _. reflexivity.
Qed.

Lemma createInternalSubs_term_vote n n' :
  createInternalSubs digits base replySuffixLen n = Done n' ->
  term n' = term n /\ vote n' = vote n /\ state n' = state n.
Proof.
  intros (s & h & ->)%createInternalSubs_spec. repeat split.
Qed.

Lemma track_known_term_vote (ps : list string) : forall n,
  let n' := fold_left (fun n peer =>
                         if negb (bool_decide (peer = id n))
                         then set_peers (<[peer := mkLps 0 0]> (peers n)) n else n) ps n in
  term n' = term n /\ vote n' = vote n.
Proof.
  induction ps as [|p ps IH]; intros n; cbn [fold_left]; [split; reflexivity|].
  destruct (IH (if negb (bool_decide (p = id n))
                then set_peers (<[p := mkLps 0 0]> (peers n)) n else n)) as [-> ->].
  destruct (negb _); split; reflexivity.
Qed.

(** A node started on an empty log has term 0 and no vote, whatever
    the term/vote file holds. *)
Lemma startRaftNode_fresh (hash : string) (cfg : RaftConfig) (h : hostState) n :
  Msgs (WState (Log cfg)) <= 0 ->
  startRaftNode digits base replySuffixLen true hash (Some cfg) h = Done (inr n) ->
  term n = 0 /\ vote n = noVote.
Proof.
  intros Hm. unfold startRaftNode. cbn [negb].
  destruct (readPeerState h) as [[e|ps]|]; cbn [mbind outcome_bind]; try discriminate.
  destruct (clusterSize ps <? 2); [discriminate|].
  destruct (Slice.sub _ 0 idLen) as [nid|]; cbn [mbind outcome_bind]; [|discriminate].
  match goal with |- context [readTermVote ?m] =>
    set (n0 := m); destruct (readTermVote n0) as [[[tm vt] err]|] eqn:Hr end;
    cbn [mbind outcome_bind]; [|discriminate].
  rewrite (term_vote_guard _ _ _ _ Hr).
  change (wal n0) with (Log cfg).
  destruct (Z.ltb_spec 0 (Msgs (WState (Log cfg)))); [lia|].
  cbn [mbind outcome_bind].
  match goal with |- context [createInternalSubs _ _ _ ?m] =>
    destruct (createInternalSubs digits base replySuffixLen m) as [n1|] eqn:Hs end;
    cbn [mbind outcome_bind]; [|discriminate].
  apply createInternalSubs_term_vote in Hs as (Ht1 & Hv1 & Hs1).
  unfold trackPeer. rewrite Hs1. cbn [state set_applyc n0].
  rewrite bool_decide_eq_false_2 by discriminate. cbn [andb].
  cbn [mbind outcome_bind].
  intros [= <-].
  match goal with |- context [resetElectionTimeout ?m] =>
    destruct (resetElectionTimeout_spec m) as (et & h' & -> & _) end.
  cbn [term vote set_elect set_host].
  match goal with |- context [fold_left ?f ?l ?m] =>
    destruct (track_known_term_vote l m) as [-> ->] end.
  destruct (peers n1 !! id n1); cbn; rewrite Ht1, Hv1; split; reflexivity.
Qed.


End Start.

(** C5.  The code on a store directory whose term/vote file holds term 5
    and a vote for nodeBBBB: the node starts, the file reads back as
    (5, nodeBBBB), and the node's term is 0 and its vote is empty.  A
    stored cluster size of 1 is refused. *)
Theorem start_ignores_stored_term_vote :
  (exists n,
     startRaftNode inbox_alphabet 62 8 true "nodeAAAAxyz"
       (Some (mkConfig "G" memWAL_empty)) stored_host = Done (inr n)
     /\ readTermVote n = Done (5, "nodeBBBB"%string, None)
     /\ term n = 0 /\ vote n = EmptyString)
  /\ startRaftNode inbox_alphabet 62 8 true "nodeAAAAxyz"
       (Some (mkConfig "G" memWAL_empty)) small_cluster_host = Done (inl errClusterTooSmall).
Proof.
  split.
  - eexists. split; [vm_compute; reflexivity|].
    repeat split; vm_compute; reflexivity.
  - vm_compute. reflexivity.
Qed.

(** ** C6: the tally of a candidate *)

Section Candidate.

Context {W : Type} {walOps : WAL W}.
Implicit Types (n : @raft W).

Lemma updateLeadChange_spec (isLeader : bool) n :
  exists lc h, updateLeadChange isLeader n = set_leadc lc (set_host h n).
Proof.
  unfold updateLeadChange.
  destruct (negb (chan_full (leadc n) 4) && (0 <? length (leadc n))%nat).
  - destruct (Int63_spec n) as (h & ->).
    destruct (Z.even _); [|destruct (chan_full _ _)]; eexists _, _; reflexivity.
  - destruct (negb (chan_full (leadc n) 4)); [|destruct (chan_full _ _)];
      eexists _, (host n); destruct n; reflexivity.
Qed.

(** [switchState] on a node that is not closed. *)
Lemma switchState_spec (st : RaftState) n :
  state n <> Closed ->
  exists n', switchState st n = Done n'
             /\ state n' = st /\ vote n' = noVote
             /\ term n' = term n /\ leader n' = leader n /\ id n' = id n /\ qn n' = qn n
             /\ commit n' = commit n /\ applyc n' = applyc n /\ paused n' = paused n.
Proof.
  intros Hs. unfold switchState. destruct (decide (state n = Closed)); [contradiction|].
  destruct (resetElectionTimeout_spec n) as (et & h & -> & _).
  set (m := set_elect (Some et) (set_host h n)).
  assert (Hm : exists lc h', (if bool_decide (state m = Leader) && negb (bool_decide (st = Leader))
                              then updateLeadChange false m
                              else if bool_decide (st = Leader) && negb (bool_decide (state m = Leader))
                                   then updateLeadChange true m else m)
                             = set_leadc lc (set_host h' m)).
  { destruct (_ && _); [apply updateLeadChange_spec|].
    destruct (_ && _); [apply updateLeadChange_spec|].
    exists (leadc m), (host m). reflexivity. }
  destruct Hm as (lc & h' & ->).
  rewrite writeTermVote_spec by (cbn; lia).
  eexists. split; [reflexivity|]. repeat split.
Qed.

Lemma trackPeer_not_leader (peer : string) n :
  state n <> Leader -> exists ps, trackPeer peer n = Done (None, set_peers ps n).
Proof.
  intros Hs. unfold trackPeer. rewrite bool_decide_eq_false_2 by assumption.
  cbn [andb]. destruct (peers n !! peer); eexists; reflexivity.
Qed.

Lemma granted_upto_nonneg (tm : Z) (vs : list voteResponse) : 0 <= granted_upto tm vs.
Proof. unfold granted_upto. lia. Qed.

Lemma granted_upto_cons (tm : Z) (v : voteResponse) (vs : list voteResponse) :
  granted_upto tm (v :: vs)
  = (if vresp_granted v && (vresp_term v <=? tm) then 1 else 0) + granted_upto tm vs.
Proof.
  unfold granted_upto.
  destruct (vresp_granted v && (vresp_term v <=? tm)) eqn:E.
  - rewrite filter_cons_True by (rewrite E; exact I). cbn [length]. lia.
  - rewrite filter_cons_False by (rewrite E; intros []). lia.
Qed.

(** The vote responses [vs] taken one after the other by the loop of a
    candidate whose tally is [tally]: the loop ends as leader if the
    granted responses of a term at most the node's bring the tally to
    the quorum, and goes on waiting as candidate with the new tally if
    not. *)
Lemma candidate_loop_votes (vs : list voteResponse) : forall n (tally : Z),
  state n = Candidate -> 0 <= tally < qn n ->
  tally + Z.of_nat (length vs) < 2 ^ 62 ->
  let t := tally + granted_upto (term n) vs in
  exists n', candidate_loop (map EvVote vs) tally n
             = Done (if qn n <=? t then None else Some t, n')
             /\ state n' = (if qn n <=? t then Leader else Candidate)
             /\ term n' = term n /\ id n' = id n
             /\ ((qn n <=? t) = true -> leader n' = id n).
Proof.
  induction vs as [|v vs IH]; intros n tally Hs Ht Hb; cbv zeta.
  - change (granted_upto (term n) []) with 0. rewrite Z.add_0_r.
    destruct (Z.leb_spec (qn n) tally); [lia|].
    exists n. cbn. repeat split; try assumption. discriminate.
  - cbn [map candidate_loop length] in *.
    destruct (trackPeer_not_leader (vresp_peer v) n) as (ps & ->); [congruence|].
    cbn [mbind outcome_bind]. rewrite granted_upto_cons.
    change (term (set_peers ps n)) with (term n).
    pose proof (granted_upto_nonneg (term n) vs) as Hg.
    destruct (vresp_granted v && (vresp_term v <=? term n)).
    + rewrite wrapInt_small by lia. unfold wonElection, quorumNeeded.
      change (qn (set_peers ps n)) with (qn n).
      destruct (Z.leb_spec (qn n) (tally + 1)) as [Hw|Hw].
      * destruct (Z.leb_spec (qn n) (tally + (1 + granted_upto (term n) vs))); [|lia].
        unfold switchToLeader.
        destruct (switchState_spec Leader (set_leader (id (set_peers ps n)) (set_peers ps n)))
          as (n' & -> & Hst & _ & Htm & Hl & Hid & _); [cbn; congruence|].
        exists n'. cbn [mbind outcome_bind]. repeat split; try intros _; assumption.
      * destruct (IH (set_peers ps n) (tally + 1)) as (n' & E & H'); [exact Hs|cbn; lia|lia|].
        cbv zeta in E, H'. cbn [term qn id set_peers] in E, H'.
        replace (tally + (1 + granted_upto (term n) vs))
          with (tally + 1 + granted_upto (term n) vs) by lia.
        exists n'. split; [exact E|exact H'].
    + destruct (IH (set_peers ps n) tally) as (n' & E & H'); [exact Hs|cbn; lia|lia|].
      cbv zeta in E, H'. cbn [term qn id set_peers] in E, H'.
      rewrite Z.add_0_l. exists n'. split; [exact E|exact H'].
Qed.

Lemma requestVote_spec n :
  state n = Candidate -> wf_id (id n) ->
  exists q h, requestVote n = Done (set_sendq q (set_host h (set_vote (id n) n))).
Proof.
  intros Hs Hid. unfold requestVote. rewrite Hs.
  rewrite bool_decide_eq_true_2 by reflexivity. cbn [negb].
  rewrite writeTermVote_spec by (cbn; unfold wf_id in Hid; lia).
  cbn [mbind outcome_bind].
  rewrite voteRequest_encode_wire by exact Hid. cbn [mbind outcome_bind].
  unfold sendRPC. eexists _, _. reflexivity.
Qed.

End Candidate.

(** The tally of the specification stays below the quorum on a granted
    response of an older term, and the candidate becomes leader. *)
Lemma older_term_grant_elects :
  vresp_term older_grant < term candidate_node
  /\ tally_equal_term (term candidate_node) [older_grant] < qn candidate_node
  /\ exists n', runAsCandidate [EvVote older_grant] candidate_node = Done (None, n')
                /\ state n' = Leader.
Proof.
  split; [cbn; lia|]. split; [vm_compute; reflexivity|].
  eexists. split; [vm_compute; reflexivity|reflexivity].
Qed.

(** C6, amended.  A candidate counts its own vote as 1 and adds one for
    each granted vote response whose term is at most its own.  Over the
    responses [vs] it becomes leader if that tally reaches the quorum,
    and is still a candidate holding the tally if it does not. *)
Theorem candidate_tally {W : Type} {walOps : WAL W} (n : @raft W) (vs : list voteResponse) :
  state n = Candidate -> wf_id (id n) -> 1 < qn n ->
  Z.of_nat (length vs) < 2 ^ 61 ->
  let t := tally_upto_term (term n) vs in
  exists n', runAsCandidate (map EvVote vs) n
             = Done (if qn n <=? t then None else Some t, n')
             /\ state n' = (if qn n <=? t then Leader else Candidate)
             /\ term n' = term n.
Proof.
  intros Hs Hid Hq Hb t. unfold runAsCandidate.
  destruct (requestVote_spec (set_votes [] n)) as (q & h & ->); [assumption..|].
  cbn [mbind outcome_bind].
  match goal with |- context [candidate_loop _ 1 ?m] =>
    destruct (candidate_loop_votes vs m 1) as (n' & E & Hst & Htm & _) end;
    [exact Hs|cbn; lia|lia|].
  cbv zeta in E, Hst. cbn [term qn set_sendq set_host set_vote set_votes] in E, Hst, Htm.
  exists n'. unfold t, tally_upto_term. repeat split; assumption.
Qed.

Lemma candidate_tally_witness :
  exists n', runAsCandidate (map EvVote [older_grant; older_grant]) candidate_node
             = Done (None, n')
             /\ state n' = Leader /\ term n' = 5.
Proof.
  apply (candidate_tally candidate_node [older_grant; older_grant]).
  - reflexivity.
  - reflexivity.
  - vm_compute. reflexivity.
  - vm_compute. reflexivity.
Defined.

(** ** The commit loops *)

Section CommitLoop.

Context {W : Type} {walOps : WAL W}.
Implicit Types (n : @raft W) (index : Z).

Lemma kept_by_commit_refl n : kept_by_commit n n.
Proof. unfold kept_by_commit. tauto. Qed.

Lemma kept_by_commit_trans n1 n2 n3 :
  kept_by_commit n1 n2 -> kept_by_commit n2 n3 -> kept_by_commit n1 n3.
Proof. unfold kept_by_commit. intuition congruence. Qed.

(** [applyCommit] on a batch that loads, with room on the channel. *)
Lemma applyCommit_success n index (ae : appendEntry) :
  commit n < index -> stored_batch (wal n) index ae ->
  Z.of_nat (length (applyc n)) < applyc_cap n ->
  exists n', applyCommit index n = Done (None, n')
             /\ commit n' = index
             /\ applyc n' = applyc n ++ apply_record index ae
             /\ kept_by_commit n n'.
Proof.
  intros Hlt (msg & Hload & Hdec & Hread) Hroom. unfold applyCommit, loadEntry.
  destruct (Z.leb_spec index (commit n)); [lia|].
  set (n1 := if bool_decide (state (set_commit index n) = Leader)
             then set_acks (delete index (acks (set_commit index n))) (set_commit index n)
             else set_commit index n).
  assert (H1 : commit n1 = index /\ applyc n1 = applyc n /\ kept_by_commit n n1).
  { unfold n1, kept_by_commit. destruct (bool_decide _); cbn; tauto. }
  destruct H1 as (Hc1 & Ha1 & Hk1).
  assert (Hw : wal n1 = wal n) by apply Hk1.
  rewrite Hw, Hload. cbn [mbind outcome_bind]. rewrite Hdec. cbn [mbind outcome_bind].
  destruct (apply_entries_spec (ae_entries ae) Hread [] n1) as (n2 & -> & Hn2).
  cbn [mbind outcome_bind app].
  assert (H2 : commit n2 = index /\ applyc n2 = applyc n /\ kept_by_commit n n2).
  { unfold unchanged_by_apply in Hn2. unfold kept_by_commit in *.
    intuition congruence. }
  destruct H2 as (Hc2 & Ha2 & Hk2).
  unfold apply_record.
  destruct (0 <? length (filter (fun e => deliverable e = true) (ae_entries ae)))%nat.
  - unfold chan_full. rewrite Ha2.
    replace (applyc_cap n2) with (applyc_cap n) by (symmetry; apply Hk2).
    destruct (Z.leb_spec (applyc_cap n) (Z.of_nat (length (applyc n)))); [lia|].
    eexists. split; [reflexivity|].
    split; [exact Hc2|]. split; [reflexivity|].
    unfold kept_by_commit in *. cbn. tauto.
  - eexists. split; [reflexivity|].
    split; [exact Hc2|]. split; [cbn; rewrite app_nil_r; exact Ha2|].
    unfold kept_by_commit in *. cbn. tauto.
Qed.

Lemma apply_record_length index (ae : appendEntry) : (length (apply_record index ae) <= 1)%nat.
Proof. unfold apply_record. destruct (_ <? _)%nat; cbn; lia. Qed.

(** The loop over batches that all load, with room for each. *)
Lemma apply_range_success (aes : list appendEntry) : forall n index,
  index = commit n + 1 -> 0 <= commit n ->
  commit n + Z.of_nat (length aes) < 2 ^ 64 - 1 ->
  stored_from (wal n) index aes ->
  Z.of_nat (length (applyc n)) + Z.of_nat (length aes) <= applyc_cap n ->
  exists n', apply_range (length aes) index n = Done n'
             /\ commit n' = commit n + Z.of_nat (length aes)
             /\ applyc n' = applyc n ++ records_from index aes
             /\ kept_by_commit n n'.
Proof.
  induction aes as [|ae aes IH]; intros n index Hi H0 Hb Hst Hroom.
  - exists n. cbn. rewrite app_nil_r, Z.add_0_r.
    split; [reflexivity|]. split; [reflexivity|]. split; [reflexivity|].
    apply kept_by_commit_refl.
  - cbn [length apply_range stored_from records_from] in *. destruct Hst as [Hb1 Hrest].
    destruct (applyCommit_success n index ae) as (n1 & -> & Hc1 & Ha1 & Hk1);
      [lia|assumption|lia|].
    cbn [mbind outcome_bind].
    assert (Hwrap : wrap64 (index + 1) = index + 1).
    { unfold wrap64. apply Z.mod_small. lia. }
    rewrite Hwrap.
    pose proof (apply_record_length index ae) as Hlen.
    destruct (IH n1 (index + 1)) as (n2 & -> & Hc2 & Ha2 & Hk2).
    + lia.
    + lia.
    + lia.
    + replace (wal n1) with (wal n) by (symmetry; apply Hk1). assumption.
    + rewrite Ha1, length_app.
      replace (applyc_cap n1) with (applyc_cap n) by (symmetry; apply Hk1). lia.
    + exists n2. split; [reflexivity|]. split; [lia|].
      split; [rewrite Ha2, Ha1, <- app_assoc; reflexivity|].
      eapply kept_by_commit_trans; eassumption.
Qed.

Lemma apply_upto_success (aes : list appendEntry) n (hi : Z) :
  hi = commit n + Z.of_nat (length aes) -> 0 <= commit n -> hi < 2 ^ 64 - 1 ->
  stored_from (wal n) (commit n + 1) aes ->
  Z.of_nat (length (applyc n)) + Z.of_nat (length aes) <= applyc_cap n ->
  exists n', apply_upto hi n = Done n'
             /\ commit n' = hi
             /\ applyc n' = applyc n ++ records_from (commit n + 1) aes
             /\ kept_by_commit n n'.
Proof.
  intros -> H0 Hb Hst Hroom. unfold apply_upto.
  replace (Z.to_nat (commit n + Z.of_nat (length aes) - commit n)) with (length aes) by lia.
  assert (Hwrap : wrap64 (commit n + 1) = commit n + 1).
  { unfold wrap64. apply Z.mod_small. lia. }
  rewrite Hwrap. apply apply_range_success; (reflexivity || assumption).
Qed.

(** A heartbeat of a node with an 8-byte id goes out. *)
Lemma sendHeartbeat_spec n :
  wf_id (id n) ->
  sendHeartbeat n
  = Done (sendRPC (asubj (subj n)) (areply (subj n)) (ae_wire (buildAppendEntry [] n)) n).
Proof.
  intros Hid. unfold sendHeartbeat, sendAppendEntry.
  rewrite appendEntry_encode_wire by (cbn; auto). reflexivity.
Qed.

End CommitLoop.

(** ** Quorum *)

Section QuorumLoops.

Context {W : Type} {walOps : WAL W}.
Implicit Types (n : @raft W) (ps : list (string * lps)).

Lemma recent_in_nonneg tnow ps : 0 <= recent_in tnow ps.
Proof. unfold recent_in. lia. Qed.

Lemma recent_in_cons tnow (kv : string * lps) ps :
  recent_in tnow (kv :: ps)
  = (if wrapInt (tnow - ts (snd kv)) <? lostQuorumInterval then 1 else 0) + recent_in tnow ps.
Proof.
  unfold recent_in. destruct (wrapInt (tnow - ts (snd kv)) <? lostQuorumInterval) eqn:E.
  - rewrite filter_cons_True by (cbn; rewrite E; exact I). cbn [length]. lia.
  - rewrite filter_cons_False by (cbn; rewrite E; intros []). lia.
Qed.

Lemma Quorum_loop_lost ps : forall tnow nc q,
  Quorum_loop ps tnow nc q = negb (lostQuorum_loop ps tnow nc q).
Proof.
  induction ps as [|[p l] ps IH]; intros tnow nc q; cbn; [reflexivity|].
  destruct (_ <? _); [destruct (q <=? nc + 1); [reflexivity|]|]; apply IH.
Qed.

Lemma lostQuorum_loop_count ps : forall tnow nc q,
  lostQuorum_loop ps tnow nc q = true
  <-> recent_in tnow ps = 0 \/ nc + recent_in tnow ps < q.
Proof.
  induction ps as [|[p l] ps IH]; intros tnow nc q.
  - cbn. split; [left; reflexivity|reflexivity].
  - cbn [lostQuorum_loop]. rewrite recent_in_cons. cbn [snd].
    pose proof (recent_in_nonneg tnow ps).
    destruct (wrapInt (tnow - ts l) <? lostQuorumInterval).
    + destruct (Z.leb_spec q (nc + 1)).
      * split; [discriminate|lia].
      * rewrite IH. lia.
    + rewrite IH. lia.
Qed.

End QuorumLoops.

(** X1.  [Quorum] and [lostQuorum] answer opposite: on every node
    [Quorum] is the negation of [lostQuorumLocked]. *)
Theorem Quorum_negb_lostQuorum {W : Type} {walOps : WAL W} (n : @raft W) :
  Quorum n = negb (lostQuorumLocked n).
Proof. unfold Quorum, lostQuorumLocked. apply Quorum_loop_lost. Qed.

(** X2.  [lostQuorumLocked] reports a lost quorum exactly when no peer
    was heard of within [lostQuorumInterval], or one plus the number of
    such peers is below the quorum.  The answer depends on this number
    only, not on the order in which the peers are visited; and with no
    recent peer the quorum counts as lost whatever [qn] is. *)
Theorem lostQuorumLocked_count {W : Type} {walOps : WAL W} (n : @raft W) :
  lostQuorumLocked n = true <-> recent_peers n = 0 \/ 1 + recent_peers n < qn n.
Proof.
  unfold lostQuorumLocked. rewrite lostQuorum_loop_count. reflexivity.
Qed.

(** ** The two files of the store directory *)

Section Files.

Context {W : Type} {walOps : WAL W}.
Implicit Types (n : @raft W).





Lemma bind_Done_inv {A B : Type} (m : outcome A) (k : A -> outcome B) (r : B) :
  m ≫= k = Done r -> exists a, m = Done a /\ k a = Done r.
Proof. destruct m as [a|]; [|discriminate]. intros H. exists a. split; [reflexivity|exact H]. Qed.


End Files.







(** ** Role changes, shutdown, progress marks *)

Section RoleChanges.

Context {W : Type} {walOps : WAL W}.
Implicit Types (n : @raft W).

Lemma Int63_files n :
  exists h, Int63 n = (fst (Int63 n), set_host h n)
            /\ termVoteFile h = termVoteFile (host n)
            /\ peerStateFile h = peerStateFile (host n)
            /\ clock h = clock (host n).
Proof.
  unfold Int63. destruct (rnd (host n)).
  - exists (host n). split; [destruct n; reflexivity|]. repeat split.
  - eexists. split; [reflexivity|]. repeat split.
Qed.

(** [updateLeadChange] on a channel within its capacity. *)
Lemma updateLeadChange_posts (isLeader : bool) n :
  (length (leadc n) <= 4)%nat ->
  exists lc h, updateLeadChange isLeader n = set_leadc (lc ++ [isLeader]) (set_host h n)
               /\ (lc = leadc n \/ lc = tail (leadc n))
               /\ (length (lc ++ [isLeader]) <= 4)%nat
               /\ termVoteFile h = termVoteFile (host n)
               /\ peerStateFile h = peerStateFile (host n).
Proof.
  intros Hlen. unfold updateLeadChange, chan_full.
  destruct (Z.leb_spec 4 (Z.of_nat (length (leadc n)))) as [Hfull|Hroom]; cbn [negb andb].
  - (* full: the old value is received, the new one sent *)
    assert (Ht : length (tail (leadc n)) = 3%nat).
    { destruct (leadc n); cbn in *; lia. }
    rewrite Ht. cbn [Z.of_nat Pos.of_succ_nat Pos.succ Z.leb Z.compare Pos.compare
                     Pos.compare_cont].
    exists (tail (leadc n)), (host n). split; [destruct n; reflexivity|].
    split; [right; reflexivity|]. rewrite length_app, Ht. cbn. repeat split; lia.
  - destruct (0 <? length (leadc n))%nat eqn:Hrecv.
    + destruct (Int63_files n) as (h & -> & Hf1 & Hf2 & _). cbn [fst snd].
      assert (Hh : termVoteFile h = termVoteFile (host n)
                   /\ peerStateFile h = peerStateFile (host n)) by (split; assumption).
      destruct (Z.even _).
      * exists (leadc n), h. split; [reflexivity|]. split; [left; reflexivity|].
        rewrite length_app. cbn. split; [lia|exact Hh].
      * assert (Ht : (length (tail (leadc n)) < 4)%nat).
        { destruct (leadc n); cbn in *; lia. }
        cbn [leadc set_host].
        destruct (Z.leb_spec 4 (Z.of_nat (length (tail (leadc n))))); [lia|].
        exists (tail (leadc n)), h. split; [reflexivity|]. split; [right; reflexivity|].
        rewrite length_app. cbn. split; [lia|exact Hh].
    + exists (leadc n), (host n). split; [destruct n; reflexivity|].
      split; [left; reflexivity|]. rewrite length_app. cbn. repeat split; lia.
Qed.

(** [switchState] on a node that is not closed, in full. *)
Lemma switchState_full (st : RaftState) n :
  state n <> Closed -> (length (leadc n) <= 4)%nat ->
  exists n', switchState st n = Done n'
    /\ state n' = st /\ vote n' = noVote /\ term n' = term n /\ leader n' = leader n
    /\ termVoteFile (host n') = Some (le_bytes 8 (term n))
    /\ (exists et, elect n' = Some et /\ minElectionTimeout <= et < maxElectionTimeout)
    /\ (if xorb (bool_decide (state n = Leader)) (bool_decide (st = Leader))
        then last (leadc n') = Some (bool_decide (st = Leader))
        else leadc n' = leadc n)
    /\ (length (leadc n') <= 4)%nat
    /\ commit n' = commit n /\ pindex n' = pindex n /\ pterm n' = pterm n
    /\ peers n' = peers n /\ wal n' = wal n /\ id n' = id n /\ qn n' = qn n
    /\ sendq n' = sendq n /\ applyc n' = applyc n.
Proof.
  intros Hs Hlen. unfold switchState. destruct (decide (state n = Closed)); [contradiction|].
  destruct (resetElectionTimeout_spec n) as (et & h & -> & Het & Hf & _).
  set (m := set_elect (Some et) (set_host h n)).
  assert (Hm : exists lc h',
    (if bool_decide (state m = Leader) && negb (bool_decide (st = Leader))
     then updateLeadChange false m
     else if bool_decide (st = Leader) && negb (bool_decide (state m = Leader))
          then updateLeadChange true m else m)
    = set_leadc lc (set_host h' m)
    /\ (if xorb (bool_decide (state n = Leader)) (bool_decide (st = Leader))
        then last lc = Some (bool_decide (st = Leader)) else lc = leadc n)
    /\ (length lc <= 4)%nat).
  { change (state m) with (state n).
    destruct (bool_decide (state n = Leader)), (bool_decide (st = Leader)); cbn [andb negb xorb].
    - exists (leadc n), (host m). split; [reflexivity|]. split; [reflexivity|exact Hlen].
    - destruct (updateLeadChange_posts false m Hlen) as (lc & h' & -> & _ & Hl & _).
      exists (lc ++ [false]), h'. split; [reflexivity|]. split; [apply last_snoc|exact Hl].
    - destruct (updateLeadChange_posts true m Hlen) as (lc & h' & -> & _ & Hl & _).
      exists (lc ++ [true]), h'. split; [reflexivity|]. split; [apply last_snoc|exact Hl].
    - exists (leadc n), (host m). split; [reflexivity|]. split; [reflexivity|exact Hlen]. }
  destruct Hm as (lc & h' & -> & Hlc & Hlclen).
  rewrite writeTermVote_spec by (cbn; lia).
  eexists. split; [reflexivity|]. cbn -[le_bytes].
  repeat split; try reflexivity; try assumption. eauto.
Qed.


End RoleChanges.





(** X8.  [shutdown] closes a node once: it sets the state to Closed,
    removes the two files when asked to delete, and calls out (quit
    channel, connection, registry, log).  On a closed node [shutdown]
    calls nothing, and [switchState] and [processAppendEntry] return
    the node as it is. *)
Theorem closed_node_inert {W : Type} {walOps : WAL W} (digits : list byte) (base : Z)
    (replySuffixLen : nat) (shouldDelete again : bool) (n : @raft W) :
  let '(calls, n') := shutdown shouldDelete n in
  state n' = Closed
  /\ (state n <> Closed ->
      calls = [CloseQuit; CloseConnection; Unregister (group n);
               if shouldDelete then WalDelete else WalStop]
      /\ (shouldDelete = true ->
          peerStateFile (host n') = None /\ termVoteFile (host n') = None))
  /\ (state n = Closed -> calls = [] /\ n' = n)
  /\ shutdown again n' = ([], n')
  /\ (forall st, switchState st n' = Done n')
  /\ (forall ae sub, processAppendEntry digits base replySuffixLen ae sub n' = Done n').
Proof.
  unfold shutdown. destruct (bool_decide_reflect (state n = Closed)) as [Hc|Hc].
  - split; [exact Hc|]. split; [contradiction|]. split; [split; reflexivity|].
    rewrite bool_decide_eq_true_2 by exact Hc. split; [reflexivity|].
    split.
    + intros st. unfold switchState. destruct (decide (state n = Closed)); [reflexivity|contradiction].
    + intros ae sub. unfold processAppendEntry.
      rewrite bool_decide_eq_true_2 by exact Hc. reflexivity.
  - set (n' := if shouldDelete then _ else _).
    assert (Hs : state n' = Closed) by (unfold n'; destruct shouldDelete; reflexivity).
    split; [exact Hs|]. split.
    + intros _. split; [unfold n'; destruct shouldDelete; reflexivity|].
      intros ->. split; reflexivity.
    + split; [contradiction|].
      rewrite bool_decide_eq_true_2 by exact Hs. split; [reflexivity|]. split.
      * intros st. unfold switchState.
        destruct (decide (state n' = Closed)); [reflexivity|contradiction].
      * intros ae sub. unfold processAppendEntry.
        rewrite bool_decide_eq_true_2 by exact Hs. reflexivity.
Qed.

(** X9.  [Applied] only moves the applied index forward: afterwards it
    is the larger of the index given and the old one.  The log is
    compacted only for an index above the old applied index that is
    the snapshot index, so a second call with the same index changes
    nothing (and compacts nothing again), and an index at or below the
    applied one leaves the node as it is. *)
Theorem Applied_forward {W : Type} {walOps : WAL W} (index : Z) (n : @raft W) :
  applied (Applied index n) = Z.max index (applied n)
  /\ wal (Applied index n)
     = (if (applied n <? index) && (index =? sindex n)
        then snd (WCompact (wal n) index) else wal n)
  /\ Applied index (Applied index n) = Applied index n
  /\ (index <= applied n -> Applied index n = n).
Proof.
  assert (Hsecond : forall m : @raft W, index <= applied m -> Applied index m = m).
  { intros m Hm. unfold Applied.
    destruct (Z.leb_spec index (applied m)); [reflexivity|lia]. }
  destruct (Z.leb_spec index (applied n)) as [Hle|Hlt].
  - rewrite (Hsecond n Hle). rewrite (Hsecond n Hle).
    destruct (Z.ltb_spec (applied n) index); [lia|]. cbn [andb].
    split; [lia|]. split; [reflexivity|]. split; reflexivity.
  - destruct (Z.ltb_spec (applied n) index); [|lia]. cbn [andb].
    assert (E : Applied index n
                = if index =? sindex n
                  then set_wal (snd (WCompact (wal n) index)) (set_applied index n)
                  else set_applied index n).
    { unfold Applied. destruct (Z.leb_spec index (applied n)); [lia|]. reflexivity. }
    rewrite E.
    destruct (index =? sindex n).
    + split; [cbn; lia|]. split; [reflexivity|]. split; [apply Hsecond; cbn; lia|lia].
    + split; [cbn; lia|]. split; [reflexivity|]. split; [apply Hsecond; cbn; lia|lia].
Qed.

Lemma Applied_forward_witness :
  Applied 0 (sample_node memWAL_empty) = sample_node memWAL_empty.
Proof.
  apply (Applied_forward 0 (sample_node memWAL_empty)). cbn. lia.
Defined.

Section Stalled.

Context {W : Type} {walOps : WAL W}.
Implicit Types (n : @raft W).

Lemma catchupStalled_same n (cs : catchupState) :
  catchup n = Some cs -> cs_pindex cs = pindex n -> 0 <= hbs cs < 2 ^ 62 ->
  catchupStalled n
  = (3 <=? hbs cs + 1,
     set_catchup (Some (mkCatchup (cs_sub cs) (cterm cs) (cindex cs) (cs_pterm cs)
                                  (cs_pindex cs) (hbs cs + 1))) n).
Proof.
  intros Hc Hp Hh. unfold catchupStalled. rewrite Hc, Hp, Z.eqb_refl.
  rewrite wrapInt_small by lia. reflexivity.
Qed.

Lemma catchupStalled_calls_same (k : nat) : forall n (cs : catchupState),
  catchup n = Some cs -> cs_pindex cs = pindex n ->
  0 <= hbs cs -> hbs cs + Z.of_nat k < 2 ^ 62 ->
  fst (catchupStalled_calls k n)
  = map (fun i => 3 <=? hbs cs + Z.of_nat i) (seq 1 k).
Proof.
  induction k as [|k IH]; intros n cs Hc Hp H0 Hb; [reflexivity|].
  cbn [catchupStalled_calls]. rewrite (catchupStalled_same n cs) by (assumption || lia).
  match goal with |- context [catchupStalled_calls k ?m] =>
    pose proof (IH m (mkCatchup (cs_sub cs) (cterm cs) (cindex cs) (cs_pterm cs)
                                (cs_pindex cs) (hbs cs + 1))
                   eq_refl Hp ltac:(cbn; lia) ltac:(cbn; lia)) as IH';
    destruct (catchupStalled_calls k m) as [rest m'] end.
  cbn [fst hbs] in *. rewrite IH'.
  cbn [seq map]. f_equal. rewrite <- (seq_shift k 1), map_map.
  apply map_ext. intros i. f_equal. lia.
Qed.

End Stalled.

(** X10.  [catchupStalled] counts the calls made while the log index
    stays where the catch-up last saw it, and reports a stall from the
    third such call on: of [k] calls in a row after the catch-up was
    set up, the first two answer false and all later ones true.  With
    no catch-up in place it answers false and changes nothing; a call
    that finds the index moved answers false and starts counting again. *)
Theorem catchupStalled_third_call {W : Type} {walOps : WAL W} (n : @raft W)
    (cs : catchupState) (k : nat) :
  (catchup n = None -> catchupStalled n = (false, n))
  /\ (catchup n = Some cs -> cs_pindex cs <> pindex n ->
      exists cs', catchupStalled n = (false, set_catchup (Some cs') n)
                  /\ hbs cs' = 0 /\ cs_pindex cs' = pindex n)
  /\ (catchup n = Some cs -> cs_pindex cs = pindex n -> hbs cs = 0 ->
      Z.of_nat k < 2 ^ 62 ->
      fst (catchupStalled_calls k n) = map (fun i => (3 <=? i)%nat) (seq 1 k)).
Proof.
  split; [|split].
  - intros Hc. unfold catchupStalled. rewrite Hc. reflexivity.
  - intros Hc Hp. unfold catchupStalled. rewrite Hc.
    destruct (Z.eqb_spec (cs_pindex cs) (pindex n)); [contradiction|].
    eexists. split; [reflexivity|]. split; reflexivity.
  - intros Hc Hp Hh Hk.
    rewrite (catchupStalled_calls_same k n cs Hc Hp) by (rewrite Hh; lia).
    apply map_ext. intros i. rewrite Hh.
    destruct (Z.leb_spec 3 (0 + Z.of_nat i)), (Nat.leb_spec 3 i); (reflexivity || lia).
Qed.

Lemma catchupStalled_third_call_witness :
  fst (catchupStalled_calls 4 catching_up_node) = [false; false; true; true].
Proof.
  apply (catchupStalled_third_call catching_up_node (mkCatchup (Some 7%nat) 4 20 1 0 0) 4);
    (reflexivity || (cbn; lia)).
Defined.

(** ** Vote requests *)


Section VoteRequests.

Context {W : Type} {walOps : WAL W}.
Implicit Types (n : @raft W) (vr : voteRequest).

(** [castVote], with what it leaves alone. *)
Lemma castVote_frame vr (t : Z) (p : string) n :
  (String.length (vr_candidate vr) <= 8)%nat -> (String.length (vote n) <= 8)%nat ->
  let v := if term n <? vr_term vr then noVote else vote n in
  let g := grants (vr_lastIndex vr) (pindex n) v (vr_candidate vr) in
  exists n', castVote vr (mkVResp t p false) n = Done (mkVResp t p g, n')
             /\ term n' = Z.max (term n) (vr_term vr)
             /\ pindex n' = pindex n
             /\ (g = true ->
                 vote n' = vr_candidate vr
                 /\ termVoteFile (host n')
                    = Some (le_bytes 8 (term n') ++ str_bytes (vr_candidate vr))
                 /\ exists et, elect n' = Some et
                               /\ minElectionTimeout <= et < maxElectionTimeout)
             /\ (g = false -> vote n' = v /\ elect n' = elect n)
             /\ (sendq n' = sendq n /\ state n' = state n /\ id n' = id n
                 /\ commit n' = commit n /\ wal n' = wal n /\ leadc n' = leadc n).
Proof.
  intros Hc Hv v g.
  destruct (castVote_spec vr t p n Hc Hv) as (n' & E & H1 & H2 & H3 & H4).
  exists n'. split; [exact E|]. split; [exact H1|]. split; [exact H2|].
  split; [exact H3|]. split; [exact H4|].
  revert E. unfold castVote.
  intros (n1 & E1 & E2)%bind_Done_inv.
  assert (F1 : sendq n1 = sendq n /\ state n1 = state n /\ id n1 = id n
               /\ commit n1 = commit n /\ wal n1 = wal n /\ leadc n1 = leadc n
               /\ (String.length (vote n1) <= 8)%nat).
  { revert E1. destruct (term n <? vr_term vr).
    - cbv zeta. rewrite writeTermVote_spec by (cbn; lia). cbn [mbind outcome_bind].
      intros [= <-]. unfold attemptStepDown.
      repeat match goal with |- context [if ?b then _ else _] => destruct b end;
        cbn; repeat split; lia.
    - intros [= <-]. repeat split. exact Hv. }
  destruct F1 as (A1 & A2 & A3 & A4 & A5 & A6 & A7).
  revert E2. destruct (_ || _).
  - cbv zeta. rewrite writeTermVote_spec by (cbn; lia). cbn [mbind outcome_bind].
    match goal with |- context [resetElectionTimeout ?m] =>
      destruct (resetElectionTimeout_spec m) as (et & h & -> & _) end.
    intros [= _ <-]. cbn. repeat split; assumption.
  - intros [= _ <-]. repeat split; assumption.
Qed.

(** [processVoteRequest] on a node that is not the leader. *)
Lemma processVoteRequest_full vr n :
  state n <> Leader -> wf_id (id n) -> wf_id (vr_candidate vr) ->
  (String.length (vote n) <= 8)%nat ->
  let g := vote_answer n vr in
  exists n', processVoteRequest vr n = Done (None, n')
    /\ sendq n' = sendq n ++ [mkPub (vr_reply vr) EmptyString
                                    (vresp_wire (mkVResp (term n) (id n) g))]
    /\ term n' = Z.max (term n) (vr_term vr)
    /\ vote n' = (if g then vr_candidate vr else vote_for_term n (vr_term vr))
    /\ (g = true -> termVoteFile (host n')
                    = Some (le_bytes 8 (term n') ++ str_bytes (vr_candidate vr)))
    /\ state n' = state n /\ id n' = id n /\ pindex n' = pindex n
    /\ commit n' = commit n /\ wal n' = wal n /\ leadc n' = leadc n.
Proof.
  intros Hs Hid Hc Hv g. unfold processVoteRequest.
  destruct (trackPeer_not_leader (vr_candidate vr) n Hs) as (ps & ->).
  cbn [mbind outcome_bind].
  change (term (set_peers ps n)) with (term n).
  unfold g, vote_answer.
  destruct (Z.ltb_spec (vr_term vr) (term n)) as [Hold|Hnew].
  - destruct (Z.leb_spec (term n) (vr_term vr)); [lia|]. cbn [andb].
    rewrite voteResponse_encode_wire by exact Hid. cbn [mbind outcome_bind].
    eexists. split; [reflexivity|]. cbn.
    unfold vote_for_term. destruct (Z.ltb_spec (term n) (vr_term vr)); [lia|].
    repeat split; try reflexivity; try lia; try discriminate.
  - destruct (Z.leb_spec (term n) (vr_term vr)); [|lia]. cbn [andb].
    destruct (castVote_frame vr (term n) (id n) (set_peers ps n))
      as (n' & -> & Ht & Hp & Hg & Hng & Hfr); [unfold wf_id in Hc; lia|exact Hv|].
    cbn [mbind outcome_bind].
    rewrite voteResponse_encode_wire by exact Hid. cbn [mbind outcome_bind].
    eexists. split; [reflexivity|].
    cbn [sendq sendReply set_sendq term vote host state id pindex commit wal leadc].
    cbn [term vote pindex set_peers] in Ht, Hp, Hg, Hng, Hfr.
    fold (vote_for_term n (vr_term vr)) in Hg, Hng |- *.
    destruct Hfr as (F1 & F2 & F3 & F4 & F5 & F6).
    cbn [sendq state id commit wal leadc set_peers] in F1, F2, F3, F4, F5, F6.
    rewrite F1. split; [reflexivity|]. split; [exact Ht|].
    destruct (grants _ _ _ _) eqn:Eg.
    + destruct (Hg eq_refl) as (Hv' & Hf & _).
      repeat split; try assumption. intros _. exact Hf.
    + destruct (Hng eq_refl) as (Hv' & _).
      repeat split; try assumption. discriminate.
Qed.

End VoteRequests.

Section FollowerLoop.

Context {W : Type} {walOps : WAL W}.
Implicit Types (n : @raft W) (vr : voteRequest).

Lemma vote_answer_length n vr :
  wf_id (vr_candidate vr) -> (String.length (vote n) <= 8)%nat ->
  (String.length (if vote_answer n vr then vr_candidate vr
                  else vote_for_term n (vr_term vr)) <= 8)%nat.
Proof.
  intros Hc Hv. unfold wf_id in Hc. destruct (vote_answer n vr); [lia|].
  unfold vote_for_term. destruct (_ <? _); [cbn; lia|exact Hv].
Qed.

End FollowerLoop.



(** X12.  One vote per term: of two requests of the same term by
    different candidates that a node (not the leader) processes one
    after the other, at most one is granted. *)
Theorem one_vote_per_term {W : Type} {walOps : WAL W} (vr1 vr2 : voteRequest)
    (n : @raft W) :
  state n <> Leader -> wf_id (id n) ->
  wf_id (vr_candidate vr1) -> wf_id (vr_candidate vr2) ->
  (String.length (vote n) <= 8)%nat ->
  vr_term vr1 = vr_term vr2 -> vr_candidate vr1 <> vr_candidate vr2 ->
  exists n1 n2 (g1 g2 : bool),
    processVoteRequest vr1 n = Done (None, n1)
    /\ processVoteRequest vr2 n1 = Done (None, n2)
    /\ sendq n2 = sendq n
                  ++ [mkPub (vr_reply vr1) EmptyString (vresp_wire (mkVResp (term n) (id n) g1));
                      mkPub (vr_reply vr2) EmptyString (vresp_wire (mkVResp (term n1) (id n) g2))]
    /\ g1 && g2 = false.
Proof.
  intros Hs Hid Hc1 Hc2 Hv Ht Hne.
  destruct (processVoteRequest_full vr1 n Hs Hid Hc1 Hv)
    as (n1 & E1 & Hq1 & Htm1 & Hvote1 & _ & Hst1 & Hid1 & Hp1 & _).
  assert (Hv1 : (String.length (vote n1) <= 8)%nat).
  { rewrite Hvote1. apply vote_answer_length; assumption. }
  destruct (processVoteRequest_full vr2 n1) as (n2 & E2 & Hq2 & _);
    [congruence|rewrite Hid1; exact Hid|exact Hc2|exact Hv1|].
  exists n1, n2, (vote_answer n vr1), (vote_answer n1 vr2).
  split; [exact E1|]. split; [exact E2|]. split.
  - rewrite Hq2, Hq1, <- app_assoc, Hid1. reflexivity.
  - destruct (vote_answer n vr1) eqn:G1; [|reflexivity]. cbn [andb].
    unfold vote_answer in *. apply andb_prop in G1 as [Hle _].
    apply Z.leb_le in Hle.
    unfold vote_for_term. rewrite Htm1, Hvote1.
    replace (Z.max (term n) (vr_term vr1)) with (vr_term vr2) by lia.
    rewrite Z.ltb_irrefl. unfold grants.
    rewrite (bool_decide_eq_false_2 (vr_candidate vr1 = noVote)).
    + rewrite (bool_decide_eq_false_2 _ Hne), andb_false_r. apply andb_false_r.
    + intros Hn. unfold wf_id in Hc1. rewrite Hn in Hc1. discriminate.
Qed.

Lemma one_vote_per_term_witness :
  exists n1 n2 (g1 g2 : bool),
    processVoteRequest request_of_B (sample_node memWAL_empty) = Done (None, n1)
    /\ processVoteRequest request_of_C n1 = Done (None, n2)
    /\ sendq n2 = [mkPub "$NRG.R.b" EmptyString (vresp_wire (mkVResp 1 "nodeAAAA" g1));
                   mkPub "$NRG.R.c" EmptyString (vresp_wire (mkVResp (term n1) "nodeAAAA" g2))]
    /\ g1 && g2 = false.
Proof.
  apply (one_vote_per_term request_of_B request_of_C (sample_node memWAL_empty)).
  - discriminate.
  - reflexivity.
  - reflexivity.
  - reflexivity.
  - cbn. lia.
  - reflexivity.
  - discriminate.
Defined.

(** X13.  A follower answers the vote requests it receives without
    leaving its loop: for every list of requests with 8-byte
    candidates [runAsFollower] goes on waiting, has sent one message
    for each request, in order, on the request's reply subject, is in
    the state it was in, and its term is at least its old term and at
    least the term of every request. *)
Theorem follower_answers_requests {W : Type} {walOps : WAL W} (vrs : list voteRequest) :
  forall n : @raft W,
  state n <> Leader -> wf_id (id n) -> Forall (fun vr => wf_id (vr_candidate vr)) vrs ->
  (String.length (vote n) <= 8)%nat ->
  exists n' out, runAsFollower (map FReq vrs) n = Done (false, n')
    /\ sendq n' = sendq n ++ out
    /\ map pm_subject out = map vr_reply vrs
    /\ state n' = state n /\ term n <= term n'
    /\ Forall (fun vr => vr_term vr <= term n') vrs.
Proof.
  induction vrs as [|vr vrs IH]; intros n Hs Hid Hcs Hv.
  - exists n, []. cbn. rewrite app_nil_r. repeat split; try lia. constructor.
  - inversion Hcs as [|? ? Hc Hcs']; subst. cbn [map runAsFollower].
    destruct (processVoteRequest_full vr n Hs Hid Hc Hv)
      as (n1 & -> & Hq & Ht & Hvote & _ & Hst & Hid1 & _).
    cbn [mbind outcome_bind].
    destruct (IH n1) as (n' & out & -> & Hout & Hsub & Hst' & Hle & Hall).
    + congruence.
    + rewrite Hid1. exact Hid.
    + exact Hcs'.
    + rewrite Hvote. apply vote_answer_length; assumption.
    + eexists n', (_ :: out). split; [reflexivity|].
      split; [rewrite Hout, Hq, <- app_assoc; reflexivity|].
      split; [cbn [map pm_subject]; f_equal; exact Hsub|].
      split; [congruence|]. split; [lia|].
      constructor; [lia|exact Hall].
Qed.

Lemma follower_answers_requests_witness :
  exists n' out,
    runAsFollower (map FReq [request_of_B; request_of_C]) (sample_node memWAL_empty)
    = Done (false, n')
    /\ sendq n' = [] ++ out
    /\ map pm_subject out = ["$NRG.R.b"%string; "$NRG.R.c"%string]
    /\ state n' = Follower /\ 1 <= term n'
    /\ Forall (fun vr => vr_term vr <= term n') [request_of_B; request_of_C].
Proof.
  apply (follower_answers_requests [request_of_B; request_of_C] (sample_node memWAL_empty)).
  - discriminate.
  - reflexivity.
  - repeat constructor.
  - cbn. lia.
Defined.



(** ** Proposals and the leader loop *)

Section LeaderLoop.

Context {W : Type} {walOps : WAL W}.
Implicit Types (n : @raft W) (es q : list Entry).

Lemma batch_size_nonneg es : 0 <= batch_size es.
Proof.
  induction es as [|e es IH]; [cbn; lia|].
  cbn [batch_size fold_right]. fold (batch_size es). lia.
Qed.

(** The gather loop keeps the proposals and their order. *)
Lemma gather_split q : forall (sz : Z) es,
  fst (gather q sz es) ++ snd (gather q sz es) = es ++ q.
Proof.
  induction q as [|e q IH]; intros sz es; cbn [gather].
  - reflexivity.
  - destruct (sz <? maxBatch); [|reflexivity].
    rewrite IH, <- app_assoc. reflexivity.
Qed.

(** It takes the whole queue when the sizes stay within [maxBatch]. *)
Lemma gather_all q : forall (sz : Z) es,
  0 <= sz -> sz + batch_size q <= maxBatch -> gather q sz es = (es ++ q, []).
Proof.
  induction q as [|e q IH]; intros sz es H0 Hb; cbn [gather].
  - rewrite app_nil_r. reflexivity.
  - cbn [batch_size fold_right] in Hb. fold (batch_size q) in Hb.
    pose proof (batch_size_nonneg q).
    destruct (Z.ltb_spec sz maxBatch); [|lia].
    assert (Hm : maxBatch < 2 ^ 62) by (unfold maxBatch; reflexivity).
    rewrite wrapInt_small by lia.
    rewrite IH by lia. rewrite <- app_assoc. reflexivity.
Qed.

Lemma mark_snapshots_spec es : forall n,
  mark_snapshots es n
  = if existsb (fun e => Byte.eqb (Typ e) EntrySnapshot) es
    then set_sindex (pindex n) n else n.
Proof.
  unfold mark_snapshots.
  induction es as [|e es IH]; intros n; cbn [fold_left existsb]; [reflexivity|].
  rewrite IH. destruct (Byte.eqb (Typ e) EntrySnapshot); cbn [orb].
  - destruct (existsb _ es); reflexivity.
  - reflexivity.
Qed.

(** [sendAppendEntry] with entries, on a log that stores the message
    at the index after [pindex]. *)
Lemma sendAppendEntry_stored es n (seq : Z) (w' : W) :
  es <> [] -> wf_id (id n) -> Forall (fun e => Slice.wf (Data e)) es ->
  StoreMsg (wal n) (ae_wire (buildAppendEntry es n)) = (inr seq, w') ->
  pindex n = wrap64 (seq - 1) ->
  exists n', sendAppendEntry es n = Done n'
    /\ wal n' = w' /\ pindex n' = seq /\ pterm n' = term n
    /\ acks n' = <[seq := {[ id n ]}]> (acks n)
    /\ sindex n' = (if existsb (fun e => Byte.eqb (Typ e) EntrySnapshot) es
                    then seq else sindex n)
    /\ active n' = now n
    /\ sendq n' = sendq n ++ [mkPub (asubj (subj n)) (areply (subj n))
                                    (ae_wire (buildAppendEntry es n))]
    /\ state n' = state n /\ term n' = term n /\ commit n' = commit n
    /\ propc n' = propc n /\ id n' = id n /\ leadc n' = leadc n /\ peers n' = peers n
    /\ qn n' = qn n /\ host n' = host n.
Proof.
  intros Hne Hid Hwf Hst Hp. unfold sendAppendEntry.
  rewrite appendEntry_encode_wire by (cbn; assumption). cbn [mbind outcome_bind].
  destruct es as [|e es']; [contradiction|]. cbn [length Nat.ltb Nat.leb].
  unfold storeToWAL. cbn [ae_buf ae_set_buf]. rewrite Hst.
  cbn [ae_pindex ae_set_buf buildAppendEntry]. rewrite Hp, Z.eqb_refl. cbn [negb].
  cbn [mbind outcome_bind]. rewrite mark_snapshots_spec.
  destruct (existsb _ (e :: es')); eexists; (split; [reflexivity|]); cbn;
    repeat split; reflexivity.
Qed.

(** [switchToFollower] on a node that is not closed. *)
Lemma switchToFollower_full (ldr : string) n :
  state n <> Closed -> (length (leadc n) <= 4)%nat ->
  exists n', switchToFollower ldr n = Done n'
    /\ state n' = Follower /\ leader n' = ldr /\ vote n' = noVote /\ term n' = term n
    /\ termVoteFile (host n') = Some (le_bytes 8 (term n))
    /\ (state n = Leader -> last (leadc n') = Some false)
    /\ sendq n' = sendq n /\ wal n' = wal n /\ pindex n' = pindex n
    /\ commit n' = commit n.
Proof.
  intros Hs Hlen. unfold switchToFollower.
  destruct (switchState_full Follower (set_leader ldr n) Hs Hlen)
    as (n' & -> & H1 & H2 & H3 & H4 & H5 & _ & H7 & _ & H9 & H10 & _ & _ & H13 & _ & _ & H16 & _).
  exists n'. split; [reflexivity|]. cbn -[le_bytes] in *.
  repeat split; try assumption.
  intros HL. rewrite HL in H7. cbn in H7. exact H7.
Qed.

End LeaderLoop.

(** X15.  Proposals are accepted on the leader only and never overfill
    the proposal queue of 256: [Propose] queues a Normal entry when the
    node is the leader, a pause (if any) ended by a resume, and the
    queue has room; [ProposeAddPeer] queues an AddPeer entry on a
    leader with room; [Snapshot] queues a Snapshot entry on a leader
    with room whose commit index equals its applied index.  A refused
    proposal leaves the node unchanged and a node that is not the
    leader answers [errNotLeader]. *)
Theorem proposals_need_leader_and_room {W : Type} {walOps : WAL W} (n : @raft W)
    (pausec : option pauseWait) (data snap : Slice.t) (peer : string) :
  proposal_outcome (Propose pausec data n) (mkEntry EntryNormal data) n
    (state n = Leader /\ pausec <> Some WaitQuit /\ pausec <> Some WaitTimeout
     /\ (length (propc n) < 256)%nat)
  /\ proposal_outcome (ProposeAddPeer peer n)
       (mkEntry EntryAddPeer (Slice.of_list (str_bytes peer))) n
       (state n = Leader /\ (length (propc n) < 256)%nat)
  /\ proposal_outcome (Snapshot snap n) (mkEntry EntrySnapshot snap) n
       (state n = Leader /\ commit n = applied n /\ (length (propc n) < 256)%nat).
Proof.
  assert (Hfull : chan_full (propc n) 256 = negb (length (propc n) <? 256)%nat).
  { unfold chan_full. destruct (Z.leb_spec 256 (Z.of_nat (length (propc n)))),
      (Nat.ltb_spec (length (propc n)) 256); (reflexivity || lia). }
  assert (Hgrow : (length (propc n) < 256)%nat ->
                  forall e, (length (propc n ++ [e]) <= 256)%nat).
  { intros H e. rewrite length_app. cbn. lia. }
  unfold proposal_outcome, Propose, ProposeAddPeer, Snapshot, isCurrent.
  destruct (bool_decide_reflect (state n = Leader)) as [HL|HL]; cbn [negb].
  - rewrite Hfull.
    destruct (Nat.ltb_spec (length (propc n)) 256) as [Hroom|Hroom]; cbn [negb].
    + split; [|split].
      * destruct pausec as [[| |]|]; cbn [fst snd];
          intuition (try congruence; try discriminate; try lia; try (cbn [propc set_propc]; auto)).
      * cbn [fst snd]. intuition (try congruence; try discriminate; try lia; try (cbn [propc set_propc]; auto)).
      * destruct (Z.eqb_spec (commit n) (applied n)) as [E|E]; cbn [negb fst snd].
        -- rewrite Hfull.
           destruct (Nat.ltb_spec (length (propc n)) 256); [|lia]. cbn [negb fst snd].
           intuition (try congruence; try discriminate; try lia; try (cbn [propc set_propc]; auto)).
        -- intuition (try congruence; try discriminate; try lia; try (cbn [propc set_propc]; auto)).
    + split; [|split].
      * destruct pausec as [[| |]|]; cbn [fst snd];
          intuition (try congruence; try discriminate; try lia; try (cbn [propc set_propc]; auto)).
      * cbn [fst snd]. intuition (try congruence; try discriminate; try lia; try (cbn [propc set_propc]; auto)).
      * destruct (Z.eqb_spec (commit n) (applied n)) as [E|E]; cbn [negb fst snd].
        -- rewrite Hfull.
           destruct (Nat.ltb_spec (length (propc n)) 256); [lia|]. cbn [negb fst snd].
           intuition (try congruence; try discriminate; try lia; try (cbn [propc set_propc]; auto)).
        -- intuition (try congruence; try discriminate; try lia; try (cbn [propc set_propc]; auto)).
  - cbn [fst snd]. intuition (try congruence; try discriminate; try lia; try (cbn [propc set_propc]; auto)).
Qed.



(** X17.  The leader takes the oldest proposal of its queue.  If it is
    a Normal entry, the proposals queued behind it, of whatever type,
    go into the same batch in order when their sizes add up to at most
    [maxBatch]; an entry of another type goes alone and the rest stays
    queued.  The batch is stored in
    the log, which must place it right after [pindex], and sent as one
    append entry on the append subject: [pindex] moves to the new
    index, [pterm] becomes the term, and the leader's own ack is
    recorded for that index. *)
Theorem leader_batches_proposals {W : Type} {walOps : WAL W} (n : @raft W)
    (b : Entry) (q : list Entry) (started : list (string * string)) (seq : Z) (w' : W) :
  let batch := if Byte.eqb (Typ b) EntryNormal then b :: q else [b] in
  let left := if Byte.eqb (Typ b) EntryNormal then [] else q in
  propc n = b :: q -> batch_size q <= maxBatch ->
  wf_id (id n) -> Forall (fun e => Slice.wf (Data e)) (b :: q) ->
  StoreMsg (wal n) (ae_wire (buildAppendEntry batch n)) = (inr seq, w') ->
  pindex n = wrap64 (seq - 1) ->
  exists n', leader_loop [LProp] started n = Done (false, started, n')
    /\ propc n' = left
    /\ wal n' = w' /\ pindex n' = seq /\ pterm n' = term n
    /\ acks n' = <[seq := {[ id n ]}]> (acks n)
    /\ sendq n' = sendq n ++ [mkPub (asubj (subj n)) (areply (subj n))
                                    (ae_wire (buildAppendEntry batch n))].
Proof.
  intros batch left Hq Hsz Hid Hwf Hst Hp. cbn [leader_loop]. rewrite Hq.
  assert (Hg : (if Byte.eqb (Typ b) EntryNormal then gather q 0 [b] else ([b], q))
               = (batch, left)).
  { unfold batch, left. destruct (Byte.eqb (Typ b) EntryNormal); [|reflexivity].
    rewrite gather_all by lia. reflexivity. }
  rewrite Hg.
  destruct (sendAppendEntry_stored batch (set_propc left n) seq w')
    as (n' & -> & H1 & H2 & H3 & H4 & _ & _ & H7 & _ & _ & _ & H11 & _).
  - unfold batch. destruct (Byte.eqb _ _); discriminate.
  - exact Hid.
  - unfold batch. destruct (Byte.eqb _ _); [exact Hwf|].
    inversion Hwf; subst. repeat constructor. assumption.
  - exact Hst.
  - exact Hp.
  - exists n'. split; [reflexivity|]. repeat split; assumption.
Qed.

Lemma leader_batches_proposals_witness :
  exists n', leader_loop [LProp] [] fresh_leader = Done (false, [], n')
    /\ propc n' = []
    /\ wal n' = snd (mw_store memWAL_empty
                       (ae_wire (buildAppendEntry [normal_entry "a"; normal_entry "b"]
                                                  fresh_leader)))
    /\ pindex n' = 1 /\ pterm n' = 1
    /\ acks n' = <[1 := {[ "nodeAAAA"%string ]}]> ∅
    /\ sendq n' = [] ++ [mkPub "$NRG.E.C.G" "$NRG.R.append"
                               (ae_wire (buildAppendEntry [normal_entry "a"; normal_entry "b"]
                                                          fresh_leader))].
Proof.
  apply (leader_batches_proposals fresh_leader (normal_entry "a") [normal_entry "b"] [] 1).
  - reflexivity.
  - vm_compute. discriminate.
  - reflexivity.
  - repeat constructor.
  - reflexivity.
  - reflexivity.
Defined.

(** X18.  A leader that receives a vote response with a term above its
    own, or a step-down request, leaves [runAsLeader]'s loop as a
    follower: the leader field is cleared in the first case and set to
    the leader named in the second, the vote is cleared, [false] is
    posted on the lead-change channel, and the node keeps its own term
    (it does not take the higher term of the response). *)
Theorem leader_steps_down {W : Type} {walOps : WAL W} (n : @raft W)
    (ev : leaderEvent) (rest : list leaderEvent) (started : list (string * string)) :
  state n = Leader -> (length (leadc n) <= 4)%nat ->
  match ev with
  | LVote vresp => term n < vresp_term vresp
  | LStepdown _ => True
  | _ => False
  end ->
  exists n', leader_loop (ev :: rest) started n = Done (true, started, n')
    /\ state n' = Follower
    /\ leader n' = match ev with LStepdown newLeader => newLeader | _ => noLeader end
    /\ vote n' = noVote /\ term n' = term n
    /\ termVoteFile (host n') = Some (le_bytes 8 (term n))
    /\ last (leadc n') = Some false
    /\ sendq n' = sendq n.
Proof.
  intros HL Hlen Hev.
  assert (Hs : state n <> Closed) by congruence.
  destruct ev as [| | |vresp| |newLeader|]; try contradiction; cbn [leader_loop].
  - unfold currentTerm. destruct (Z.ltb_spec (term n) (vresp_term vresp)); [|lia].
    destruct (switchToFollower_full noLeader n Hs Hlen)
      as (n' & -> & H1 & H2 & H3 & H4 & H5 & H6 & H7 & _).
    exists n'. split; [reflexivity|]. repeat split; auto.
  - destruct (switchToFollower_full newLeader n Hs Hlen)
      as (n' & -> & H1 & H2 & H3 & H4 & H5 & H6 & H7 & _).
    exists n'. split; [reflexivity|]. repeat split; auto.
Qed.

Lemma leader_steps_down_witness :
  exists n', leader_loop [LVote (mkVResp 9 "nodeBBBB" false)] [] fresh_leader
             = Done (true, [], n')
    /\ state n' = Follower /\ leader n' = noLeader
    /\ vote n' = noVote /\ term n' = 1
    /\ termVoteFile (host n') = Some (le_bytes 8 1)
    /\ last (leadc n') = Some false
    /\ sendq n' = [].
Proof.
  apply (leader_steps_down fresh_leader (LVote (mkVResp 9 "nodeBBBB" false)) [] []).
  - reflexivity.
  - cbn. lia.
  - cbn. lia.
Defined.

(** X19.  The heartbeat tick of the leader: when nothing was sent for
    more than [hbInterval] a heartbeat goes out on the append subject,
    an append entry with the leader's id, term, commit, pterm and
    pindex and no entries, and nothing is stored; then, if the quorum
    is lost, the leader leaves the loop as a follower with no leader,
    and else stays in the loop as leader. *)
Theorem leader_tick {W : Type} {walOps : WAL W} (n : @raft W)
    (started : list (string * string)) :
  state n = Leader -> wf_id (id n) -> (length (leadc n) <= 4)%nat ->
  exists n', leader_loop [LTick] started n = Done (lostQuorumLocked n, started, n')
    /\ sendq n' = sendq n
                  ++ (if notActive n
                      then [mkPub (asubj (subj n)) (areply (subj n))
                                  (ae_wire (mkAE (id n) (term n) (commit n) (pterm n)
                                                 (pindex n) [] EmptyString None))]
                      else [])
    /\ wal n' = wal n /\ pindex n' = pindex n /\ commit n' = commit n
    /\ state n' = (if lostQuorumLocked n then Follower else Leader)
    /\ (lostQuorumLocked n = true -> leader n' = noLeader).
Proof.
  intros HL Hid Hlen. cbn [leader_loop].
  set (n1 := if notActive n
             then sendRPC (asubj (subj n)) (areply (subj n))
                          (ae_wire (buildAppendEntry [] n)) n
             else n).
  assert (E1 : (if notActive n then sendHeartbeat n else Done n) = Done n1).
  { unfold n1. destruct (notActive n); [apply sendHeartbeat_spec; exact Hid|reflexivity]. }
  rewrite E1. cbn [mbind outcome_bind].
  assert (F : lostQuorum n1 = lostQuorumLocked n /\ state n1 = Leader
              /\ leadc n1 = leadc n /\ wal n1 = wal n /\ pindex n1 = pindex n
              /\ commit n1 = commit n
              /\ sendq n1 = sendq n
                            ++ (if notActive n
                                then [mkPub (asubj (subj n)) (areply (subj n))
                                            (ae_wire (buildAppendEntry [] n))]
                                else [])).
  { unfold n1. destruct (notActive n).
    - repeat split; assumption.
    - rewrite app_nil_r. repeat split; assumption. }
  destruct F as (F1 & F2 & F3 & F4 & F5 & F6 & F7). rewrite F1.
  destruct (lostQuorumLocked n).
  - destruct (switchToFollower_full noLeader n1)
      as (n' & -> & H1 & H2 & _ & _ & _ & _ & H7 & H8 & H9 & H10);
      [congruence|rewrite F3; exact Hlen|].
    exists n'. split; [reflexivity|].
    split; [rewrite H7; exact F7|].
    repeat split; try congruence.
  - exists n1. split; [reflexivity|].
    split; [exact F7|].
    repeat split; try congruence; try discriminate.
Qed.

Lemma leader_tick_witness :
  exists n', leader_loop [LTick] [] fresh_leader
             = Done (lostQuorumLocked fresh_leader, [], n')
    /\ sendq n' = sendq fresh_leader
                  ++ (if notActive fresh_leader
                      then [mkPub (asubj (subj fresh_leader)) (areply (subj fresh_leader))
                                  (ae_wire (mkAE (id fresh_leader) (term fresh_leader)
                                                 (commit fresh_leader) (pterm fresh_leader)
                                                 (pindex fresh_leader) [] EmptyString None))]
                      else [])
    /\ wal n' = wal fresh_leader /\ pindex n' = pindex fresh_leader
    /\ commit n' = commit fresh_leader
    /\ state n' = (if lostQuorumLocked fresh_leader then Follower else Leader)
    /\ (lostQuorumLocked fresh_leader = true -> leader n' = noLeader).
Proof.
  apply (leader_tick fresh_leader []).
  - reflexivity.
  - reflexivity.
  - cbn. lia.
Defined.

(** ** Peers, status, stepping down, catching up *)

Section Status.

Context {W : Type} {walOps : WAL W}.
Implicit Types (n : @raft W).

(** [storeToWAL] and [sendAppendEntry] leave the peers, the state and
    the channels of the node alone. *)
Lemma sendAppendEntry_frame (es : list Entry) n n' :
  sendAppendEntry es n = Done n' ->
  peers n' = peers n /\ state n' = state n /\ stepdown n' = stepdown n
  /\ term n' = term n /\ commit n' = commit n /\ id n' = id n /\ csz n' = csz n
  /\ host n' = host n.
Proof.
  unfold sendAppendEntry.
  intros (buf & _ & H)%bind_Done_inv.
  apply bind_Done_inv in H as (n1 & H1 & H).
  injection H as <-.
  assert (F : peers n1 = peers n /\ state n1 = state n /\ stepdown n1 = stepdown n
              /\ term n1 = term n /\ commit n1 = commit n /\ id n1 = id n /\ csz n1 = csz n
              /\ host n1 = host n).
  { destruct (0 <? length es)%nat; [|injection H1 as <-; repeat split].
    apply bind_Done_inv in H1 as ([err n2] & H2 & H1).
    destruct err; [discriminate|]. injection H1 as <-.
    rewrite mark_snapshots_spec.
    unfold storeToWAL in H2. cbn [ae_buf ae_set_buf] in H2.
    destruct (StoreMsg (wal n) buf) as [[e|seq] w]; [discriminate|].
    destruct (negb _); [discriminate|]. injection H2 as <-.
    destruct (existsb _ es); cbn; repeat split. }
  exact F.
Qed.

End Status.

(** X20.  [trackPeer]: a leader that does not know the peer and already
    tracks as many peers as the cluster size answers [errUnknownPeer]
    and changes nothing.  A node that is not the leader, or that knows
    the peer, records the time for the peer, keeps its replicated
    index (0 for a new peer), touches nothing else and sends nothing.
    Whenever [trackPeer] returns without an error, the peer is
    recorded with the time of the call and no other peer's record has
    changed. *)
Theorem trackPeer_records {W : Type} {walOps : WAL W} (n : @raft W) (peer : string) :
  let rec := mkLps (now n) (from_option li 0 (peers n !! peer)) in
  (state n = Leader -> peers n !! peer = None -> csz n <= Z.of_nat (size (peers n)) ->
   trackPeer peer n = Done (Some errUnknownPeer, n))
  /\ (state n <> Leader \/ is_Some (peers n !! peer) ->
      trackPeer peer n = Done (None, set_peers (<[peer := rec]> (peers n)) n))
  /\ (forall n', trackPeer peer n = Done (None, n') ->
        peers n' !! peer = Some rec
        /\ forall p, p <> peer -> peers n' !! p = peers n !! p).
Proof.
  intros rec.
  assert (Htouch : (match peers n !! peer with
                    | Some ps => set_peers (<[peer := mkLps (now n) (li ps)]> (peers n)) n
                    | None => set_peers (<[peer := mkLps (now n) 0]> (peers n)) n
                    end) = set_peers (<[peer := rec]> (peers n)) n).
  { unfold rec. destruct (peers n !! peer); reflexivity. }
  split; [|split].
  - intros HL Hn Hfull. unfold trackPeer.
    rewrite (bool_decide_eq_true_2 _ HL), (bool_decide_eq_true_2 _ Hn). cbn [andb].
    destruct (Z.leb_spec (csz n) (Z.of_nat (size (peers n)))); [reflexivity|lia].
  - intros Hk. unfold trackPeer.
    assert (Hu : bool_decide (state n = Leader) && bool_decide (peers n !! peer = None)
                 = false).
    { destruct Hk as [Hs|[ps Hps]].
      - rewrite (bool_decide_eq_false_2 _ Hs). reflexivity.
      - rewrite (bool_decide_eq_false_2 (peers n !! peer = None)) by congruence.
        apply andb_false_r. }
    rewrite Hu. cbn [andb]. rewrite Htouch. reflexivity.
  - intros n'. unfold trackPeer.
    destruct (bool_decide (state n = Leader) && bool_decide (peers n !! peer = None)).
    + cbn [andb]. destruct (csz n <=? _); [discriminate|].
      rewrite Htouch. intros (n1 & H1 & H)%bind_Done_inv. injection H as <-.
      unfold sendPeerState in H1. apply bind_Done_inv in H1 as (data & _ & H1).
      apply sendAppendEntry_frame in H1 as (Hp & _). rewrite Hp. cbn [peers set_peers].
      split; [apply lookup_insert_eq|]. intros p Hp'. apply lookup_insert_ne. congruence.
    + cbn [andb]. rewrite Htouch. cbn [mbind outcome_bind]. intros [= <-].
      cbn [peers set_peers].
      split; [apply lookup_insert_eq|]. intros p Hp'. apply lookup_insert_ne. congruence.
Qed.

Lemma trackPeer_records_witness :
  trackPeer "nodeBBBB" (sample_node memWAL_empty)
  = Done (None, set_peers (<["nodeBBBB"%string := mkLps 1000 0]> sample_peers)
                          (sample_node memWAL_empty)).
Proof.
  apply (trackPeer_records (sample_node memWAL_empty) "nodeBBBB"). left. discriminate.
Defined.



Section StepDownScan.

Implicit Types (visit : list (string * lps)).



End StepDownScan.



(** X23.  [catchupFollower] starts at most one catch-up for a peer: with
    a catch-up of the peer under way it starts nothing and changes
    nothing.  When it starts one, for the peer and the reply subject
    of the response, the entry it found is the one stored after the
    index of the response or, if that cannot be loaded, the first
    entry of the log; the new progress channel holds that entry's
    previous index, and a further response of the peer starts
    nothing. *)
Theorem catchupFollower_once {W : Type} {walOps : WAL W} (ar : appendEntryResponse)
    (n : @raft W) :
  (is_Some (progress n !! ar_peer ar) -> catchupFollower ar n = Done (None, n))
  /\ (forall go n',
        catchupFollower ar n = Done (Some go, n') ->
        go = (ar_peer ar, ar_reply ar)
        /\ progress n !! ar_peer ar = None
        /\ (exists ae,
              (loadEntry (wrap64 (ar_index ar + 1)) n = Done (inr (Some ae))
               \/ (exists e, loadEntry (wrap64 (ar_index ar + 1)) n = Done (inl e))
                  /\ loadFirstEntry n = Done (inr (Some ae)))
              /\ n' = set_progress (<[ar_peer ar := [ae_pindex ae]]> (progress n)) n)
        /\ forall ar', ar_peer ar' = ar_peer ar -> catchupFollower ar' n' = Done (None, n')).
Proof.
  split.
  - intros [c Hc]. unfold catchupFollower. rewrite Hc. reflexivity.
  - intros go n'. unfold catchupFollower.
    destruct (progress n !! ar_peer ar) eqn:Hp; [discriminate|].
    intros (r & Hr & H)%bind_Done_inv.
    apply bind_Done_inv in H as (r' & Hr' & H).
    destruct r' as [e|[ae|]]; try discriminate.
    injection H as <- <-.
    split; [reflexivity|]. split; [reflexivity|]. split.
    + exists ae. split; [|reflexivity].
      destruct r as [e|oae].
      * right. split; [exists e; exact Hr|exact Hr'].
      * left. injection Hr' as ->. exact Hr.
    + intros ar' Hpeer. unfold catchupFollower. cbn [progress set_progress].
      rewrite Hpeer, lookup_insert_eq. reflexivity.
Qed.

Lemma catchupFollower_once_witness :
  exists n', catchupFollower behind_response leader_with_log
             = Done (Some ("nodeBBBB"%string, "$NRG.R.catchup"%string), n')
             /\ catchupFollower behind_response n' = Done (None, n').
Proof.
  eexists. split; [vm_compute; reflexivity|].
  eapply (proj2 (catchupFollower_once behind_response leader_with_log));
    [vm_compute; reflexivity|reflexivity].
Defined.

(** ** Resuming the apply channel, tracking responses *)

Section Resume.

Context {W : Type} {walOps : WAL W}.
Implicit Types (n : @raft W).

(** The first two steps of [trackResponse] touch the peers and the
    progress channels only. *)
Lemma trackResponse_pre (ar : appendEntryResponse) n :
  exists ps pg,
    (let n1 := match peers n !! ar_peer ar with
               | Some p => if li p <? ar_index ar
                           then set_peers (<[ar_peer ar := mkLps (ts p) (ar_index ar)]> (peers n)) n
                           else n
               | None => n
               end in
     match progress n1 !! ar_peer ar with
     | Some c => set_progress (<[ar_peer ar := c ++ [ar_index ar]]> (progress n1)) n1
     | None => n1
     end) = set_progress pg (set_peers ps n)
    /\ (forall p, peers n !! ar_peer ar = Some p ->
          ps !! ar_peer ar = Some (mkLps (ts p) (Z.max (li p) (ar_index ar))))
    /\ (forall q, q <> ar_peer ar -> ps !! q = peers n !! q)
    /\ (peers n !! ar_peer ar = None -> ps = peers n).
Proof.
  cbv zeta.
  set (n1 := match peers n !! ar_peer ar with Some _ => _ | None => _ end).
  assert (H1 : exists ps, n1 = set_peers ps n
                /\ (forall p, peers n !! ar_peer ar = Some p ->
                      ps !! ar_peer ar = Some (mkLps (ts p) (Z.max (li p) (ar_index ar))))
                /\ (forall q, q <> ar_peer ar -> ps !! q = peers n !! q)
                /\ (peers n !! ar_peer ar = None -> ps = peers n)).
  { unfold n1. destruct (peers n !! ar_peer ar) as [p|] eqn:Ep.
    - destruct (Z.ltb_spec (li p) (ar_index ar)).
      + eexists. split; [reflexivity|]. split; [|split].
        * intros p' [= <-]. rewrite lookup_insert_eq. do 2 f_equal. lia.
        * intros q Hq. apply lookup_insert_ne. congruence.
        * discriminate.
      + exists (peers n). split; [destruct n; reflexivity|]. split; [|split].
        * intros p' [= <-]. rewrite Ep. destruct p as [t l]. cbn in *. do 2 f_equal. lia.
        * reflexivity.
        * reflexivity.
    - exists (peers n). split; [destruct n; reflexivity|]. split; [|split].
      + discriminate.
      + reflexivity.
      + reflexivity. }
  destruct H1 as (ps & -> & Hp1 & Hp2 & Hp3).
  cbn [progress set_peers].
  destruct (progress n !! ar_peer ar).
  - eexists _, _. split; [reflexivity|]. split; [exact Hp1|]. split; [exact Hp2|exact Hp3].
  - exists ps, (progress n). split; [destruct n; reflexivity|].
    split; [exact Hp1|]. split; [exact Hp2|exact Hp3].
Qed.

Lemma membership_compose (c c' q q' : Z) (ps ps' : gmap string lps) (h h' : hostState) n :
  set_host h' (set_peers ps' (set_qn q' (set_csz c'
     (set_host h (set_peers ps (set_qn q (set_csz c n)))))))
  = set_host h' (set_peers ps' (set_qn q' (set_csz c' n))).
Proof. destruct n. reflexivity. Qed.

Lemma membership_id n :
  n = set_host (host n) (set_peers (peers n) (set_qn (qn n) (set_csz (csz n) n))).
Proof. destruct n. reflexivity. Qed.

(** The entry loop of [applyCommit] changes the cluster size, the
    quorum, the peers and the host's files, and no other field. *)
Lemma apply_entries_shape (es : list Entry) : forall (acc : list Entry) n r n',
  apply_entries es acc n = Done (r, n') ->
  exists c q ps h, n' = set_host h (set_peers ps (set_qn q (set_csz c n))).
Proof.
  induction es as [|e es IH]; intros acc n r n'; cbn [apply_entries].
  - intros [= _ <-]. eexists _, _, _, _. apply membership_id.
  - destruct (Byte.eqb (Typ e) EntryNormal); [apply IH|].
    destruct (Byte.eqb (Typ e) EntrySnapshot); [apply IH|].
    destruct (Byte.eqb (Typ e) EntryPeerState).
    { intros (dr & _ & H)%bind_Done_inv.
      apply bind_Done_inv in H as (n1 & H1 & H).
      apply IH in H as (c & q & ps & h & ->).
      destruct dr as [err|pst].
      - injection H1 as <-. eexists _, _, _, _. reflexivity.
      - unfold processPeerState, writePeerState in H1.
        apply bind_Done_inv in H1 as (buf & _ & H1). injection H1 as <-.
        eexists c, q, ps, h.
        rewrite (membership_id n) at 1.
        destruct n; reflexivity. }
    destruct (Byte.eqb (Typ e) EntryAddPeer); [|apply IH].
    intros (n1 & H1 & H)%bind_Done_inv.
    apply IH in H as (c & q & ps & h & ->).
    unfold writePeerState in H1.
    apply bind_Done_inv in H1 as (buf & _ & H1). injection H1 as <-.
    eexists c, q, ps, h.
    destruct (peers n !! _); destruct n; reflexivity.
Qed.

Lemma applyCommit_subj (index : Z) n (err : option error) n' :
  applyCommit index n = Done (err, n') -> subj n' = subj n.
Proof.
  unfold applyCommit. destruct (index <=? commit n); [intros [= _ <-]; reflexivity|].
  set (n1 := if bool_decide (state (set_commit index n) = Leader)
             then set_acks (delete index (acks (set_commit index n))) (set_commit index n)
             else set_commit index n).
  assert (Hn1 : subj n1 = subj n) by (unfold n1; destruct (bool_decide _); reflexivity).
  clearbody n1.
  intros (r & Hr & H)%bind_Done_inv.
  destruct r as [e|[ae|]]; try discriminate.
  - injection H as _ <-. exact Hn1.
  - apply bind_Done_inv in H as ([committed n2] & H2 & H).
    apply apply_entries_shape in H2 as (c & q & ps & h & ->).
    revert H. repeat match goal with |- context [if ?b then _ else _] => destruct b end;
      intros [= _ <-]; exact Hn1.
Qed.

Lemma apply_range_subj (cnt : nat) : forall (index : Z) n n',
  apply_range cnt index n = Done n' -> subj n' = subj n.
Proof.
  induction cnt as [|k IH]; intros index n n'; cbn [apply_range].
  - intros [= <-]. reflexivity.
  - intros ([err n1] & H1 & H)%bind_Done_inv.
    apply applyCommit_subj in H1.
    destruct err; [injection H as <-; exact H1|].
    apply IH in H. congruence.
Qed.

End Resume.

(** X24.  [ResumeApply] after a pause, when every batch between the
    commit index and the parked index [hcommit] loads and decodes and
    the apply channel has room for them: the commit index reaches
    [hcommit], the channel receives, in index order, one record for
    each index whose batch has a Normal or Snapshot entry, holding
    exactly those entries, the pause is lifted and [hcommit] is reset
    to 0. *)
Theorem ResumeApply_catches_up {W : Type} {walOps : WAL W} (n : @raft W)
    (aes : list appendEntry) :
  0 <= commit n -> hcommit n = commit n + Z.of_nat (length aes) ->
  hcommit n < 2 ^ 64 - 1 ->
  stored_from (wal n) (commit n + 1) aes ->
  Z.of_nat (length (applyc n)) + Z.of_nat (length aes) <= applyc_cap n ->
  exists n', ResumeApply n = Done n'
    /\ commit n' = hcommit n
    /\ applyc n' = applyc n ++ records_from (commit n + 1) aes
    /\ paused n' = false /\ hcommit n' = 0
    /\ wal n' = wal n /\ term n' = term n /\ pindex n' = pindex n.
Proof.
  intros H0 Hh Hb Hst Hroom. unfold ResumeApply.
  destruct (Z.ltb_spec (commit n) (hcommit n)) as [Hlt|Hge].
  - destruct (apply_upto_success aes n (hcommit n) Hh H0 Hb Hst Hroom)
      as (n' & -> & Hc & Ha & Hk).
    cbn [mbind outcome_bind]. eexists. split; [reflexivity|]. cbn.
    unfold kept_by_commit in Hk. intuition congruence.
  - assert (aes = []) as -> by (destruct aes; [reflexivity|cbn in Hh; lia]).
    cbn [mbind outcome_bind]. eexists. split; [reflexivity|]. cbn.
    rewrite app_nil_r. cbn in Hh. repeat split; lia.
Qed.

Lemma ResumeApply_catches_up_witness :
  exists n', ResumeApply paused_follower = Done n'
    /\ commit n' = 2
    /\ applyc n' = [] ++ records_from (0 + 1) two_loaded
    /\ paused n' = false /\ hcommit n' = 0
    /\ wal n' = log_of two_batches /\ term n' = 1 /\ pindex n' = 2.
Proof.
  apply (ResumeApply_catches_up paused_follower two_loaded).
  - cbn. lia.
  - reflexivity.
  - cbn. lia.
  - cbn [stored_from two_loaded]. unfold stored_batch.
    split; [|split; [|exact I]].
    + eexists. split; [vm_compute; reflexivity|].
      split; [vm_compute; reflexivity|]. vm_compute. repeat constructor; discriminate.
    + eexists. split; [vm_compute; reflexivity|].
      split; [vm_compute; reflexivity|]. vm_compute. repeat constructor; discriminate.
  - cbn. lia.
Defined.



(** X26.  [trackResponse] commits on a quorum of acks without looking
    at terms or at the node's state: when the ack set of the index of
    the response, with the responder added, has at least [qn] members
    and the batches from the commit index up to that index load with
    room on the apply channel, the commit index becomes the index of
    the response, whatever terms the stored batches carry, and each
    batch with a Normal or Snapshot entry is put on the apply channel
    in order, paused or not.  With no proposal waiting a heartbeat
    carrying the new commit index is sent. *)
Theorem trackResponse_commits_on_quorum {W : Type} {walOps : WAL W} (n : @raft W)
    (ar : appendEntryResponse) (results : gset string) (aes : list appendEntry) :
  wf_id (id n) -> 0 <= commit n -> aes <> [] ->
  ar_index ar = commit n + Z.of_nat (length aes) -> ar_index ar < 2 ^ 64 - 1 ->
  acks n !! ar_index ar = Some results ->
  qn n <= Z.of_nat (size (results ∪ {[ ar_peer ar ]})) ->
  stored_from (wal n) (commit n + 1) aes ->
  Z.of_nat (length (applyc n)) + Z.of_nat (length aes) <= applyc_cap n ->
  exists n', trackResponse ar n = Done n'
    /\ commit n' = ar_index ar
    /\ applyc n' = applyc n ++ records_from (commit n + 1) aes
    /\ sendq n' = sendq n
                  ++ (if (length (propc n) =? 0)%nat
                      then [mkPub (asubj (subj n)) (areply (subj n))
                                  (ae_wire (mkAE (id n) (term n) (ar_index ar) (pterm n)
                                                 (pindex n) [] EmptyString None))]
                      else [])
    /\ term n' = term n /\ state n' = state n /\ paused n' = paused n.
Proof.
  intros Hid H0 Hne Hidx Hb Hacks Hq Hst Hroom. unfold trackResponse.
  destruct (trackResponse_pre ar n) as (ps & pg & E & _). cbv zeta in E. rewrite E. clear E.
  cbn [commit acks qn set_progress set_peers].
  assert (Hlen : 0 < Z.of_nat (length aes)) by (destruct aes; [contradiction|cbn; lia]).
  destruct (Z.leb_spec (ar_index ar) (commit n)); [lia|].
  rewrite Hacks. cbv zeta. cbn [qn set_acks set_progress set_peers].
  destruct (Z.leb_spec (qn n) (Z.of_nat (size (results ∪ {[ar_peer ar]}))));
    [|lia].
  match goal with |- context [apply_upto _ ?m] =>
    destruct (apply_upto_success aes m (ar_index ar)) as (n1 & Eu & Hc & Ha & Hk) end;
    [exact Hidx|exact H0|exact Hb|exact Hst|exact Hroom|].
  assert (Hsubj : subj n1 = subj n) by (apply apply_range_subj in Eu; exact Eu).
  rewrite Eu.
  cbn [mbind outcome_bind]. unfold kept_by_commit in Hk.
  cbn [id state term pterm pindex sindex leader vote paused hcommit propc applyc_cap sendq wal
       commit applyc set_acks set_progress set_peers] in Hk, Hc, Ha.
  destruct Hk as (K1 & K2 & K3 & K4 & K5 & K6 & K7 & K8 & K9 & K10 & K11 & K12 & K13 & K14).
  rewrite K11.
  destruct (length (propc n) =? 0)%nat.
  - rewrite sendHeartbeat_spec by (rewrite K1; exact Hid).
    eexists. split; [reflexivity|]. unfold sendRPC, buildAppendEntry.
    cbn [commit applyc sendq term state paused set_sendq].
    rewrite K13, K1, K3, K4, K5, Hc.
    rewrite Hsubj. repeat split; assumption.
  - eexists. split; [reflexivity|]. rewrite app_nil_r. repeat split; assumption.
Qed.

Lemma trackResponse_commits_on_quorum_witness :
  term leader_old_entries = 3 /\ map ae_term two_loaded = [1; 1]
  /\ exists n', trackResponse ack_of_B leader_old_entries = Done n'
       /\ commit n' = 2
       /\ applyc n' = [] ++ records_from (0 + 1) two_loaded
       /\ sendq n' = [] ++ [mkPub "$NRG.E.C.G" "$NRG.R.append"
                                  (ae_wire (mkAE "nodeAAAA" 3 2 1 2 [] EmptyString None))]
       /\ term n' = 3 /\ state n' = Leader /\ paused n' = false.
Proof.
  split; [reflexivity|]. split; [vm_compute; reflexivity|].
  apply (trackResponse_commits_on_quorum leader_old_entries ack_of_B
           {[ "nodeAAAA"%string ]} two_loaded).
  - reflexivity.
  - cbn. lia.
  - discriminate.
  - reflexivity.
  - cbn. lia.
  - reflexivity.
  - vm_compute. discriminate.
  - cbn [stored_from two_loaded]. unfold stored_batch.
    split; [|split; [|exact I]].
    + eexists. split; [vm_compute; reflexivity|].
      split; [vm_compute; reflexivity|]. vm_compute. repeat constructor; discriminate.
    + eexists. split; [vm_compute; reflexivity|].
      split; [vm_compute; reflexivity|]. vm_compute. repeat constructor; discriminate.
  - cbn. lia.
Defined.

(** X27.  [trackResponse] without a quorum: the responder, if it is a
    known peer, has its replicated index raised to the index of the
    response (never lowered) and no other peer's record changes.  For
    an index at or below the commit index, or one with no ack set,
    nothing else happens; for an index above it whose ack set with
    the responder stays below [qn], the responder is added to that
    ack set.  In all three cases the commit index, the apply channel
    and the send queue are as before. *)
Theorem trackResponse_records {W : Type} {walOps : WAL W} (n : @raft W)
    (ar : appendEntryResponse) :
  ar_index ar <= commit n \/ acks n !! ar_index ar = None
  \/ (exists results, acks n !! ar_index ar = Some results
                      /\ Z.of_nat (size (results ∪ {[ ar_peer ar ]})) < qn n) ->
  exists n', trackResponse ar n = Done n'
    /\ commit n' = commit n /\ applyc n' = applyc n /\ sendq n' = sendq n /\ wal n' = wal n
    /\ (forall p, peers n !! ar_peer ar = Some p ->
          peers n' !! ar_peer ar = Some (mkLps (ts p) (Z.max (li p) (ar_index ar))))
    /\ (forall q, q <> ar_peer ar -> peers n' !! q = peers n !! q)
    /\ acks n'
       = (if ar_index ar <=? commit n then acks n
          else match acks n !! ar_index ar with
               | Some results => <[ar_index ar := results ∪ {[ ar_peer ar ]}]> (acks n)
               | None => acks n
               end).
Proof.
  intros Hcase. unfold trackResponse.
  destruct (trackResponse_pre ar n) as (ps & pg & E & Hp1 & Hp2 & _).
  cbv zeta in E. rewrite E. clear E.
  cbn [commit acks set_progress set_peers].
  destruct (Z.leb_spec (ar_index ar) (commit n)) as [Hold|Hnew].
  - eexists. split; [reflexivity|]. cbn. repeat split; assumption.
  - destruct (acks n !! ar_index ar) as [results|] eqn:Ea.
    + destruct Hcase as [?|[?|(r & [= <-] & Hq)]]; [lia|discriminate|].
      cbv zeta. cbn [qn set_acks set_progress set_peers].
      destruct (Z.leb_spec (qn n) (Z.of_nat (size (results ∪ {[ar_peer ar]})))); [lia|].
      eexists. split; [reflexivity|]. cbn. repeat split; assumption.
    + eexists. split; [reflexivity|]. cbn. repeat split; assumption.
Qed.

Lemma trackResponse_records_witness :
  exists n', trackResponse (mkAR 1 1 "nodeBBBB" true EmptyString) leader_old_entries
             = Done n'
    /\ commit n' = 0 /\ applyc n' = [] /\ sendq n' = []
    /\ wal n' = log_of two_batches
    /\ (forall p, peers leader_old_entries !! "nodeBBBB"%string = Some p ->
          peers n' !! "nodeBBBB"%string = Some (mkLps (ts p) (Z.max (li p) 1)))
    /\ (forall q, q <> "nodeBBBB"%string -> peers n' !! q = peers leader_old_entries !! q)
    /\ acks n' = acks leader_old_entries.
Proof.
  apply (trackResponse_records leader_old_entries (mkAR 1 1 "nodeBBBB" true EmptyString)).
  right. left. reflexivity.
Defined.

(** ** Append entries at a follower *)

Section Append.

Context {W : Type} {walOps : WAL W}.
Implicit Types (n : @raft W) (ae : appendEntry).









End Append.

Section Accept.

Context {W : Type} {walOps : WAL W}.
Variable digits : list byte.
Variable base : Z.
Variable replySuffixLen : nat.
Implicit Types (n : @raft W) (ae : appendEntry).



End Accept.


Section Stale.

Context {W : Type} {walOps : WAL W}.
Variable digits : list byte.
Variable base : Z.
Variable replySuffixLen : nat.
Implicit Types (n : @raft W) (ae : appendEntry).

Lemma resetElectionTimeout_clock n :
  exists et h, resetElectionTimeout n = set_elect (Some et) (set_host h n)
               /\ minElectionTimeout <= et < maxElectionTimeout
               /\ clock h = clock (host n).
Proof.
  unfold resetElectionTimeout, randElectionTimeout, Int63n, resetElect.
  destruct (Int63_files n) as (h & -> & _ & _ & Hclock). cbn [fst snd].
  eexists _, h. split; [reflexivity|]. split; [|exact Hclock].
  assert (0 <= (fst (Int63 n)) mod (maxElectionTimeout - minElectionTimeout)
          < maxElectionTimeout - minElectionTimeout).
  { apply Z.mod_pos_bound. unfold maxElectionTimeout, minElectionTimeout, millisecond. lia. }
  lia.
Qed.

(** X29.  An append entry of a term below the node's, coming on a
    subscription to a node that is neither closed nor a candidate and
    has no catch-up under way, is dropped: nothing is stored, applied
    or answered, and term, vote, state and leader stay as they are.
    The election timer is armed afresh all the same, within
    [minElectionTimeout, maxElectionTimeout), and the sender named in
    the entry is recorded as heard of at the time of the call. *)
Theorem stale_entry_ignored ae (s : subscription) n :
  state n <> Closed -> state n <> Candidate -> catchup n = None ->
  ae_term ae < term n ->
  exists n', processAppendEntry digits base replySuffixLen ae (Some s) n = Done n'
    /\ term n' = term n /\ vote n' = vote n /\ state n' = state n /\ leader n' = leader n
    /\ wal n' = wal n /\ pindex n' = pindex n /\ pterm n' = pterm n
    /\ commit n' = commit n /\ applyc n' = applyc n /\ sendq n' = sendq n
    /\ (exists et, elect n' = Some et /\ minElectionTimeout <= et < maxElectionTimeout)
    /\ (ae_leader ae <> noLeader ->
        exists p, peers n' !! ae_leader ae = Some p /\ ts p = now n)
    /\ (forall q, q <> ae_leader ae -> peers n' !! q = peers n !! q).
Proof.
  intros Hs Hc Hcu Ht. unfold processAppendEntry.
  rewrite (bool_decide_eq_false_2 (state n = Closed)) by exact Hs.
  rewrite (bool_decide_eq_false_2 (state n = Candidate)) by exact Hc.
  cbn [mbind outcome_bind]. rewrite Hcu.
  rewrite (bool_decide_eq_false_2 (None ≠ None)) by (intros H; apply H; reflexivity).
  rewrite (bool_decide_eq_true_2 (Some s ≠ None)) by discriminate.
  cbn [negb andb orb]. cbv zeta.
  destruct (resetElectionTimeout_clock n) as (et & h & -> & Het & Hclock).
  set (m := set_elect (Some et) (set_host h n)).
  assert (Hm : exists ps,
    (if negb (bool_decide (ae_leader ae = noLeader)) then touchPeer (ae_leader ae) m else m)
    = set_peers ps m
    /\ (ae_leader ae <> noLeader ->
        exists p, ps !! ae_leader ae = Some p /\ ts p = now n)
    /\ (forall q, q <> ae_leader ae -> ps !! q = peers n !! q)).
  { destruct (bool_decide_reflect (ae_leader ae = noLeader)) as [E|E]; cbn [negb].
    - exists (peers n). split; [reflexivity|]. split; [contradiction|reflexivity].
    - unfold touchPeer. change (peers m) with (peers n).
      assert (Hnow : now m = now n) by (unfold now, m; cbn; exact Hclock).
      rewrite Hnow.
      destruct (peers n !! ae_leader ae) as [p|]; eexists; (split; [reflexivity|]);
        (split; [intros _; eexists; split; [apply lookup_insert_eq|reflexivity]
                |intros q Hq; apply lookup_insert_ne; congruence]). }
  destruct Hm as (ps & -> & Hp1 & Hp2).
  cbn [term set_peers]. unfold m. cbn [term set_elect set_host].
  destruct (Z.ltb_spec (ae_term ae) (term n)); [|lia].
  eexists. split; [reflexivity|]. cbn.
  repeat split; try reflexivity; try assumption. eauto.
Qed.

End Stale.

Lemma stale_entry_ignored_witness :
  exists n', processAppendEntry inbox_alphabet 62 8 stale_entry (Some 3%nat) current_follower
             = Done n'
    /\ term n' = 1 /\ vote n' = noVote /\ state n' = Follower
    /\ leader n' = "nodeBBBB"%string
    /\ wal n' = memWAL_empty /\ pindex n' = 0 /\ pterm n' = 0
    /\ commit n' = 0 /\ applyc n' = [] /\ sendq n' = []
    /\ (exists et, elect n' = Some et /\ minElectionTimeout <= et < maxElectionTimeout)
    /\ (ae_leader stale_entry <> noLeader ->
        exists p, peers n' !! ae_leader stale_entry = Some p /\ ts p = now current_follower)
    /\ (forall q, q <> ae_leader stale_entry -> peers n' !! q = peers current_follower !! q).
Proof.
  apply (stale_entry_ignored inbox_alphabet 62 8 stale_entry 3%nat current_follower).
  - discriminate.
  - discriminate.
  - reflexivity.
  - cbn. lia.
Defined.

(** ** The server's table of nodes *)

(** X30.  The table of raft nodes: a node registered for a group is the
    one looked up for it, also when the table was nil before, and
    registering or unregistering another group does not change that;
    after unregistering, the lookup of the group finds nothing.  On a
    nil table a lookup finds nothing and unregistering leaves the
    table nil. *)
Theorem registry_roundtrip {N : Type} (group other : string) (node node' : N)
    (raftNodes : option (gmap string N)) :
  lookupRaftNode N group (registerRaftNode N group node raftNodes) = Some node
  /\ lookupRaftNode N group (unregisterRaftNode N group raftNodes) = None
  /\ lookupRaftNode N group None = None
  /\ unregisterRaftNode N group None = None
  /\ (other <> group ->
      lookupRaftNode N group (registerRaftNode N other node' raftNodes)
      = lookupRaftNode N group raftNodes
      /\ lookupRaftNode N group (unregisterRaftNode N other raftNodes)
         = lookupRaftNode N group raftNodes).
Proof.
  unfold lookupRaftNode, registerRaftNode, unregisterRaftNode.
  split; [apply lookup_insert_eq|].
  split; [destruct raftNodes; [apply lookup_delete_eq|reflexivity]|].
  split; [reflexivity|]. split; [reflexivity|].
  intros Hne. split.
  - rewrite lookup_insert_ne by exact Hne. destruct raftNodes; [reflexivity|apply lookup_empty].
  - destruct raftNodes; [|reflexivity]. apply lookup_delete_ne. exact Hne.
Qed.

Lemma registry_roundtrip_witness :
  lookupRaftNode nat "G" (registerRaftNode nat "H" 2%nat (registerRaftNode nat "G" 1%nat None))
  = lookupRaftNode nat "G" (registerRaftNode nat "G" 1%nat None).
Proof.
  apply (registry_roundtrip "G" "H" 1%nat 2%nat (registerRaftNode nat "G" 1%nat None)).
  discriminate.
Defined.
